(** * ctxtodo: the context-plumbing analyzer of kylelemons/plumber

    A shallow embedding of [internal/ctxtodo/ctxtodo.go] and the properties
    of its resolver, its propagation walk and its report filter.

    Conventions of the embedding:
    - a [token.Pos] is an integer ([Z]); [NoPos] is [0];
    - the type checker's answers ([TypesInfo.ObjectOf], [TypesInfo.Scopes],
      [TypesInfo.Types]) are stored in the syntax nodes they are asked about;
    - a Go map keyed by a pointer is a [gset]/[gmap] keyed by the identity
      ([positive]) of the object pointed to;
    - [r.Report] calls made by the resolver are returned as the list of
      diagnostics handed to [r.Report], in order. *)

From Stdlib Require Import ZArith String Ascii List Bool Lia DecimalString.
From stdpp Require Import base gmap sets list strings.

Set Warnings "-register-all".

Local Open Scope Z_scope.
Local Open Scope string_scope.
Local Open Scope list_scope.

(** ** Positions and the file set *)

Definition Pos := Z.
Definition NoPos : Pos := 0.

(** [token.Pos.IsValid] *)
Definition IsValid (p : Pos) : bool := negb (p =? NoPos)%Z.

(** One file of the [token.FileSet]: positions [base .. base+size] belong to it. *)
Record FsetFile := { fsBase : Z; fsSize : Z; fsName : string }.

(** [r.Fset.Position(p).Filename]: the empty string when no file holds [p]. *)
Definition Filename (fset : list FsetFile) (p : Pos) : string :=
  match find (fun f => (fsBase f <=? p)%Z && (p <=? fsBase f + fsSize f)%Z) fset with
  | Some f => if IsValid p then fsName f else ""
  | None => ""
  end.

(** [strings.HasPrefix s prefix] and [strings.HasSuffix s suffix] *)
Definition HasPrefix (s pre : string) : bool := String.prefix pre s.

Definition HasSuffix (s suf : string) : bool :=
  let n := String.length s in
  let m := String.length suf in
  (m <=? n)%nat && String.eqb (String.substring (n - m) m s) suf.

(** [fmt.Sprintf("%d", i)] for a slice index. *)
Definition decimal (i : nat) : string := NilZero.string_of_uint (Nat.to_uint i).

(** ** Types of the type checker ([go/types]) *)

(** [*types.TypeName]: [Pkg()] is nil for universe types such as [error]. *)
Record TypeName := { tnPkg : option string; tnName : string }.

(** [types.Type], as far as the analyzer inspects it.  A named type carries
    its declared methods ([NumMethods]/[Method]); a method carries the
    parameter and result types of its signature. *)
Inductive GoType : Type :=
| TBasic (name : string)
| TPointer (elem : GoType)
| TNamed (obj : option TypeName) (methods : list Method)
| TOtherType
with Method : Type :=
| mkMethod (mname : string) (mparams : list GoType) (mresults : list GoType).

Definition methName (m : Method) : string := let 'mkMethod n _ _ := m in n.
Definition methParams (m : Method) : list GoType := let 'mkMethod _ p _ := m in p.
Definition methResults (m : Method) : list GoType := let 'mkMethod _ _ r := m in r.

(** [*types.Var] (also any other object found in a scope): name, type and
    declaration position. *)
Record Var := { vName : string; vType : GoType; vPos : Pos }.

(** A [*types.Scope], as the sequence of [scope.Lookup(n)] for [n] ranging
    over [scope.Names()] (which Go returns sorted). *)
Definition Scope := list Var.

(** [types.Object] of an identifier, as far as the walk inspects it. *)
Record Object := {
  oid : positive;             (* identity of the object *)
  oIsFunc : bool;             (* the object is a function *)
  oPkgPath : option string;   (* Pkg().Path(), None when Pkg() is nil *)
  oName : string
}.

(** ** Edits and diagnostics ([go/analysis]) *)

Record TextEdit := { tePos : Pos; teEnd : Pos; teNewText : string }.

Record SuggestedFix := { sfMessage : string; sfTextEdits : list TextEdit }.

Record Diagnostic := {
  dPos : Pos;
  dEnd : Pos;
  dCategory : string;
  dMessage : string;
  dSuggestedFixes : list SuggestedFix
}.

(** [pass.Reportf(pos, msg)] and [pass.ReportRangef(rng, msg)] build these. *)
Definition DiagAt (pos : Pos) (msg : string) : Diagnostic :=
  {| dPos := pos; dEnd := NoPos; dCategory := ""; dMessage := msg; dSuggestedFixes := [] |}.

Definition DiagRange (pos end_ : Pos) (msg : string) : Diagnostic :=
  {| dPos := pos; dEnd := end_; dCategory := ""; dMessage := msg; dSuggestedFixes := [] |}.

Definition msgNameParam : string := "Name this param if you want plumber to use it".
Definition msgNonContext : string := "Non-context ctx parameter".

(** ** Syntax ([go/ast]) *)

(** [*ast.Ident] with [TypesInfo.ObjectOf]. *)
Record Ident := { idPos : Pos; idName : string; idObj : option Object }.

(** [*ast.Field] of a parameter list with [TypesInfo.Types[field.Type]]. *)
Record Field := {
  fieldNames : list string;
  fieldType : option GoType;
  fieldPos : Pos;
  fieldEnd : Pos
}.

(** [*ast.FuncDecl] together with its [*types.Func]. *)
Record FuncDecl := {
  fid : positive;        (* identity of the declaration and of its function object *)
  fName : string;        (* funcDecl.Name.Name = fun.Name() *)
  fPkgName : string;     (* fun.Pkg().Name() *)
  fHasRecv : bool;       (* Signature.Recv() != nil *)
  fParams : list Var;    (* Signature.Params() *)
  fScope : Scope;        (* TypesInfo.Scopes[funcDecl.Type] *)
  fPos : Pos;            (* funcDecl.Pos() *)
  fEnd : Pos;            (* funcDecl.End() *)
  fNamePos : Pos;        (* funcDecl.Name.Pos() *)
  fOpening : Pos;        (* funcDecl.Type.Params.Opening *)
  fLbrace : Pos          (* funcDecl.Body.Lbrace *)
}.

(** The nodes the inspector pushes on its stack.  [NOther] stands for every
    node kind the analyzer has no case for (blocks, if and for statements,
    expression statements, ...); such a node may own a lexical scope.  Of a
    function declaration the tree keeps the statements of the body: the
    receiver, the name and the signature hold no call, assignment or
    function for the walk to find. *)
Inductive Node : Type :=
| NFile (pkgPos : Pos) (imports : list string) (decls : list Node)
| NGenDecl (pos : Pos) (tok : string) (lparen : Pos) (specs : list Node)
| NFuncDecl (d : FuncDecl) (body : list Node)
| NFuncLit (pos : Pos) (params : list Field) (scope : Scope) (body : list Node)
| NAssignStmt (lhs : list Node) (rhs : list Node)
| NCallExpr (fn : Node) (lparen : Pos) (args : list Node) (rparen : Pos)
| NSelectorExpr (x : Node) (sel : Ident)
| NIdent (id : Ident)
| NOther (pos end_ : Pos) (scope : option Scope) (children : list Node).

(** [node.Pos()] *)
Fixpoint nodePos (n : Node) : Pos :=
  match n with
  | NFile p _ _ => p
  | NGenDecl p _ _ _ => p
  | NFuncDecl d _ => fPos d
  | NFuncLit p _ _ _ => p
  | NAssignStmt lhs _ => match lhs with l :: _ => nodePos l | [] => NoPos end
  | NCallExpr fn _ _ _ => nodePos fn
  | NSelectorExpr x _ => nodePos x
  | NIdent id => idPos id
  | NOther p _ _ _ => p
  end.

Definition astPath := list Node.

(** [astPath.decl]: the last (innermost) function declaration of the path. *)
Fixpoint decl_from (last : option FuncDecl) (p : astPath) : option FuncDecl :=
  match p with
  | [] => last
  | NFuncDecl d _ :: rest => decl_from (Some d) rest
  | _ :: rest => decl_from last rest
  end.

Definition decl (p : astPath) : option FuncDecl := decl_from None p.

(** ** The context-source resolver *)

(** [isContextContext] *)
Definition isContextContext (otyp : GoType) : bool :=
  match otyp with
  | TNamed (Some obj) _ =>
      match tnPkg obj with
      | Some path => String.eqb path "context" && String.eqb (tnName obj) "Context"
      | None => false
      end
  | _ => false
  end.

(** The body of the method loop of [typeHasContextMethod]. *)
Definition isContextAccessor (meth : Method) : bool :=
  if negb (String.eqb (methName meth) "Context") then false
  else match methResults meth with
       | [res] => isContextContext res
       | _ => false
       end.

(** [typeHasContextMethod] *)
Fixpoint typeHasContextMethod (typ : GoType) : bool :=
  match typ with
  | TPointer elem => typeHasContextMethod elem
  | TNamed _ methods => existsb isContextAccessor methods
  | _ => false
  end.

(** A result of the resolver together with the diagnostics reported on the way. *)
Definition Res : Type := (string * bool) * list Diagnostic.

(** [hasContextProviderParam], from index [i] on. *)
Fixpoint hasContextProviderParam_from (i : nat) (params : list Var) : Res :=
  match params with
  | [] => (("", false), [])
  | param :: rest =>
      let unnamed := String.eqb (vName param) "" in
      let paramName := if unnamed then "unnamedParam" +:+ decimal i else vName param in
      let diags :=
        if unnamed && (isContextContext (vType param) || typeHasContextMethod (vType param))
        then [DiagAt (vPos param) msgNameParam] else [] in
      if isContextContext (vType param) then ((paramName, true), diags)
      else if typeHasContextMethod (vType param) then ((paramName +:+ ".Context()", true), diags)
      else let '(res, more) := hasContextProviderParam_from (S i) rest in (res, diags ++ more)
  end.

Definition hasContextProviderParam (params : list Var) : Res :=
  hasContextProviderParam_from 0 params.

(** [hasContextProviderField], from index [i] on. *)
Fixpoint hasContextProviderField_from (i : nat) (fields : list Field) : Res :=
  match fields with
  | [] => (("", false), [])
  | field :: rest =>
      match fieldType field with
      | None => hasContextProviderField_from (S i) rest
      | Some typ =>
          let unnamed := match fieldNames field with [] => true | _ => false end in
          let fieldName :=
            match fieldNames field with
            | name :: _ => name
            | [] => "unnamedParam" +:+ decimal i
            end in
          let diags :=
            if unnamed && (isContextContext typ || typeHasContextMethod typ)
            then [DiagRange (fieldPos field) (fieldEnd field) msgNameParam] else [] in
          if isContextContext typ then ((fieldName, true), diags)
          else if typeHasContextMethod typ then ((fieldName +:+ ".Context()", true), diags)
          else let '(res, more) := hasContextProviderField_from (S i) rest in (res, diags ++ more)
      end
  end.

Definition hasContextProviderField (fields : list Field) : Res :=
  hasContextProviderField_from 0 fields.

(** [hasContextProviderInScope] *)
Fixpoint hasContextProviderInScope (scope : Scope) (at_ : Pos) : string * bool :=
  match scope with
  | [] => ("", false)
  | param :: rest =>
      if (vPos param >=? at_)%Z then hasContextProviderInScope rest at_
      else if isContextContext (vType param) then (vName param, true)
      else if typeHasContextMethod (vType param) then (vName param +:+ ".Context()", true)
      else hasContextProviderInScope rest at_
  end.

(** [hasContextProviderInPath] on the path read from its last element:
    [rcaller] is the path reversed, so that its head is what [pop] returns. *)
Fixpoint providerInPath (rcaller : list Node) (at_ : Pos) : Res :=
  match rcaller with
  | [] => (("", false), [])
  | last :: prev =>
      match last with
      | NAssignStmt _ _ => providerInPath prev (nodePos last)
      | NFuncDecl d _ =>
          let '((expr, ok), ds) := hasContextProviderParam (fParams d) in
          if ok then ((expr, true), ds) else
          let '(expr, ok) := hasContextProviderInScope (fScope d) at_ in
          if ok then ((expr, true), ds) else
          let '(res, more) := providerInPath prev at_ in (res, ds ++ more)
      | NFuncLit _ params scope _ =>
          let '((expr, ok), ds) := hasContextProviderField params in
          if ok then ((expr, true), ds) else
          let '(expr, ok) := hasContextProviderInScope scope at_ in
          if ok then ((expr, true), ds) else
          let '(res, more) := providerInPath prev at_ in (res, ds ++ more)
      | _ => providerInPath prev at_
      end
  end.

Definition hasContextProviderInPath (caller : astPath) (at_ : Pos) : Res :=
  providerInPath (rev caller) at_.

(** ** The pass: configuration and state *)

(** What the pass reads and never changes: the [-modcache] flag, the file
    set and files of [analysis.Pass], the package path, and the objects
    that carry a [NeedsContext] fact from an earlier pass. *)
Record Config := {
  ModuleCache : string;
  Fset : list FsetFile;
  Files : list Node;
  PkgPath : string;
  ImportedFacts : gset positive
}.

(** [localCall] *)
Record localCall := {
  path : astPath;          (* stack of the walk, the node itself last *)
  call : Node;             (* the call expression *)
  assign : option Node     (* the [ctx :=] assignment of the call, if any *)
}.

(** The "analysis state" of [runner], filled by [buildCallGraph]. *)
Record Analysis := {
  byObj : gmap positive FuncDecl;
  callers : gmap positive (list localCall);
  todos : list localCall;
  transitives : list localCall
}.

(** The "diagnostic state" of [runner] with the outputs of the pass: what
    reached the driver's [Report], the exported facts, and the [seen] map of
    the propagation walk in progress. *)
Record State := {
  seen : gset positive;
  paramAdded : gset positive;
  contextImported : gset nat;      (* files, by index in [r.Files] *)
  reports : list Diagnostic;
  facts : gset positive
}.

Definition initState : State :=
  {| seen := ∅; paramAdded := ∅; contextImported := ∅; reports := []; facts := ∅ |}.

Definition with_seen (s : gset positive) (st : State) : State :=
  {| seen := s; paramAdded := paramAdded st; contextImported := contextImported st;
     reports := reports st; facts := facts st |}.

Definition with_paramAdded (s : gset positive) (st : State) : State :=
  {| seen := seen st; paramAdded := s; contextImported := contextImported st;
     reports := reports st; facts := facts st |}.

Definition with_contextImported (s : gset nat) (st : State) : State :=
  {| seen := seen st; paramAdded := paramAdded st; contextImported := s;
     reports := reports st; facts := facts st |}.

Definition with_reports (l : list Diagnostic) (st : State) : State :=
  {| seen := seen st; paramAdded := paramAdded st; contextImported := contextImported st;
     reports := l; facts := facts st |}.

Definition with_facts (s : gset positive) (st : State) : State :=
  {| seen := seen st; paramAdded := paramAdded st; contextImported := contextImported st;
     reports := reports st; facts := s |}.

(** ** [filterReports] *)

(** The test of the wrapper installed by [filterReports]: some suggested edit
    has a valid position and the file of [diag.Pos] is under the module cache. *)
Definition inModuleCache (cfg : Config) (diag : Diagnostic) : bool :=
  existsb (fun sf =>
    existsb (fun te =>
      existsb (fun pos =>
        IsValid pos && HasPrefix (Filename (Fset cfg) (dPos diag)) (ModuleCache cfg))
        [tePos te; teEnd te])
      (sfTextEdits sf))
    (dSuggestedFixes diag).

(** [p.Report] after [filterReports]: [actual] is what the driver's own
    [Report] has received so far. *)
Definition Report (cfg : Config) (diag : Diagnostic) (actual : list Diagnostic) : list Diagnostic :=
  if inModuleCache cfg diag then actual else actual ++ [diag].

Definition ReportAll (cfg : Config) (diags : list Diagnostic) (actual : list Diagnostic) : list Diagnostic :=
  fold_left (fun acc d => Report cfg d acc) diags actual.

(** ** A state monad for the propagation; [None] is "out of fuel" *)

Definition M (A : Type) : Type := State -> option (A * State).

Definition ret {A} (a : A) : M A := fun st => Some (a, st).

Definition bind {A B} (m : M A) (k : A -> M B) : M B :=
  fun st => match m st with Some (a, st') => k a st' | None => None end.

Notation "'let*' x ':=' m 'in' k" := (bind m (fun x => k))
  (at level 10, x pattern, m at level 100, k at level 200).
Notation "m ';;' k" := (bind m (fun _ => k))
  (at level 100, k at level 200, right associativity).

Definition get : M State := fun st => Some (st, st).
Definition modify (f : State -> State) : M unit := fun st => Some (tt, f st).
Definition outOfFuel {A} : M A := fun _ => None.

Definition report (cfg : Config) (diag : Diagnostic) : M unit :=
  modify (fun st => with_reports (Report cfg diag (reports st)) st).

(** Run a resolver call: its diagnostics go through [Report]. *)
Definition resolve (cfg : Config) (r : Res) : M (string * bool) :=
  modify (fun st => with_reports (ReportAll cfg (snd r) (reports st)) st) ;; ret (fst r).

(** [for _, x := range l { edits = append(edits, f(x)...) }] *)
Fixpoint appendEach {A} (f : A -> M (list TextEdit)) (l : list A) : M (list TextEdit) :=
  match l with
  | [] => ret []
  | x :: rest =>
      let* e := f x in
      let* es := appendEach f rest in
      ret (e ++ es)
  end.

(** ** Edits *)

Definition dquote : string := String "034"%char EmptyString.

Definition callLparen (c : Node) : Pos :=
  match c with NCallExpr _ lp _ _ => lp | _ => NoPos end.

Definition callRparen (c : Node) : Pos :=
  match c with NCallExpr _ _ _ rp => rp | _ => NoPos end.

(** [call.End()] of a call expression *)
Definition callEnd (c : Node) : Pos := callRparen c + 1.

(** [Rparen] of the call expression [assign.Rhs[0]] *)
Definition assignRparen (a : Node) : Pos :=
  match a with NAssignStmt _ (r :: _) => callRparen r | _ => NoPos end.

Definition editToAddContextVarDecl (funcDecl : FuncDecl) (expr : string) : TextEdit :=
  {| tePos := fLbrace funcDecl + 1; teEnd := fLbrace funcDecl + 1;
     teNewText := "ctx := " +:+ expr +:+ ";" |}.

Definition editToPrependCtxParam (funcDecl : FuncDecl) : TextEdit :=
  {| tePos := fOpening funcDecl + 1; teEnd := fOpening funcDecl + 1;
     teNewText := "ctx context.Context, " |}.

Definition editToPrependExpr (callExpr : Node) (varname : string) : TextEdit :=
  {| tePos := callLparen callExpr + 1; teEnd := callLparen callExpr + 1;
     teNewText := varname +:+ ", " |}.

Definition fileImports (f : Node) : list string :=
  match f with NFile _ imports _ => imports | _ => [] end.

Definition fileDecls (f : Node) : list Node :=
  match f with NFile _ _ decls => decls | _ => [] end.

(** The import-block loop of [editToImportContext].  Its [break] leaves the
    [switch], not the loop, so the last parenthesised import declaration wins. *)
Definition importBlock (decls : list Node) : option Pos :=
  fold_left (fun found d =>
    match d with
    | NGenDecl _ tok lparen _ =>
        if String.eqb tok "import" && IsValid lparen then Some lparen else found
    | _ => found
    end) decls None.

(** [editToImportContext] *)
Definition editToImportContext (cfg : Config) (pos : Pos) : M (list TextEdit) :=
  let filename := Filename (Fset cfg) pos in
  match list_find (fun f => Filename (Fset cfg) (nodePos f) = filename) (Files cfg) with
  | None => ret []
  | Some (i, file) =>
      let* st := get in
      if decide (i ∈ contextImported st) then ret [] else
      modify (fun st => with_contextImported ({[i]} ∪ contextImported st) st) ;;
      if existsb (String.eqb (dquote +:+ "context" +:+ dquote)) (fileImports file) then ret [] else
      match importBlock (fileDecls file) with
      | Some lparen =>
          ret [ {| tePos := lparen + 1; teEnd := lparen + 1;
                   teNewText := dquote +:+ "context" +:+ dquote +:+ ";" |} ]
      | None =>
          match fileDecls file with
          | first :: _ =>
              ret [ {| tePos := nodePos first; teEnd := nodePos first;
                       teNewText := "import " +:+ dquote +:+ "context" +:+ dquote +:+ ";" |} ]
          | [] => ret []
          end
      end
  end.

(** ** Entry points *)

Definition isUpperAZ (c : ascii) : bool :=
  (65 <=? nat_of_ascii c)%nat && (nat_of_ascii c <=? 90)%nat.

(** [name] starts with [pre] followed by a letter of [A-Z]. *)
Definition prefixThenUpper (pre name : string) : bool :=
  String.prefix pre name &&
  match String.get (String.length pre) name with
  | Some c => isUpperAZ c
  | None => false
  end.

(** [topLevelTestFunc.MatchString], the regexp [^(Test|Benchmark|Fuzz)[A-Z]] *)
Definition topLevelTestFunc (name : string) : bool :=
  prefixThenUpper "Test" name || prefixThenUpper "Benchmark" name || prefixThenUpper "Fuzz" name.

(** [isMainOrInit] *)
Definition isMainOrInit (fn : FuncDecl) : bool :=
  if String.eqb (fPkgName fn) "main" && String.eqb (fName fn) "main" then true
  else if String.eqb (fName fn) "init" && negb (fHasRecv fn) then true
  else false.

(** [isTopLevelTestFunc] *)
Definition isTopLevelTestFunc (cfg : Config) (funcDecl : FuncDecl) : bool :=
  HasSuffix (Filename (Fset cfg) (fPos funcDecl)) "_test.go" && topLevelTestFunc (fName funcDecl).

(** [fun.Exported()], for names that start with an ASCII character. *)
Definition Exported (fn : FuncDecl) : bool :=
  match fName fn with
  | String c _ => isUpperAZ c
  | EmptyString => false
  end.

(** ** The propagation engine *)

Section Propagation.
Variable cfg : Config.
Variable an : Analysis.

(** [propagateContextForCall], given the function to call for
    [propagateContextThrough]. *)
Definition propagateContextForCall_with
    (through : option FuncDecl -> M (list TextEdit)) (caller : localCall) : M (list TextEdit) :=
  let* (expr, ok) := resolve cfg (hasContextProviderInPath (path caller) (nodePos (call caller))) in
  if (ok : bool) then
    (* There is already a way to get "ctx" in the current scope *)
    ret [editToPrependExpr (call caller) expr]
  else
    (* Ensure that the calling function itself has a ctx parameter to pass *)
    let* edits := through (decl (path caller)) in
    (* Add the new "ctx" parameter to call-sites *)
    ret (edits ++ [editToPrependExpr (call caller) "ctx"]).

(** [propagateContextThrough].  The two functions call each other; [fuel]
    bounds the depth of the calls of this one. *)
Fixpoint propagateContextThrough (fuel : nat) (funcDecl : option FuncDecl) {struct fuel}
    : M (list TextEdit) :=
  match fuel with
  | O => outOfFuel
  | S fuel' =>
      match funcDecl with
      | None => ret []
      | Some fd =>
          let* st := get in
          if decide (fid fd ∈ seen st) then ret [] else
          modify (fun st => with_seen ({[fid fd]} ∪ seen st) st) ;;
          (* Make sure a different diagnostic didn't add a context parameter already *)
          if decide (fid fd ∈ paramAdded st) then ret [] else
          modify (fun st => with_paramAdded ({[fid fd]} ∪ paramAdded st) st) ;;
          (* Check if the function itself has a ctx parameter. *)
          match find (fun param => String.eqb (vName param) "ctx") (fParams fd) with
          | Some param =>
              (if isContextContext (vType param) then ret tt
               else report cfg (DiagRange (fPos fd) (fEnd fd) msgNonContext)) ;;
              ret []
          | None =>
              (* Check if the function is main or a top-level test function. *)
              if isMainOrInit fd || isTopLevelTestFunc cfg fd then
                let* imp := editToImportContext cfg (fNamePos fd) in
                ret (editToAddContextVarDecl fd "context.Background()" :: imp)
              else
                (* Check if the function has any parameters that can provide a context *)
                let* (expr, ok) := resolve cfg (hasContextProviderParam (fParams fd)) in
                if (ok : bool) then
                  let* imp := editToImportContext cfg (fNamePos fd) in
                  ret (editToAddContextVarDecl fd expr :: imp)
                else
                  (* If it is an exported function, export the fact *)
                  (if Exported fd
                   then modify (fun st => with_facts ({[fid fd]} ∪ facts st) st)
                   else ret tt) ;;
                  (* Add the parameter *)
                  let* imp := editToImportContext cfg (fNamePos fd) in
                  let* more :=
                    appendEach (propagateContextForCall_with (propagateContextThrough fuel'))
                               (default [] (callers an !! fid fd)) in
                  ret (editToPrependCtxParam fd :: imp ++ more)
          end
      end
  end.

Definition propagateContextForCall (fuel : nat) (caller : localCall) : M (list TextEdit) :=
  propagateContextForCall_with (propagateContextThrough fuel) caller.

Definition plumbDiagnostic (c : Node) (msg : string) (edits : list TextEdit) : Diagnostic :=
  {| dPos := nodePos c; dEnd := callEnd c; dCategory := "context"; dMessage := msg;
     dSuggestedFixes := [ {| sfMessage := "Plumb context.Context"; sfTextEdits := edits |} ] |}.

(** The two edits of [rewriteTODO] that touch the request itself. *)
Definition editToRemoveAssign (a : Node) : TextEdit :=
  {| tePos := nodePos a; teEnd := assignRparen a + 1; teNewText := "" |}.

Definition editToReplaceCall (c : Node) (expr : string) : TextEdit :=
  {| tePos := nodePos c; teEnd := callEnd c; teNewText := expr |}.

(** The edits [rewriteTODO] collects for a request before it reports. *)
Definition todoEdits (fuel : nat) (todo : localCall) : M (list TextEdit) :=
  match assign todo with
  | Some a =>
      (* If this is an assignment of the ctx parameter, we can just remove it *)
      let* edits := propagateContextThrough fuel (decl (path todo)) in
      ret (edits ++ [editToRemoveAssign a])
  | None =>
      let* (expr, ok) := resolve cfg (hasContextProviderInPath (path todo) (nodePos (call todo))) in
      if (ok : bool) then
        (* If we have a way to get the parameter, we can use that *)
        ret [editToReplaceCall (call todo) expr]
      else
        (* Otherwise we are adding the ctx parameter to this function *)
        let* edits := propagateContextThrough fuel (decl (path todo)) in
        ret (edits ++ [editToReplaceCall (call todo) "ctx"])
  end.

(** [rewriteTODO]; its [seen] map starts empty. *)
Definition rewriteTODO (fuel : nat) (todo : localCall) : M unit :=
  modify (with_seen ∅) ;;
  let* edits := todoEdits fuel todo in
  report cfg (plumbDiagnostic (call todo) "Plumb context" edits).

(** [rewriteTransitives]; its [seen] map starts empty. *)
Definition rewriteTransitives (fuel : nat) (todo : localCall) : M unit :=
  modify (with_seen ∅) ;;
  let* edits := propagateContextForCall fuel todo in
  report cfg (plumbDiagnostic (call todo) "Continue plumbing context" edits).

Fixpoint forEach {A} (f : A -> M unit) (l : list A) : M unit :=
  match l with
  | [] => ret tt
  | x :: rest => f x ;; forEach f rest
  end.

(** [buildDiagnostics] *)
Definition buildDiagnostics (fuel : nat) : M unit :=
  forEach (rewriteTODO fuel) (todos an) ;;
  forEach (rewriteTransitives fuel) (transitives an).

End Propagation.

(** ** The call-graph builder *)

Definition with_byObj (m : gmap positive FuncDecl) (a : Analysis) : Analysis :=
  {| byObj := m; callers := callers a; todos := todos a; transitives := transitives a |}.

Definition with_callers (m : gmap positive (list localCall)) (a : Analysis) : Analysis :=
  {| byObj := byObj a; callers := m; todos := todos a; transitives := transitives a |}.

Definition with_todos (l : list localCall) (a : Analysis) : Analysis :=
  {| byObj := byObj a; callers := callers a; todos := l; transitives := transitives a |}.

Definition with_transitives (l : list localCall) (a : Analysis) : Analysis :=
  {| byObj := byObj a; callers := callers a; todos := todos a; transitives := l |}.

Definition emptyAnalysis : Analysis :=
  {| byObj := ∅; callers := ∅; todos := []; transitives := [] |}.

(** [isContextTODO] of [TypesInfo.ObjectOf(ident)], which may be nil. *)
Definition isContextTODO (obj : option Object) : bool :=
  match obj with
  | Some o =>
      if negb (oIsFunc o) then false
      else match oPkgPath o with
           | Some p => String.eqb p "context" && String.eqb (oName o) "TODO"
           | None => false
           end
  | None => false
  end.

(** [isLocal] of [called.Pkg()] *)
Definition isLocal (cfg : Config) (pkg : option string) : bool :=
  match pkg with
  | Some p => String.eqb (PkgPath cfg) p
  | None => false
  end.

(** [forStack] copies the stack. *)
Definition forStack (stack : list Node) : astPath := stack.

(** [walkFuncDecl] *)
Definition walkFuncDecl (d : FuncDecl) (a : Analysis) : bool * Analysis :=
  (true, with_byObj (<[fid d := d]> (byObj a)) a).

(** [walkAssignStmt] *)
Definition walkAssignStmt (stack : list Node) (asg : Node) (a : Analysis) : bool * Analysis :=
  match asg with
  | NAssignStmt [lhs] [rhs] =>
      (* Looking for: "ctx :=" or "_ =" *)
      match lhs with
      | NIdent ident =>
          if String.eqb (idName ident) "ctx" || String.eqb (idName ident) "_" then
            (* Looking for: ":= context.TODO()" *)
            match rhs with
            | NCallExpr (NSelectorExpr _ sel) _ _ _ =>
                if isContextTODO (idObj sel) then
                  (false,
                   with_todos (todos a ++ [ {| path := forStack stack; call := rhs;
                                               assign := Some asg |} ]) a)
                else (true, a)
            | _ => (true, a)
            end
          else (true, a)
      | _ => (true, a)
      end
  | _ => (true, a)
  end.

(** [walkCallExpr] *)
Definition walkCallExpr (cfg : Config) (stack : list Node) (c : Node) (a : Analysis)
    : bool * Analysis :=
  let ident :=
    match c with
    | NCallExpr (NIdent id) _ _ _ => Some id
    | NCallExpr (NSelectorExpr _ sel) _ _ _ => Some sel
    | _ => None
    end in
  match ident with
  | None => (true, a)
  | Some ident =>
      match idObj ident with
      | None => (true, a)
      | Some called =>
          (* Check if this is a call to context.TODO *)
          if isContextTODO (Some called) then
            (false,
             with_todos (todos a ++ [ {| path := forStack stack; call := c; assign := None |} ]) a)
          else
            let here := {| path := forStack stack; call := c; assign := None |} in
            (* Check if this is a call to something in this package *)
            let a1 :=
              if isLocal cfg (oPkgPath called)
              then with_callers
                     (<[oid called := default [] (callers a !! oid called) ++ [here]]> (callers a)) a
              else a in
            (* Check if this is a func that carries the NeedsContext fact *)
            let a2 :=
              if decide (oid called ∈ ImportedFacts cfg)
              then with_transitives (transitives a1 ++ [here]) a1
              else a1 in
            (true, a2)
      end
  end.

(** The callback of [buildCallGraph] for a push event. *)
Definition visit (cfg : Config) (stack : list Node) (n : Node) (a : Analysis) : bool * Analysis :=
  match n with
  | NFuncDecl d _ => walkFuncDecl d a
  | NAssignStmt _ _ => walkAssignStmt stack n a
  | NCallExpr _ _ _ _ => walkCallExpr cfg stack n a
  | _ => (true, a)
  end.

(** [inspector.WithStack]: depth first, the node pushed on the stack before
    the callback sees it, its children skipped when the callback says so. *)
Fixpoint walk (cfg : Config) (stack : list Node) (n : Node) (a : Analysis) {struct n} : Analysis :=
  let stack' := stack ++ [n] in
  let '(proceed, a') := visit cfg stack' n a in
  if negb proceed then a' else
  let walkList :=
    fix walkList (l : list Node) (a : Analysis) {struct l} : Analysis :=
      match l with
      | [] => a
      | c :: rest => walkList rest (walk cfg stack' c a)
      end in
  match n with
  | NFile _ _ decls => walkList decls a'
  | NGenDecl _ _ _ specs => walkList specs a'
  | NFuncDecl _ body => walkList body a'
  | NFuncLit _ _ _ body => walkList body a'
  | NAssignStmt lhs rhs => walkList rhs (walkList lhs a')
  | NCallExpr fn _ args _ => walkList args (walk cfg stack' fn a')
  | NSelectorExpr x _ => walk cfg stack' x a'
  | NIdent _ => a'
  | NOther _ _ _ children => walkList children a'
  end.

(** [buildCallGraph] *)
Definition buildCallGraph (cfg : Config) : Analysis :=
  fold_left (fun a f => walk cfg [] f a) (Files cfg) emptyAnalysis.

(** * Definitions used by the statements *)

(** ** Sample types used by the examples *)

Definition contextContext : GoType :=
  TNamed (Some {| tnPkg := Some "context"; tnName := "Context" |}) [].

(** [*http.Request], whose method [Context() context.Context] is declared on
    the named type. *)
Definition httpRequest : GoType :=
  TPointer (TNamed (Some {| tnPkg := Some "net/http"; tnName := "Request" |})
                   [mkMethod "Context" [] [contextContext]]).

(** [type Store struct{...}] with [func (Store) Context(key string) context.Context]. *)
Definition keyedStore : GoType :=
  TNamed (Some {| tnPkg := Some "example.com/store"; tnName := "Store" |})
         [mkMethod "Context" [TBasic "string"] [contextContext]].

(** ** Qualification of a type as a context provider *)

(** What the resolver tests at every parameter and variable. *)
Definition qualifies (t : GoType) : bool := isContextContext t || typeHasContextMethod t.

(** The expression the resolver emits for a qualifying [name] of type [t]. *)
Definition providerExpr (name : string) (t : GoType) : string :=
  if isContextContext t then name else name +:+ ".Context()".

(** The qualification rule in the words of the specification: the type is the
    context abstraction, or it exposes a zero-argument method named [Context]
    that returns the context abstraction. *)
Definition isZeroArgContextAccessor (meth : Method) : bool :=
  String.eqb (methName meth) "Context"
  && match methParams meth with [] => true | _ => false end
  && match methResults meth with [res] => isContextContext res | _ => false end.

Fixpoint exposesContextAccessor (typ : GoType) : bool :=
  match typ with
  | TPointer elem => exposesContextAccessor elem
  | TNamed _ methods => existsb isZeroArgContextAccessor methods
  | _ => false
  end.

Definition qualifiesBySpec (t : GoType) : bool := isContextContext t || exposesContextAccessor t.

(** No method named [Context] of the type takes an argument. *)
Fixpoint contextMethodsTakeNoArgs (typ : GoType) : bool :=
  match typ with
  | TPointer elem => contextMethodsTakeNoArgs elem
  | TNamed _ methods =>
      forallb (fun m => negb (String.eqb (methName m) "Context")
                        || match methParams m with [] => true | _ => false end) methods
  | _ => true
  end.

(** ** The report filter *)

(** The filter in the words of the specification: some suggested edit touches
    (at its start or its end) a file under the read-only prefix. *)
Definition touchesModuleCache (cfg : Config) (diag : Diagnostic) : bool :=
  existsb (fun sf =>
    existsb (fun te =>
      existsb (fun pos =>
        IsValid pos && HasPrefix (Filename (Fset cfg) pos) (ModuleCache cfg))
        [tePos te; teEnd te])
      (sfTextEdits sf))
    (dSuggestedFixes diag).

(** A file set with one file of the work tree and one of the module cache. *)
Definition twoTrees : Config :=
  {| ModuleCache := "/go/pkg/mod";
     Fset := [ {| fsBase := 1; fsSize := 999; fsName := "/src/app/main.go" |};
               {| fsBase := 1001; fsSize := 999; fsName := "/go/pkg/mod/dep@v1/dep.go" |} ];
     Files := []; PkgPath := "app"; ImportedFacts := ∅ |}.

Definition insertAt (p : Pos) (text : string) : TextEdit :=
  {| tePos := p; teEnd := p; teNewText := text |}.

(** Reported in the work tree, editing the module cache. *)
Definition diagEditingCache : Diagnostic :=
  {| dPos := 100; dEnd := 114; dCategory := "context"; dMessage := "Plumb context";
     dSuggestedFixes := [ {| sfMessage := "Plumb context.Context";
                             sfTextEdits := [insertAt 1500 "ctx, "] |} ] |}.

(** Reported in the module cache, editing only the work tree. *)
Definition diagEditingTree : Diagnostic :=
  {| dPos := 1500; dEnd := 1514; dCategory := "context"; dMessage := "Plumb context";
     dSuggestedFixes := [ {| sfMessage := "Plumb context.Context";
                             sfTextEdits := [insertAt 100 "ctx, "] |} ] |}.

(** ** The search order of the resolver *)

(** A candidate provider: the expression to emit and, for a variable found in
    a scope, its declaration position ([None] for a formal parameter). *)
Record Candidate := { cExpr : string; cDecl : option Pos }.

(** The name the resolver uses for the parameter of index [i]. *)
Definition paramName (i : nat) (name : string) : string :=
  if String.eqb name "" then "unnamedParam" +:+ decimal i else name.

(** The qualifying parameters of a signature, in declaration order. *)
Fixpoint paramCandidates_from (i : nat) (params : list Var) : list Candidate :=
  match params with
  | [] => []
  | p :: rest =>
      (if qualifies (vType p)
       then [ {| cExpr := providerExpr (paramName i (vName p)) (vType p); cDecl := None |} ]
       else [])
      ++ paramCandidates_from (S i) rest
  end.

Definition paramCandidates (params : list Var) : list Candidate := paramCandidates_from 0 params.

(** The qualifying fields of a closure's parameter list, in declaration
    order; a field without type information is passed over. *)
Definition fieldName (i : nat) (f : Field) : string :=
  match fieldNames f with
  | name :: _ => name
  | [] => "unnamedParam" +:+ decimal i
  end.

Fixpoint fieldCandidates_from (i : nat) (fields : list Field) : list Candidate :=
  match fields with
  | [] => []
  | f :: rest =>
      match fieldType f with
      | Some typ =>
          if qualifies typ
          then [ {| cExpr := providerExpr (fieldName i f) typ; cDecl := None |} ]
          else []
      | None => []
      end
      ++ fieldCandidates_from (S i) rest
  end.

Definition fieldCandidates (fields : list Field) : list Candidate := fieldCandidates_from 0 fields.

(** The qualifying variables of one scope declared strictly before [cutoff],
    in the order of the scope. *)
Definition scopeCandidates (scope : Scope) (cutoff : Pos) : list Candidate :=
  omap (fun v =>
          if (vPos v <? cutoff)%Z && qualifies (vType v)
          then Some {| cExpr := providerExpr (vName v) (vType v); cDecl := Some (vPos v) |}
          else None) scope.

(** All candidates for a query at [at_], in the order of the search: the path
    is read from the innermost node ([rpath] is the path reversed); every
    enclosing procedure or closure contributes its parameters and then the
    variables of its own scope; an enclosing assignment moves the cut-off to
    its own start; no other node contributes. *)
Fixpoint searchOrder (rpath : list Node) (at_ : Pos) : list Candidate :=
  match rpath with
  | [] => []
  | NAssignStmt lhs rhs :: prev => searchOrder prev (nodePos (NAssignStmt lhs rhs))
  | NFuncDecl d _ :: prev =>
      paramCandidates (fParams d) ++ scopeCandidates (fScope d) at_ ++ searchOrder prev at_
  | NFuncLit _ params scope _ :: prev =>
      fieldCandidates params ++ scopeCandidates scope at_ ++ searchOrder prev at_
  | _ :: prev => searchOrder prev at_
  end.

(** First match wins. *)
Definition firstOf (cands : list Candidate) : string * bool :=
  match cands with
  | c :: _ => (cExpr c, true)
  | [] => ("", false)
  end.

Definition isAssignStmt (n : Node) : bool :=
  match n with NAssignStmt _ _ => true | _ => false end.

Definition isFuncNode (n : Node) : bool :=
  match n with NFuncDecl _ _ | NFuncLit _ _ _ _ => true | _ => false end.

(** *** The search order in the words of the specification *)

(** The parameters of a procedure or closure, tried by the resolver. *)
Definition paramsOf (n : Node) : string * bool :=
  match n with
  | NFuncDecl d _ => fst (hasContextProviderParam (fParams d))
  | NFuncLit _ params _ _ => fst (hasContextProviderField params)
  | _ => ("", false)
  end.

(** The lexical scope a node owns, if any. *)
Definition ownScope (n : Node) : option Scope :=
  match n with
  | NFuncDecl d _ => Some (fScope d)
  | NFuncLit _ _ scope _ => Some scope
  | NOther _ _ scope _ => scope
  | _ => None
  end.

(** Step 1: the parameters of the innermost enclosing procedure or closure.
    Step 2: the variables of each enclosing lexical scope, innermost first,
    declared strictly before the query position.  Step 3: failure. *)
Definition resolveBySpec (caller : astPath) (at_ : Pos) : string * bool :=
  let rpath := rev caller in
  let step1 :=
    match find isFuncNode rpath with
    | Some n => paramsOf n
    | None => ("", false)
    end in
  if snd step1 then step1 else
  match find snd (map (fun scope => hasContextProviderInScope scope at_) (omap ownScope rpath)) with
  | Some found => found
  | None => ("", false)
  end.

(** *** A provider declared in a nested block

<<
    package app
    func handle(ready bool) {
        if ready {
            c := other.NewContext()
            other.Use(context.TODO())
        }
    }
>>
    The scope of [handle] holds [ready]; the block of the [if] holds [c]. *)

Definition mkIdent (p : Pos) (name : string) (obj : option Object) : Ident :=
  {| idPos := p; idName := name; idObj := obj |}.

Definition funcObject (id : positive) (pkg name : string) : Object :=
  {| oid := id; oIsFunc := true; oPkgPath := Some pkg; oName := name |}.

(** [context.TODO()] written at position [p] *)
Definition todoCall (p : Pos) : Node :=
  NCallExpr (NSelectorExpr (NIdent (mkIdent p "context" None))
                           (mkIdent (p + 8) "TODO" (Some (funcObject 900 "context" "TODO"))))
            (p + 12) [] (p + 13).

(** [pkg.name(args)] written at position [p], with [pkg] another package;
    [rparen] is the position of the closing parenthesis. *)
Definition qualifiedCall (p : Pos) (id : positive) (pkg name : string) (args : list Node)
    (rparen : Pos) : Node :=
  NCallExpr (NSelectorExpr (NIdent (mkIdent p pkg None))
                           (mkIdent (p + Z.of_nat (String.length pkg) + 1) name
                                    (Some (funcObject id pkg name))))
            (p + Z.of_nat (String.length pkg) + 1 + Z.of_nat (String.length name)) args rparen.

Definition handleDecl : FuncDecl :=
  {| fid := 1; fName := "handle"; fPkgName := "app"; fHasRecv := false;
     fParams := [ {| vName := "ready"; vType := TBasic "bool"; vPos := 26 |} ];
     fScope := [ {| vName := "ready"; vType := TBasic "bool"; vPos := 26 |} ];
     fPos := 14; fEnd := 123; fNamePos := 19; fOpening := 25; fLbrace := 37 |}.

Definition blockFile : Node :=
  NFile 1 []
    [ NFuncDecl handleDecl
        [ NOther 43 121 (Some [])
            [ NIdent (mkIdent 46 "ready" None);
              NOther 52 121 (Some [ {| vName := "c"; vType := contextContext; vPos := 62 |} ])
                [ NAssignStmt [NIdent (mkIdent 62 "c" None)]
                              [qualifiedCall 67 901 "other" "NewContext" [] 84];
                  NOther 94 119 None
                    [ qualifiedCall 94 902 "other" "Use" [todoCall 104] 118 ] ] ] ] ].

Definition blockUnit : Config :=
  {| ModuleCache := "/go/pkg/mod";
     Fset := [ {| fsBase := 1; fsSize := 200; fsName := "/src/app/handle.go" |} ];
     Files := [blockFile]; PkgPath := "app"; ImportedFacts := ∅ |}.

(** The path of the request of [blockUnit], as the walk records it. *)
Definition blockPath : astPath :=
  match todos (buildCallGraph blockUnit) with
  | t :: _ => path t
  | [] => []
  end.

(** ** Vocabulary for the statements about the pass *)

(** All edits of all suggested fixes of a list of diagnostics. *)
Definition allEdits (diags : list Diagnostic) : list TextEdit :=
  concat (map (fun d => concat (map sfTextEdits (dSuggestedFixes d))) diags).

(** An insertion replaces the empty range. *)
Definition isInsertion (e : TextEdit) : Prop := tePos e = teEnd e.

(** The call sites of the call graph, the procedures that enclose a recorded
    call, and their identities. *)
Definition callSites (an : Analysis) : list localCall :=
  concat (map snd (map_to_list (callers an))) ++ transitives an.

Definition declsOf (an : Analysis) : list FuncDecl :=
  omap (fun c => decl (path c)) (todos an ++ callSites an).

Definition declIds (an : Analysis) : gset positive :=
  list_to_set (map fid (declsOf an)).

(** Fuel that suffices for every walk of the pass. *)
Definition passFuel (an : Analysis) : nat := S (size (declIds an)).

(** The whole pass after [filterReports]: [buildCallGraph], then
    [buildDiagnostics]. *)
Definition runPass (cfg : Config) : option State :=
  let an := buildCallGraph cfg in
  match buildDiagnostics cfg an (passFuel an) initState with
  | Some (_, st) => Some st
  | None => None
  end.

(** [run]: an error when the module cache is unknown, else the pass. *)
Definition run (cfg : Config) : string + option State :=
  if String.eqb (ModuleCache cfg) ""
  then inl "failed to determine GOMODCACHE, specify --modcache flag"
  else inr (runPass cfg).

(** A diagnostic without suggested fix. *)
Definition noFix (d : Diagnostic) : Prop := dSuggestedFixes d = [].

(** An insertion whose text is not that of an injected parameter. *)
Definition isAuxInsertion (e : TextEdit) : Prop :=
  isInsertion e /\ teNewText e <> "ctx context.Context, ".

(** The frame of a walk: the guards only grow, and what reaches the driver
    in between carries no edit. *)
Record Grows (st st' : State) : Prop := {
  grows_seen : seen st ⊆ seen st';
  grows_paramAdded : paramAdded st ⊆ paramAdded st';
  grows_contextImported : contextImported st ⊆ contextImported st';
  grows_facts : facts st ⊆ facts st';
  grows_edits : allEdits (reports st') = allEdits (reports st)
}.

(** The procedures of the unit not yet seen by the walk in progress. *)
Definition unseen (an : Analysis) (st : State) : nat := size (declIds an ∖ seen st).

(** ** Counting injected parameters *)

#[global] Instance TextEdit_eq_dec : EqDecision TextEdit.
Proof. solve_decision. Defined.

(** How often the edit that injects a context parameter into [d] occurs. *)
Definition injections (d : FuncDecl) (es : list TextEdit) : nat :=
  count_occ TextEdit_eq_dec es (editToPrependCtxParam d).

(** Positions of a parsed unit: two procedures do not share the opening
    parenthesis of their parameter lists, the opening parenthesis of a call is
    not that of a parameter list, and a request is not an empty expression. *)
Definition wfPositions (an : Analysis) : bool :=
  forallb (fun d1 =>
    forallb (fun d2 =>
      negb (fOpening d1 =? fOpening d2)%Z || bool_decide (fid d1 = fid d2))
      (declsOf an)) (declsOf an)
  && forallb (fun c =>
       forallb (fun d => negb (callLparen (call c) =? fOpening d)%Z) (declsOf an))
       (callSites an)
  && forallb (fun t => negb (nodePos (call t) =? callEnd (call t))%Z) (todos an).

(** The injection edit of [d] occurs at most once in [es], not at all when
    [d] was augmented before, and only if [d] is augmented afterwards. *)
Definition Once (d : FuncDecl) (st : State) (es : list TextEdit) (st' : State) : Prop :=
  (fid d ∈ paramAdded st -> injections d es = 0%nat) /\
  (injections d es <= 1)%nat /\
  (injections d es <> 0%nat -> fid d ∈ paramAdded st').

(** What holds between two requests of the pass: every procedure has at
    most one injection edit among the reported edits, and has one only if it
    is marked as augmented. *)
Definition PassInv (an : Analysis) (st : State) : Prop :=
  forall d, In d (declsOf an) ->
    (injections d (allEdits (reports st)) <= 1)%nat /\
    (injections d (allEdits (reports st)) <> 0%nat -> fid d ∈ paramAdded st).
(** *** Two procedures that call each other (testdata basic1.go)

<<
    package basic
    import ( "context"; "log" )
    func cycle1() {
        log.Println(context.TODO())
        cycle2()
    }
    func cycle2() {
        cycle1()
    }
>> *)

Definition plainFunc (id : positive) (pkg name : string) (pos : Pos) : FuncDecl :=
  {| fid := id; fName := name; fPkgName := pkg; fHasRecv := false;
     fParams := []; fScope := [];
     fPos := pos; fEnd := pos + 90; fNamePos := pos + 5;
     fOpening := pos + 5 + Z.of_nat (String.length name);
     fLbrace := pos + 8 + Z.of_nat (String.length name) |}.

(** [name()] written at position [p], with [name] declared in package [pkg]. *)
Definition plainCall (p : Pos) (id : positive) (pkg name : string) : Node :=
  NCallExpr (NIdent (mkIdent p name (Some (funcObject id pkg name))))
            (p + Z.of_nat (String.length name)) []
            (p + Z.of_nat (String.length name) + 1).

Definition cycle1 : FuncDecl := plainFunc 1 "basic" "cycle1" 100.
Definition cycle2 : FuncDecl := plainFunc 2 "basic" "cycle2" 200.

Definition cycleFile : Node :=
  NFile 1 [dquote +:+ "context" +:+ dquote; dquote +:+ "log" +:+ dquote]
    [ NGenDecl 20 "import" 27 [];
      NFuncDecl cycle1
        [ NOther 120 146 None [ qualifiedCall 120 903 "log" "Println" [todoCall 132] 145 ];
          NOther 150 158 None [ plainCall 150 2 "basic" "cycle2" ] ];
      NFuncDecl cycle2
        [ NOther 220 228 None [ plainCall 220 1 "basic" "cycle1" ] ] ].

Definition cycleUnit : Config :=
  {| ModuleCache := "/go/pkg/mod";
     Fset := [ {| fsBase := 1; fsSize := 999; fsName := "/src/basic/basic1.go" |} ];
     Files := [cycleFile]; PkgPath := "basic"; ImportedFacts := ∅ |}.

(** ** Statements about a single request *)

(** The first qualifying parameter of a procedure or closure is unnamed:
    [expr] is what the resolver emits for it and [diag] what it reports. *)
Inductive UnnamedProvider : Node -> string -> Diagnostic -> Prop :=
| UnnamedParam d body (i : nat) p :
    fParams d !! i = Some p ->
    vName p = "" ->
    qualifies (vType p) = true ->
    (forall (j : nat) q, (j < i)%nat -> fParams d !! j = Some q -> qualifies (vType q) = false) ->
    UnnamedProvider (NFuncDecl d body)
      (providerExpr ("unnamedParam" +:+ decimal i) (vType p))
      (DiagAt (vPos p) msgNameParam)
| UnnamedField pos params scope body (i : nat) f typ :
    params !! i = Some f ->
    fieldNames f = [] ->
    fieldType f = Some typ ->
    qualifies typ = true ->
    (forall (j : nat) g t, (j < i)%nat -> params !! j = Some g -> fieldType g = Some t ->
       qualifies t = false) ->
    UnnamedProvider (NFuncLit pos params scope body)
      (providerExpr ("unnamedParam" +:+ decimal i) typ)
      (DiagRange (fieldPos f) (fieldEnd f) msgNameParam).

(** The requests the walk records in a unit, by index. *)
Definition noCall : localCall := {| path := []; call := NOther 0 0 None []; assign := None |}.

Definition request (cfg : Config) (i : nat) : localCall :=
  nth i (todos (buildCallGraph cfg)) noCall.

(** The diagnostics of the whole pass over a unit. *)
Definition passReports (cfg : Config) : option (list Diagnostic) :=
  option_map reports (runPass cfg).

(** A unit of one file [/src/app/app.go] in package [app]. *)
Definition appUnit (file : Node) : Config :=
  {| ModuleCache := "/go/pkg/mod";
     Fset := [ {| fsBase := 1; fsSize := 999; fsName := "/src/app/app.go" |} ];
     Files := [file]; PkgPath := "app"; ImportedFacts := ∅ |}.

Definition contextImport : list string := [dquote +:+ "context" +:+ dquote].

(** *** An unnamed parameter (testdata preexisting.go, [f])

<<
    func f( *http.Request) {
        other.Use(context.TODO())
    }
>> *)
Definition unnamedDecl : FuncDecl :=
  {| fid := 1; fName := "f"; fPkgName := "app"; fHasRecv := false;
     fParams := [ {| vName := ""; vType := httpRequest; vPos := 107 |} ];
     fScope := [];
     fPos := 100; fEnd := 160; fNamePos := 105; fOpening := 106; fLbrace := 122 |}.

Definition unnamedUnit : Config :=
  appUnit (NFile 1 contextImport
    [ NFuncDecl unnamedDecl
        [ NOther 128 152 None [ qualifiedCall 128 902 "other" "Use" [todoCall 138] 151 ] ] ]).

(** *** Requests next to a provider (testdata preexisting.go, [i] and [j])

<<
    func i(r *http.Request) {
        foo := context.TODO()
        _ = foo
    }
    func j(r *http.Request) {
        ctx := context.TODO()
        _ = ctx
    }
>> *)
Definition requestParam (p : Pos) : Var := {| vName := "r"; vType := httpRequest; vPos := p |}.

Definition declI : FuncDecl :=
  {| fid := 1; fName := "i"; fPkgName := "app"; fHasRecv := false;
     fParams := [requestParam 107];
     fScope := [ {| vName := "foo"; vType := contextContext; vPos := 130 |}; requestParam 107 ];
     fPos := 100; fEnd := 170; fNamePos := 105; fOpening := 106; fLbrace := 124 |}.

Definition declJ : FuncDecl :=
  {| fid := 2; fName := "j"; fPkgName := "app"; fHasRecv := false;
     fParams := [requestParam 207];
     fScope := [ {| vName := "ctx"; vType := contextContext; vPos := 230 |}; requestParam 207 ];
     fPos := 200; fEnd := 270; fNamePos := 205; fOpening := 206; fLbrace := 224 |}.

Definition providerUnit : Config :=
  appUnit (NFile 1 contextImport
    [ NFuncDecl declI
        [ NAssignStmt [NIdent (mkIdent 130 "foo" None)] [todoCall 137];
          NAssignStmt [NIdent (mkIdent 155 "_" None)] [NIdent (mkIdent 159 "foo" None)] ];
      NFuncDecl declJ
        [ NAssignStmt [NIdent (mkIdent 230 "ctx" None)] [todoCall 237];
          NAssignStmt [NIdent (mkIdent 255 "_" None)] [NIdent (mkIdent 259 "ctx" None)] ] ]).

(** *** A binding removed next to a local provider

<<
    func load(id string) {
        base := other.NewContext()
        ctx := context.TODO()
        other.Use(ctx, id)
    }
>> *)
Definition loadDecl : FuncDecl :=
  {| fid := 1; fName := "load"; fPkgName := "app"; fHasRecv := false;
     fParams := [ {| vName := "id"; vType := TBasic "string"; vPos := 110 |} ];
     fScope := [ {| vName := "base"; vType := contextContext; vPos := 126 |};
                 {| vName := "ctx"; vType := contextContext; vPos := 160 |};
                 {| vName := "id"; vType := TBasic "string"; vPos := 110 |} ];
     fPos := 100; fEnd := 215; fNamePos := 105; fOpening := 109; fLbrace := 120 |}.

Definition loadUnit : Config :=
  appUnit (NFile 1 contextImport
    [ NFuncDecl loadDecl
        [ NAssignStmt [NIdent (mkIdent 126 "base" None)]
                      [qualifiedCall 134 901 "other" "NewContext" [] 151];
          NAssignStmt [NIdent (mkIdent 160 "ctx" None)] [todoCall 167];
          NOther 190 208 None
            [ qualifiedCall 190 902 "other" "Use"
                [NIdent (mkIdent 200 "ctx" None); NIdent (mkIdent 205 "id" None)] 207 ] ] ]).

(** *** A parameter named [ctx] that is not a context

<<
    func store(ctx int) {
        other.Use(context.TODO())
    }
>> *)
Definition storeDecl : FuncDecl :=
  {| fid := 1; fName := "store"; fPkgName := "app"; fHasRecv := false;
     fParams := [ {| vName := "ctx"; vType := TBasic "int"; vPos := 111 |} ];
     fScope := [ {| vName := "ctx"; vType := TBasic "int"; vPos := 111 |} ];
     fPos := 100; fEnd := 160; fNamePos := 105; fOpening := 110; fLbrace := 119 |}.

Definition storeUnit : Config :=
  appUnit (NFile 1 contextImport
    [ NFuncDecl storeDecl
        [ NOther 125 149 None [ qualifiedCall 125 902 "other" "Use" [todoCall 135] 148 ] ] ]).
(** The nodes of [unnamedUnit], by name. *)
Definition unnamedUse : Node := qualifiedCall 128 902 "other" "Use" [todoCall 138] 151.
Definition unnamedStmt : Node := NOther 128 152 None [unnamedUse].
Definition unnamedFunc : Node := NFuncDecl unnamedDecl [unnamedStmt].
Definition unnamedFile : Node := NFile 1 contextImport [unnamedFunc].

(** ** Entry points in the words of the specification *)

(** The procedure is [main] in package [main], or an [init] without
    receiver, or its file name ends in [_test.go] and its name is [Test],
    [Benchmark] or [Fuzz] followed by an upper-case letter. *)
Definition EntryPoint (cfg : Config) (d : FuncDecl) : Prop :=
  (fPkgName d = "main" /\ fName d = "main") \/
  (fName d = "init" /\ fHasRecv d = false) \/
  ((exists stem, Filename (Fset cfg) (fPos d) = stem +:+ "_test.go") /\
   exists pre c rest, In pre ["Test"; "Benchmark"; "Fuzz"] /\
                      fName d = pre +:+ String c rest /\ isUpperAZ c = true).

(** The test the pass applies to find a parameter named [ctx]. *)
Definition ctxParam (d : FuncDecl) : option Var :=
  find (fun param => String.eqb (vName param) "ctx") (fParams d).

(** *** An entry point with a parameter named [ctx]; two requests in [main]

<<
    package main
    type app struct{}
    func (a app) main(ctx string) {
        other.Use(context.TODO())
    }
    func main() {
        other.Use(context.TODO())
        other.Use(context.TODO())
    }
>> *)
Definition appType : GoType :=
  TNamed (Some {| tnPkg := Some "main"; tnName := "app" |}) [mkMethod "main" [TBasic "string"] []].

Definition methodMain : FuncDecl :=
  {| fid := 1; fName := "main"; fPkgName := "main"; fHasRecv := true;
     fParams := [ {| vName := "ctx"; vType := TBasic "string"; vPos := 118 |} ];
     fScope := [ {| vName := "a"; vType := appType; vPos := 106 |};
                 {| vName := "ctx"; vType := TBasic "string"; vPos := 118 |} ];
     fPos := 100; fEnd := 170; fNamePos := 113; fOpening := 117; fLbrace := 130 |}.

Definition funcMain : FuncDecl := plainFunc 2 "main" "main" 200.

Definition mainUnit : Config :=
  {| ModuleCache := "/go/pkg/mod";
     Fset := [ {| fsBase := 1; fsSize := 999; fsName := "/src/app/main.go" |} ];
     Files := [ NFile 1 contextImport
                  [ NGenDecl 60 "type" NoPos [];
                    NFuncDecl methodMain
                      [ NOther 136 160 None
                          [ qualifiedCall 136 902 "other" "Use" [todoCall 146] 159 ] ];
                    NFuncDecl funcMain
                      [ NOther 220 244 None
                          [ qualifiedCall 220 902 "other" "Use" [todoCall 230] 243 ];
                        NOther 250 274 None
                          [ qualifiedCall 250 902 "other" "Use" [todoCall 260] 273 ] ] ] ];
     PkgPath := "main"; ImportedFacts := ∅ |}.
(** The text of an edit is not that of an injected parameter. *)
Definition notParamText (e : TextEdit) : Prop := teNewText e <> "ctx context.Context, ".

(** ** The tree below a node *)

(** The nodes directly below a node, in the order the inspector visits them. *)
Definition children (n : Node) : list Node :=
  match n with
  | NFile _ _ decls => decls
  | NGenDecl _ _ _ specs => specs
  | NFuncDecl _ body => body
  | NFuncLit _ _ _ body => body
  | NAssignStmt lhs rhs => lhs ++ rhs
  | NCallExpr fn _ args _ => fn :: args
  | NSelectorExpr x _ => [x]
  | NIdent _ => []
  | NOther _ _ _ cs => cs
  end.

(** The walk over a list of siblings. *)
Definition walkList (cfg : Config) (stack : list Node) (l : list Node) (a : Analysis) : Analysis :=
  fold_left (fun a c => walk cfg stack c a) l a.

(** [node.End()]; for a node whose end is a closing token that is not
    modelled (file, declaration group, function literal) the end of the
    last node below it, which that token follows. *)
Fixpoint nodeEnd (n : Node) : Pos :=
  let lastEnd :=
    fix lastEnd (l : list Node) (e : Pos) {struct l} : Pos :=
      match l with
      | [] => e
      | c :: rest => lastEnd rest (nodeEnd c)
      end in
  match n with
  | NFile p _ decls => lastEnd decls p
  | NGenDecl p _ _ specs => lastEnd specs p
  | NFuncDecl d _ => fEnd d
  | NFuncLit p _ _ body => lastEnd body p
  | NAssignStmt lhs rhs => lastEnd rhs (lastEnd lhs NoPos)
  | NCallExpr _ _ _ rparen => rparen + 1
  | NSelectorExpr _ sel => idPos sel + Z.of_nat (String.length (idName sel))
  | NIdent id => idPos id + Z.of_nat (String.length (idName id))
  | NOther _ e _ _ => e
  end.

(** Siblings follow each other between [lo] and [hi], and each satisfies [ok]. *)
Fixpoint inOrder (ok : Node -> bool) (lo hi : Pos) (l : list Node) : bool :=
  match l with
  | [] => (lo <=? hi)%Z
  | c :: rest => (lo <=? nodePos c)%Z && ok c && inOrder ok (nodeEnd c) hi rest
  end.

(** The positions of a parsed tree: below every node, its children follow
    each other between its start and its end. *)
Fixpoint wfNode (n : Node) : bool :=
  let ordered :=
    fix ordered (lo : Pos) (l : list Node) (andThen : Pos -> bool) {struct l} : bool :=
      match l with
      | [] => andThen lo
      | c :: rest => (lo <=? nodePos c)%Z && wfNode c && ordered (nodeEnd c) rest andThen
      end in
  let closing := fun lo => (lo <=? nodeEnd n)%Z in
  match n with
  | NFile _ _ decls => ordered (nodePos n) decls closing
  | NGenDecl _ _ _ specs => ordered (nodePos n) specs closing
  | NFuncDecl _ body => ordered (nodePos n) body closing
  | NFuncLit _ _ _ body => ordered (nodePos n) body closing
  | NAssignStmt lhs rhs => ordered (nodePos n) lhs (fun lo => ordered lo rhs closing)
  | NCallExpr fn _ args _ =>
      (nodePos n <=? nodePos fn)%Z && wfNode fn && ordered (nodeEnd fn) args closing
  | NSelectorExpr x _ => (nodePos n <=? nodePos x)%Z && wfNode x && closing (nodeEnd x)
  | NIdent _ => closing (nodePos n)
  | NOther _ _ _ cs => ordered (nodePos n) cs closing
  end.

(** No two of the trees share a position. *)
Fixpoint apart (l : list Node) : bool :=
  match l with
  | [] => true
  | f :: rest =>
      forallb (fun g => (nodeEnd f <=? nodePos g)%Z || (nodeEnd g <=? nodePos f)%Z) rest
      && apart rest
  end.

(** The files of a parsed unit: each a tree with the positions of a parsed
    tree, no two sharing a position of the file set. *)
Definition wfFiles (cfg : Config) : bool :=
  forallb wfNode (Files cfg) && apart (Files cfg).

(** The source range a request's own edit replaces. *)
Definition todoRange (t : localCall) : Pos * Pos :=
  match assign t with
  | Some a => (nodePos a, assignRparen a + 1)
  | None => (nodePos (call t), callEnd (call t))
  end.

(** Ranges that follow each other between [lo] and [hi]. *)
Fixpoint chain (lo hi : Pos) (rs : list (Pos * Pos)) : Prop :=
  match rs with
  | [] => lo <= hi
  | (a, b) :: rest => lo <= a /\ a <= b /\ chain b hi rest
  end.

(** Two edits intersect when some position lies in both half-open ranges. *)
Definition intersect (e1 e2 : TextEdit) : Prop :=
  exists x, (tePos e1 <= x < teEnd e1) /\ (tePos e2 <= x < teEnd e2).

(** Two ranges that share no position. *)
Definition disjoint (r1 r2 : Pos * Pos) : Prop := snd r1 <= fst r2 \/ snd r2 <= fst r1.

(** A range between [lo] and [hi]. *)
Definition within (lo hi : Pos) (r : Pos * Pos) : Prop :=
  lo <= fst r /\ fst r <= snd r /\ snd r <= hi.

(** The ranges of the edits that are not insertions. *)
Definition rangesOf (es : list TextEdit) : list (Pos * Pos) :=
  omap (fun e => if decide (tePos e = teEnd e) then None else Some (tePos e, teEnd e)) es.

(** A binding the walk may delete: a single identifier [ctx] or [_] on the
    left, a single expression on the right. *)
Definition removableAssign (a : Node) : Prop :=
  exists id rhs, a = NAssignStmt [NIdent id] [rhs] /\ (idName id = "ctx" \/ idName id = "_").
(** What the callback of the walk records for a request found at node [n]
    with the stack [stack]: the call itself, or the assignment of [ctx] or
    [_] around it. *)
Inductive Recorded (stack : list Node) (n : Node) (t : localCall) : Prop :=
| RecordedCall fn lparen args rparen :
    n = NCallExpr fn lparen args rparen ->
    path t = stack -> call t = n -> assign t = None ->
    Recorded stack n t
| RecordedAssign id x sel lparen args rparen :
    n = NAssignStmt [NIdent id] [NCallExpr (NSelectorExpr x sel) lparen args rparen] ->
    idName id = "ctx" \/ idName id = "_" ->
    path t = stack -> call t = NCallExpr (NSelectorExpr x sel) lparen args rparen ->
    assign t = Some n ->
    Recorded stack n t.

(** No two edits of a list intersect. *)
Definition nonOverlapping (es : list TextEdit) : Prop :=
  ForallOrdPairs (fun e1 e2 => ~ intersect e1 e2) es.

(** ** Vocabulary for further properties of the resolver and the filter *)

(** [n] pointers around the type [t]. *)
Definition pointerTo (n : nat) (t : GoType) : GoType := Nat.iter n TPointer t.

(** The diagnostic of the resolver about an unnamed parameter. *)
Definition isNamingDiagnostic (d : Diagnostic) : Prop :=
  dMessage d = msgNameParam /\ dSuggestedFixes d = [].

(** Some suggested edit of the diagnostic has a valid start or end. *)
Definition hasValidEdit (d : Diagnostic) : bool :=
  existsb (fun sf =>
    existsb (fun te => IsValid (tePos te) || IsValid (teEnd te)) (sfTextEdits sf))
    (dSuggestedFixes d).

(** The opening parenthesis of a parenthesised import declaration. *)
Definition importLparen (d : Node) : option Pos :=
  match d with
  | NGenDecl _ tok lparen _ =>
      if String.eqb tok "import" && IsValid lparen then Some lparen else None
  | _ => None
  end.

(** What a resolver call reports: nothing when it fails, at most one
    diagnostic, only the naming diagnostic, and then the expression it
    returns is the synthetic name of an unnamed parameter. *)
Definition quietResolver (r : Res) : Prop :=
  (snd (fst r) = false -> fst (fst r) = "" /\ snd r = []) /\
  (length (snd r) <= 1)%nat /\
  Forall isNamingDiagnostic (snd r) /\
  (snd r <> [] -> HasPrefix (fst (fst r)) "unnamedParam" = true).

(** The unit [twoTrees] when [go env GOMODCACHE] gave nothing. *)
Definition noModuleCache : Config :=
  {| ModuleCache := ""; Fset := Fset twoTrees; Files := []; PkgPath := "app";
     ImportedFacts := ∅ |}.

(** ** Vocabulary for the edits and the reports of a walk *)

(** The two texts of the import edit. *)
Definition importSpecText : string := dquote +:+ "context" +:+ dquote +:+ ";".
Definition importStmtText : string := "import " +:+ dquote +:+ "context" +:+ dquote +:+ ";".

Definition isImportEdit (e : TextEdit) : Prop :=
  isInsertion e /\ (teNewText e = importSpecText \/ teNewText e = importStmtText).

(** The procedure is one [propagateContextThrough] adds a parameter to: it
    has no parameter named [ctx], is no entry point and has no parameter
    that provides a context. *)
Definition needsParam (cfg : Config) (d : FuncDecl) : Prop :=
  ctxParam d = None /\
  isMainOrInit d || isTopLevelTestFunc cfg d = false /\
  snd (fst (hasContextProviderParam (fParams d))) = false.

(** The expression passed at a call site: the provider visible there, or
    [ctx] when there is none. *)
Definition argumentFor (c : localCall) (expr : string) : Prop :=
  fst (hasContextProviderInPath (path c) (nodePos (call c))) = (expr, true) \/
  (snd (fst (hasContextProviderInPath (path c) (nodePos (call c)))) = false /\ expr = "ctx").

(** The procedures a walk that starts at [start] may edit: the one it
    starts at, and those that enclose a call recorded in the call graph. *)
Definition Touched (an : Analysis) (start : option FuncDecl) (d : FuncDecl) : Prop :=
  start = Some d \/
  exists k l c, callers an !! k = Some l /\ In c l /\ decl (path c) = Some d.

(** The edits of a walk of [propagateContextThrough] that starts at [start]. *)
Inductive WalkEdit (cfg : Config) (an : Analysis) (start : option FuncDecl) : TextEdit -> Prop :=
| InjectParam d :
    Touched an start d -> needsParam cfg d ->
    WalkEdit cfg an start (editToPrependCtxParam d)
| DeclareRoot d :
    Touched an start d ->
    ctxParam d = None -> isMainOrInit d || isTopLevelTestFunc cfg d = true ->
    WalkEdit cfg an start (editToAddContextVarDecl d "context.Background()")
| DeclareFromParam d expr :
    Touched an start d ->
    ctxParam d = None -> isMainOrInit d || isTopLevelTestFunc cfg d = false ->
    fst (hasContextProviderParam (fParams d)) = (expr, true) ->
    WalkEdit cfg an start (editToAddContextVarDecl d expr)
| ImportContext e :
    isImportEdit e -> WalkEdit cfg an start e
| PassArgument k l c expr :
    callers an !! k = Some l -> In c l -> argumentFor c expr ->
    WalkEdit cfg an start (editToPrependExpr (call c) expr).

(** The diagnostics of a walk: about an unnamed parameter, or about a
    parameter named [ctx] that is no context; neither carries a fix. *)
Definition isWalkDiagnostic (d : Diagnostic) : Prop :=
  dSuggestedFixes d = [] /\ (dMessage d = msgNameParam \/ dMessage d = msgNonContext).

(** What a walk leaves behind: the diagnostics it adds, the kind of its
    edits, and the procedures behind the facts it exports. *)
Record Frame (cfg : Config) (an : Analysis) (start : option FuncDecl)
    (st : State) (es : list TextEdit) (st' : State) : Prop := {
  frame_reports : exists ds, reports st' = reports st ++ ds /\ Forall isWalkDiagnostic ds;
  frame_edits : Forall (WalkEdit cfg an start) es;
  frame_facts : forall i, i ∈ facts st' ->
    i ∈ facts st \/
    exists d, fid d = i /\ Exported d = true /\ needsParam cfg d /\
              In (editToPrependCtxParam d) es
}.

(** ** Vocabulary for the reports of the pass *)

(** The diagnostic carries a suggested fix. *)
Definition hasFix (d : Diagnostic) : bool :=
  match dSuggestedFixes d with [] => false | _ => true end.

(** Where a diagnostic is shown, and as what. *)
Definition headline (d : Diagnostic) : Pos * Pos * string * string :=
  (dPos d, dEnd d, dCategory d, dMessage d).

Definition requestHeadline (msg : string) (t : localCall) : Pos * Pos * string * string :=
  (nodePos (call t), callEnd (call t), "context", msg).

(** One headline for each request of the call graph: the direct requests in
    the order the walk found them, then the calls to functions of other
    packages that carry the fact. *)
Definition requestHeadlines (an : Analysis) : list (Pos * Pos * string * string) :=
  map (requestHeadline "Plumb context") (todos an)
  ++ map (requestHeadline "Continue plumbing context") (transitives an).

(** The module cache is set and holds no file of the file set. *)
Definition outsideModuleCache (cfg : Config) : bool :=
  negb (String.eqb (ModuleCache cfg) "")
  && forallb (fun f => negb (HasPrefix (fsName f) (ModuleCache cfg))) (Fset cfg).

Definition isFuncDecl (n : Node) : bool :=
  match n with NFuncDecl _ _ => true | _ => false end.

(** *** An exported function with a request (testdata multi, package producer)

<<
    package producer
    import ( "context"; "fmt"; "net" )
    func Dial(addr string) ( *Client, error) {
        conn, err := (&net.Dialer{}).DialContext(context.TODO(), "tcp", addr)
        ...
    }
>> *)
Definition dialDecl : FuncDecl :=
  {| fid := 910; fName := "Dial"; fPkgName := "producer"; fHasRecv := false;
     fParams := [ {| vName := "addr"; vType := TBasic "string"; vPos := 110 |} ];
     fScope := [ {| vName := "addr"; vType := TBasic "string"; vPos := 110 |};
                 {| vName := "conn"; vType := TOtherType; vPos := 145 |};
                 {| vName := "err"; vType := TOtherType; vPos := 151 |} ];
     fPos := 100; fEnd := 300; fNamePos := 105; fOpening := 109; fLbrace := 139 |}.

Definition producerUnit : Config :=
  {| ModuleCache := "/go/pkg/mod";
     Fset := [ {| fsBase := 1; fsSize := 999; fsName := "/src/multi/producer/producer.go" |} ];
     Files := [ NFile 1 [dquote +:+ "context" +:+ dquote; dquote +:+ "fmt" +:+ dquote;
                         dquote +:+ "net" +:+ dquote]
                  [ NGenDecl 20 "import" 27 [];
                    NFuncDecl dialDecl
                      [ NAssignStmt [NIdent (mkIdent 145 "conn" None);
                                     NIdent (mkIdent 151 "err" None)]
                          [ NCallExpr
                              (NSelectorExpr (NOther 158 174 None [])
                                 (mkIdent 175 "DialContext"
                                    (Some (funcObject 920 "net" "DialContext"))))
                              186
                              [todoCall 187; NOther 203 208 None [];
                               NIdent (mkIdent 210 "addr" None)]
                              214 ] ] ] ];
     PkgPath := "producer"; ImportedFacts := ∅ |}.

(** *** A call to a function that carries the fact (testdata multi, package main)

<<
    package main
    import ( "log"; "multi/producer" )
    func main() {
        client, err := producer.Dial("localhost")
        ...
    }
>> *)
Definition consumerMain : FuncDecl := plainFunc 1 "main" "main" 100.

(** [producer.Dial("localhost")] *)
Definition dialCall : Node :=
  NCallExpr (NSelectorExpr (NIdent (mkIdent 135 "producer" None))
                           (mkIdent 144 "Dial" (Some (funcObject 910 "multi/producer" "Dial"))))
            148 [NOther 149 160 None []] 160.

Definition consumerUnit : Config :=
  {| ModuleCache := "/go/pkg/mod";
     Fset := [ {| fsBase := 1; fsSize := 999; fsName := "/src/multi/consumer/consumer.go" |} ];
     Files := [ NFile 1 [dquote +:+ "log" +:+ dquote; dquote +:+ "multi/producer" +:+ dquote]
                  [ NGenDecl 20 "import" 27 [];
                    NFuncDecl consumerMain
                      [ NAssignStmt [NIdent (mkIdent 120 "client" None);
                                     NIdent (mkIdent 128 "err" None)]
                          [dialCall] ] ] ];
     PkgPath := "main"; ImportedFacts := {[ 910%positive ]} |}.

(** *** A request outside any function declaration

<<
    package app
    import "context"
    var handler = func() { other.Use(context.TODO()) }
>> *)
Definition varUnit : Config :=
  appUnit (NFile 1 contextImport
    [ NGenDecl 40 "var" NoPos
        [ NOther 44 90 None
            [ NIdent (mkIdent 44 "handler" None);
              NFuncLit 54 [] []
                [ NOther 63 87 None
                    [ qualifiedCall 63 902 "other" "Use" [todoCall 73] 86 ] ] ] ] ]).

(** What one request adds to the reports: the diagnostics of its walk, then
    its own diagnostic through the filter. *)
Definition Requested (cfg : Config) (msg : string) (t : localCall) (st st' : State) : Prop :=
  exists ds es, Forall isWalkDiagnostic ds /\
    reports st' = Report cfg (plumbDiagnostic (call t) msg es) (reports st ++ ds).

(** ** Vocabulary for the call graph *)

(** The identifier through which a call expression calls, as
    [walkCallExpr] reads it, and its object. *)
Definition callee (c : Node) : option Ident :=
  match c with
  | NCallExpr (NIdent id) _ _ _ => Some id
  | NCallExpr (NSelectorExpr _ sel) _ _ _ => Some sel
  | _ => None
  end.

Definition calleeObject (c : Node) : option Object :=
  match callee c with Some id => idObj id | None => None end.

(** A call of [context.TODO]. *)
Definition isRequestCall (c : Node) : bool := isContextTODO (calleeObject c).

(** An assignment [ctx := context.TODO()] or [_ = context.TODO()]. *)
Definition isRequestAssign (a : Node) : bool :=
  match a with
  | NAssignStmt [NIdent id] [NCallExpr (NSelectorExpr _ sel) _ _ _] =>
      (String.eqb (idName id) "ctx" || String.eqb (idName id) "_") && isContextTODO (idObj sel)
  | _ => false
  end.

Definition isRequestNode (n : Node) : bool := isRequestAssign n || isRequestCall n.

(** The node at which a request was found: its assignment if it has one,
    else its call. *)
Definition requestNode (t : localCall) : Node :=
  match assign t with Some a => a | None => call t end.

(** [Reaches stack n p m]: the walk of [n] under the stack [stack] comes to
    the node [m] with the path [p]; it descends from a node to the nodes
    directly below it, but not below a request. *)
Inductive Reaches : list Node -> Node -> list Node -> Node -> Prop :=
| reaches_self stack n : Reaches stack n (stack ++ [n]) n
| reaches_child stack n c p m :
    isRequestNode n = false -> In c (children n) -> Reaches (stack ++ [n]) c p m ->
    Reaches stack n p m.

(** Some node of the tree satisfies [test]. *)
Fixpoint anyNode (test : Node -> bool) (n : Node) {struct n} : bool :=
  let anyOf :=
    fix anyOf (l : list Node) : bool :=
      match l with
      | [] => false
      | c :: rest => anyNode test c || anyOf rest
      end in
  test n ||
  match n with
  | NFile _ _ decls => anyOf decls
  | NGenDecl _ _ _ specs => anyOf specs
  | NFuncDecl _ body => anyOf body
  | NFuncLit _ _ _ body => anyOf body
  | NAssignStmt lhs rhs => anyOf lhs || anyOf rhs
  | NCallExpr fn _ args _ => anyNode test fn || anyOf args
  | NSelectorExpr x _ => anyNode test x
  | NIdent _ => false
  | NOther _ _ _ cs => anyOf cs
  end.

(** A call of a function that carries the fact. *)
Definition isFactCall (cfg : Config) (c : Node) : bool :=
  match calleeObject c with
  | Some o => bool_decide (oid o ∈ ImportedFacts cfg)
  | None => false
  end.

(** What the call graph holds is what the walk reached: the requests, the
    calls of functions of the package under the identity of the function,
    and the calls of functions that carry the fact. *)
Record GraphSound (cfg : Config) (a : Analysis) : Prop := {
  sound_todos : forall t, In t (todos a) ->
    exists f, In f (Files cfg) /\ Reaches [] f (path t) (requestNode t) /\
              isRequestNode (requestNode t) = true;
  sound_callers : forall k l c, callers a !! k = Some l -> In c l ->
    exists f o, In f (Files cfg) /\ Reaches [] f (path c) (call c) /\
                calleeObject (call c) = Some o /\ oid o = k /\
                isContextTODO (Some o) = false /\ isLocal cfg (oPkgPath o) = true;
  sound_transitives : forall c, In c (transitives a) ->
    exists f o, In f (Files cfg) /\ Reaches [] f (path c) (call c) /\
                calleeObject (call c) = Some o /\ oid o ∈ ImportedFacts cfg /\
                isContextTODO (Some o) = false
}.

(** *** Two procedures without a request

<<
    package app
    func ping() { pong() }
    func pong() { ping() }
>> *)
Definition pingDecl : FuncDecl := plainFunc 1 "app" "ping" 100.
Definition pongDecl : FuncDecl := plainFunc 2 "app" "pong" 200.

Definition plainUnit : Config :=
  appUnit (NFile 1 []
    [ NFuncDecl pingDecl [ NOther 120 126 None [ plainCall 120 2 "app" "pong" ] ];
      NFuncDecl pongDecl [ NOther 220 226 None [ plainCall 220 1 "app" "ping" ] ] ]).

(** ** [buildScopeMap] *)

(** [TypesInfo.Scopes] maps a node to its scope; both are pointers, here
    their identities.  [buildScopeMap] ranges over the map, in an order Go
    does not fix: [entries] is the order in which the entries come. *)
Definition buildScopeMap (entries : list (positive * positive)) : gmap positive positive :=
  fold_left (fun byScope entry => <[snd entry := fst entry]> byScope) entries ∅.

(** Two nodes with their scopes. *)
Definition sampleScopes : gmap positive positive :=
  <[1%positive := 10%positive]> (<[2%positive := 20%positive]> ∅).

(** The call of [cycle2] in [cycle1], as the walk of [cycleUnit] records it. *)
Definition cycleCaller : localCall :=
  nth 0 (default [] (callers (buildCallGraph cycleUnit) !! 2%positive)) noCall.

(** ** The order of the requests *)

(** A range that ends before another one starts. *)
Definition precedes (r1 r2 : Pos * Pos) : Prop := snd r1 <= fst r2.

(** The file of [mainUnit]. *)
Definition mainFile : Node :=
  match Files mainUnit with
  | f :: _ => f
  | [] => NOther 0 0 None []
  end.

(** ** Proof steps used more than once *)

(** Name the procedure behind an exported fact. *)
Ltac fact_of d := exists d; split; [done|]; split; [done|]; split; [done|].

(** Case analysis on the nodes a [match] of the goal looks at. *)
Ltac destruct_nodes :=
  repeat first
    [ done
    | match goal with |- context [match ?x with _ => _ end] => is_var x; destruct x end ].

(** ** Counting import edits *)

(** The import edit [editToImportContext] computes for a file, none when
    the file imports [context] or has no declaration. *)
Definition importEditOf (file : Node) : option TextEdit :=
  if existsb (String.eqb (dquote +:+ "context" +:+ dquote)) (fileImports file) then None else
  match importBlock (fileDecls file) with
  | Some lparen => Some (insertAt (lparen + 1) importSpecText)
  | None =>
      match fileDecls file with
      | first :: _ => Some (insertAt (nodePos first) importStmtText)
      | [] => None
      end
  end.

(** How often the edit [e] occurs in [es]. *)
Definition occurrences (e : TextEdit) (es : list TextEdit) : nat :=
  count_occ TextEdit_eq_dec es e.

(** No request is an empty expression. *)
Definition nonEmptyRequests (an : Analysis) : bool :=
  forallb (fun t => negb (nodePos (call t) =? callEnd (call t))%Z) (todos an).

(** Whether the file of index [i] still awaits its import. *)
Definition pending (i : nat) (st : State) : nat :=
  if decide (i ∈ contextImported st) then 0%nat else 1%nat.

(** The edits [es] made between [st] and [st'] hold the import edit [e] of
    the file [i] only if they mark the file. *)
Definition Imports (i : nat) (e : TextEdit) (st : State) (es : list TextEdit) (st' : State)
    : Prop :=
  (occurrences e es + pending i st' <= pending i st)%nat.

(** * Properties *)

Lemma isZeroArgContextAccessor_isContextAccessor meth :
  isZeroArgContextAccessor meth = true -> isContextAccessor meth = true.
Proof.
  unfold isZeroArgContextAccessor, isContextAccessor.
  destruct (String.eqb (methName meth) "Context"); simpl; [|discriminate].
  destruct (methParams meth); simpl; [|discriminate]. tauto.
Qed.

(** Every type that qualifies by the specification qualifies for the code. *)
Lemma qualifiesBySpec_qualifies t : qualifiesBySpec t = true -> qualifies t = true.
Proof.
  unfold qualifiesBySpec, qualifies.
  destruct (isContextContext t); simpl; [done|].
  induction t as [ | elem IH | obj methods | ] ; simpl; try done.
  intros H. apply existsb_exists in H as (m & Hin & Hm).
  apply existsb_exists. exists m. split; [done|].
  by apply isZeroArgContextAccessor_isContextAccessor.
Qed.

(** The code and the specification agree on every type none of whose
    [Context] methods takes an argument. *)
Lemma qualifies_qualifiesBySpec t :
  contextMethodsTakeNoArgs t = true -> qualifies t = qualifiesBySpec t.
Proof.
  unfold qualifiesBySpec, qualifies. intros Hno. f_equal.
  induction t as [ | elem IH | obj methods | ]; simpl in *; try done.
  - by apply IH.
  - induction methods as [|m ms IHm]; simpl in *; [done|].
    apply andb_true_iff in Hno as [Hm Hms]. rewrite (IHm Hms). f_equal.
    unfold isContextAccessor, isZeroArgContextAccessor.
    destruct (String.eqb (methName m) "Context"); simpl in *; [|done].
    by destruct (methParams m).
Qed.

(** C7 (code defect).  The claim: a parameter or variable qualifies exactly
    when its type is the context abstraction or exposes a zero-argument
    [Context] accessor returning it.  [typeHasContextMethod] checks the name
    and the single result of the method but not that it takes no argument:
    a parameter [s] of type [Store], whose method is
    [Context(key string) context.Context], does not qualify by the rule and
    is nevertheless taken as a provider, with the expression [s.Context()]. *)
Theorem C7_accessor_with_arguments_is_accepted :
  qualifiesBySpec keyedStore = false /\
  typeHasContextMethod keyedStore = true /\
  hasContextProviderParam [ {| vName := "s"; vType := keyedStore; vPos := 40 |} ]
    = (("s.Context()", true), []) /\
  hasContextProviderInScope [ {| vName := "s"; vType := keyedStore; vPos := 40 |} ] 90
    = ("s.Context()", true).
Proof. repeat split; reflexivity. Qed.

Lemma existsb_ext_in {A} (f g : A -> bool) (l : list A) :
  (forall x, In x l -> f x = g x) -> existsb f l = existsb g l.
Proof.
  induction l as [|x l IH]; simpl; intros H; [done|].
  rewrite (H x) by auto. rewrite IH; auto.
Qed.

(** When the diagnostic and all its edits lie in one file, the filter does
    what the specification says. *)
Lemma inModuleCache_same_file cfg diag :
  (forall sf te, In sf (dSuggestedFixes diag) -> In te (sfTextEdits sf) ->
     Filename (Fset cfg) (tePos te) = Filename (Fset cfg) (dPos diag) /\
     Filename (Fset cfg) (teEnd te) = Filename (Fset cfg) (dPos diag)) ->
  inModuleCache cfg diag = touchesModuleCache cfg diag.
Proof.
  intros Hsame. unfold inModuleCache, touchesModuleCache.
  apply existsb_ext_in. intros sf Hsf.
  apply existsb_ext_in. intros te Hte.
  destruct (Hsame sf te Hsf Hte) as [H1 H2]. simpl. by rewrite H1, H2.
Qed.


(** ** The resolver returns the first candidate of its search order *)

Lemma firstOf_app l1 l2 :
  firstOf (l1 ++ l2) = if snd (firstOf l1) then firstOf l1 else firstOf l2.
Proof. by destruct l1. Qed.

Lemma hasContextProviderParam_from_first i params :
  fst (hasContextProviderParam_from i params) = firstOf (paramCandidates_from i params).
Proof.
  revert i. induction params as [|p rest IH]; intros i; simpl; [done|].
  unfold qualifies, providerExpr, paramName.
  destruct (isContextContext (vType p)); simpl; [done|].
  destruct (typeHasContextMethod (vType p)); simpl; [done|].
  specialize (IH (S i)). destruct (hasContextProviderParam_from (S i) rest). done.
Qed.

Lemma hasContextProviderField_from_first i fields :
  fst (hasContextProviderField_from i fields) = firstOf (fieldCandidates_from i fields).
Proof.
  revert i. induction fields as [|f rest IH]; intros i; simpl; [done|].
  destruct (fieldType f) as [typ|]; simpl; [|apply IH].
  unfold qualifies, providerExpr, fieldName.
  destruct (isContextContext typ); simpl; [by destruct (fieldNames f)|].
  destruct (typeHasContextMethod typ); simpl; [by destruct (fieldNames f)|].
  specialize (IH (S i)). destruct (hasContextProviderField_from (S i) rest). done.
Qed.

Lemma hasContextProviderInScope_first scope at_ :
  hasContextProviderInScope scope at_ = firstOf (scopeCandidates scope at_).
Proof.
  induction scope as [|v rest IH]; simpl; [done|].
  unfold scopeCandidates in *. simpl.
  replace (vPos v >=? at_)%Z with (negb (vPos v <? at_)%Z) by lia.
  destruct (vPos v <? at_)%Z; simpl; [|done].
  unfold qualifies, providerExpr.
  destruct (isContextContext (vType v)); simpl; [done|].
  destruct (typeHasContextMethod (vType v)); simpl; done.
Qed.

Lemma providerInPath_first rpath at_ :
  fst (providerInPath rpath at_) = firstOf (searchOrder rpath at_).
Proof.
  revert at_. induction rpath as [|last prev IH]; intros at_; [done|].
  destruct last; simpl; try apply IH.
  - (* a function declaration *)
    pose proof (hasContextProviderParam_from_first 0 (fParams d)) as Hp.
    unfold hasContextProviderParam, paramCandidates.
    destruct (hasContextProviderParam_from 0 (fParams d)) as [[expr ok] ds].
    simpl in Hp. rewrite firstOf_app, <- Hp. simpl.
    destruct ok; [done|].
    rewrite firstOf_app, <- hasContextProviderInScope_first.
    destruct (hasContextProviderInScope (fScope d) at_) as [expr' ok'].
    destruct ok'; simpl; [done|].
    specialize (IH at_). by destruct (providerInPath prev at_).
  - (* a function literal *)
    pose proof (hasContextProviderField_from_first 0 params) as Hp.
    unfold hasContextProviderField, fieldCandidates.
    destruct (hasContextProviderField_from 0 params) as [[expr ok] ds].
    simpl in Hp. rewrite firstOf_app, <- Hp. simpl.
    destruct ok; [done|].
    rewrite firstOf_app, <- hasContextProviderInScope_first.
    destruct (hasContextProviderInScope scope at_) as [expr' ok'].
    destruct ok'; simpl; [done|].
    specialize (IH at_). by destruct (providerInPath prev at_).
Qed.

Lemma scopeCandidates_before scope cutoff c p :
  In c (scopeCandidates scope cutoff) -> cDecl c = Some p -> p < cutoff.
Proof.
  unfold scopeCandidates. intros Hin Hp.
  apply list_elem_of_In, list_elem_of_omap in Hin as (v & _ & Hv).
  destruct (vPos v <? cutoff)%Z eqn:Hlt; simpl in Hv; [|done].
  destruct (qualifies (vType v)); simplify_eq. simpl in Hp. simplify_eq. lia.
Qed.

Lemma paramCandidates_from_no_decl i params c :
  In c (paramCandidates_from i params) -> cDecl c = None.
Proof.
  revert i. induction params as [|q rest IH]; intros i; simpl; [done|].
  rewrite in_app_iff. intros [Hin|Hin]; [|by eapply IH].
  destruct (qualifies (vType q)); simpl in Hin; [|done].
  by destruct Hin as [<-|[]].
Qed.

Lemma fieldCandidates_from_no_decl i fields c :
  In c (fieldCandidates_from i fields) -> cDecl c = None.
Proof.
  revert i. induction fields as [|f rest IH]; intros i; simpl; [done|].
  rewrite in_app_iff. intros [Hin|Hin]; [|by eapply IH].
  destruct (fieldType f) as [typ|]; [|done].
  destruct (qualifies typ); simpl in Hin; [|done].
  by destruct Hin as [<-|[]].
Qed.

Lemma searchOrder_before rpath at_ bound c p :
  at_ <= bound ->
  (forall a, In a rpath -> isAssignStmt a = true -> nodePos a <= bound) ->
  In c (searchOrder rpath at_) -> cDecl c = Some p -> p < bound.
Proof.
  revert at_. induction rpath as [|last prev IH]; intros at_ Hat Hassign Hin Hp; [done|].
  assert (Hprev : forall a, In a prev -> isAssignStmt a = true -> nodePos a <= bound)
    by (intros; apply Hassign; simpl; auto).
  destruct last; simpl in Hin; try (by eapply IH).
  - rewrite !in_app_iff in Hin. destruct Hin as [Hin|[Hin|Hin]].
    + apply paramCandidates_from_no_decl in Hin. congruence.
    + pose proof (scopeCandidates_before _ _ _ _ Hin Hp). lia.
    + by eapply IH.
  - rewrite !in_app_iff in Hin. destruct Hin as [Hin|[Hin|Hin]].
    + apply fieldCandidates_from_no_decl in Hin. congruence.
    + pose proof (scopeCandidates_before _ _ _ _ Hin Hp). lia.
    + by eapply IH.
  - eapply (IH (nodePos (NAssignStmt lhs rhs))); eauto.
    apply Hassign; simpl; auto.
Qed.

(** C6 (amended).  The resolver returns the first candidate of this search
    order, and fails when there is none: the enclosing procedures and
    closures are visited from the innermost outwards; each contributes its
    formal parameters in declaration order and then the variables of its own
    function-level scope declared strictly before the cut-off, which is the
    query position, or the start of the enclosing assignment once the walk
    has left one; the scopes of nested blocks contribute nothing.  When every
    assignment on the path starts at or before the query position, every
    variable among the candidates is declared strictly before it. *)
Theorem C6_resolver_search_order (caller : astPath) (at_ : Pos) :
  fst (hasContextProviderInPath caller at_) = firstOf (searchOrder (rev caller) at_) /\
  ((forall a, In a caller -> isAssignStmt a = true -> nodePos a <= at_) ->
   forall c p, In c (searchOrder (rev caller) at_) -> cDecl c = Some p -> p < at_).
Proof.
  split; [apply providerInPath_first|].
  intros Hassign c p. apply searchOrder_before; [lia|].
  intros a Hin. apply Hassign. by apply in_rev.
Qed.

(** The request of [blockUnit]: the only one the walk records. *)
Lemma blockUnit_request :
  map (fun t => (nodePos (call t), assign t, option_map fid (decl (path t))))
      (todos (buildCallGraph blockUnit))
  = [(104, None, Some 1%positive)].
Proof. reflexivity. Qed.

(** C6 (counterexample).  In [handle] the variable [c] is declared in the
    block of the [if], before the request and with the context type; the
    search order of the claim finds it, the resolver does not. *)
Lemma C6_block_scope_not_searched :
  resolveBySpec blockPath 104 = ("c", true) /\
  fst (hasContextProviderInPath blockPath 104) = ("", false).
Proof. split; reflexivity. Qed.

(** C6 (instance).  The search order at the request of [blockUnit]. *)
Lemma C6_resolver_search_order_witness :
  (forall a, In a blockPath -> isAssignStmt a = true -> nodePos a <= 104) /\
  fst (hasContextProviderInPath blockPath 104) = firstOf (searchOrder (rev blockPath) 104) /\
  (forall c p, In c (searchOrder (rev blockPath) 104) -> cDecl c = Some p -> p < 104).
Proof.
  assert (H : forall a, In a blockPath -> isAssignStmt a = true -> nodePos a <= 104).
  { intros a Hin Ha. vm_compute in Hin.
    repeat (destruct Hin as [<-|Hin]; [try discriminate Ha|]); done. }
  split; [exact H|]. split.
  - apply (C6_resolver_search_order blockPath 104).
  - apply (proj2 (C6_resolver_search_order blockPath 104) H).
Defined.

(** ** Running the monad *)

Lemma bind_Some {A B} (m : M A) (k : A -> M B) st r :
  bind m k st = Some r <-> exists a st1, m st = Some (a, st1) /\ k a st1 = Some r.
Proof.
  unfold bind. split.
  - destruct (m st) as [[a st1]|]; [eauto|done].
  - by intros (a & st1 & -> & ?).
Qed.

Lemma bind_run {A B} (m : M A) (k : A -> M B) st a st1 :
  m st = Some (a, st1) -> bind m k st = k a st1.
Proof. unfold bind. by intros ->. Qed.

Lemma resolve_run cfg (r : Res) st :
  resolve cfg r st = Some (fst r, with_reports (ReportAll cfg (snd r) (reports st)) st).
Proof. done. Qed.

Lemma report_run cfg diag st :
  report cfg diag st = Some (tt, with_reports (Report cfg diag (reports st)) st).
Proof. done. Qed.

(** ** Diagnostics without fixes pass the filter and carry no edit *)

Lemma allEdits_app l1 l2 : allEdits (l1 ++ l2) = allEdits l1 ++ allEdits l2.
Proof. unfold allEdits. by rewrite map_app, concat_app. Qed.

Lemma Report_noFix cfg d actual : noFix d -> Report cfg d actual = actual ++ [d].
Proof. unfold noFix, Report, inModuleCache. by intros ->. Qed.

Lemma allEdits_Report_noFix cfg d actual :
  noFix d -> allEdits (Report cfg d actual) = allEdits actual.
Proof.
  intros H. rewrite Report_noFix by done. rewrite allEdits_app.
  unfold allEdits at 2. simpl. rewrite H. simpl. by rewrite app_nil_r.
Qed.

Lemma ReportAll_noFix cfg ds actual :
  Forall noFix ds -> ReportAll cfg ds actual = actual ++ ds.
Proof.
  revert actual. induction ds as [|d ds IH]; intros actual H; simpl.
  - by rewrite app_nil_r.
  - inversion H; subst. rewrite Report_noFix by done. rewrite IH by done.
    by rewrite <- app_assoc.
Qed.

Lemma allEdits_noFix ds : Forall noFix ds -> allEdits ds = [].
Proof.
  induction 1 as [|d ds Hd _ IH]; [done|].
  unfold allEdits in *. simpl. rewrite Hd. simpl. done.
Qed.

Lemma allEdits_ReportAll_noFix cfg ds actual :
  Forall noFix ds -> allEdits (ReportAll cfg ds actual) = allEdits actual.
Proof.
  intros H. rewrite ReportAll_noFix by done.
  rewrite allEdits_app, (allEdits_noFix ds) by done. by rewrite app_nil_r.
Qed.

Lemma hasContextProviderParam_from_noFix i params :
  Forall noFix (snd (hasContextProviderParam_from i params)).
Proof.
  revert i. induction params as [|p rest IH]; intros i; simpl; [constructor|].
  destruct (isContextContext (vType p)); simpl.
  { destruct (String.eqb (vName p) ""); repeat constructor. }
  destruct (typeHasContextMethod (vType p)); simpl.
  { destruct (String.eqb (vName p) ""); repeat constructor. }
  specialize (IH (S i)). destruct (hasContextProviderParam_from (S i) rest).
  rewrite andb_false_r. done.
Qed.

Lemma hasContextProviderField_from_noFix i fields :
  Forall noFix (snd (hasContextProviderField_from i fields)).
Proof.
  revert i. induction fields as [|f rest IH]; intros i; simpl; [constructor|].
  destruct (fieldType f) as [typ|]; [|apply IH].
  destruct (isContextContext typ); simpl.
  { destruct (fieldNames f); repeat constructor. }
  destruct (typeHasContextMethod typ); simpl.
  { destruct (fieldNames f); repeat constructor. }
  specialize (IH (S i)). destruct (hasContextProviderField_from (S i) rest).
  rewrite andb_false_r. done.
Qed.

Lemma providerInPath_noFix rpath at_ : Forall noFix (snd (providerInPath rpath at_)).
Proof.
  revert at_. induction rpath as [|last prev IH]; intros at_; [constructor|].
  destruct last; simpl; try apply IH.
  - pose proof (hasContextProviderParam_from_noFix 0 (fParams d)) as Hp.
    unfold hasContextProviderParam.
    destruct (hasContextProviderParam_from 0 (fParams d)) as [[expr ok] ds].
    destruct ok; [done|].
    destruct (hasContextProviderInScope (fScope d) at_) as [expr' ok'].
    destruct ok'; [done|].
    specialize (IH at_). destruct (providerInPath prev at_). simpl in *.
    by apply Forall_app.
  - pose proof (hasContextProviderField_from_noFix 0 params) as Hp.
    unfold hasContextProviderField.
    destruct (hasContextProviderField_from 0 params) as [[expr ok] ds].
    destruct ok; [done|].
    destruct (hasContextProviderInScope scope at_) as [expr' ok'].
    destruct ok'; [done|].
    specialize (IH at_). destruct (providerInPath prev at_). simpl in *.
    by apply Forall_app.
Qed.

Lemma hasContextProviderInPath_noFix caller at_ :
  Forall noFix (snd (hasContextProviderInPath caller at_)).
Proof. apply providerInPath_noFix. Qed.

(** ** The walk: what one call of [propagateContextThrough] does *)

Lemma editToImportContext_run cfg pos st :
  exists es st', editToImportContext cfg pos st = Some (es, st') /\
    seen st' = seen st /\ paramAdded st' = paramAdded st /\
    reports st' = reports st /\ facts st' = facts st /\
    contextImported st ⊆ contextImported st' /\
    Forall isAuxInsertion es.
Proof.
  unfold editToImportContext.
  destruct (list_find _ (Files cfg)) as [[i file]|]; [|by exists [], st].
  unfold bind, get. destruct (decide (i ∈ contextImported st)); [by exists [], st|].
  simpl. destruct (existsb _ (fileImports file)).
  { eexists [], _. repeat split; simpl; [set_solver|constructor]. }
  destruct (importBlock (fileDecls file)) as [lparen|].
  { eexists [_], _. repeat split; simpl; [set_solver|].
    repeat constructor. done. }
  destruct (fileDecls file) as [|first ?].
  { eexists [], _. repeat split; simpl; [set_solver|constructor]. }
  eexists [_], _. repeat split; simpl; [set_solver|].
  repeat constructor. done.
Qed.

Section Walk.
Variable cfg : Config.
Variable an : Analysis.

Lemma Grows_refl st : Grows st st.
Proof. by split. Qed.

Lemma Grows_trans st1 st2 st3 : Grows st1 st2 -> Grows st2 st3 -> Grows st1 st3.
Proof.
  intros [] []. split; first [congruence | etrans; eassumption].
Qed.

Lemma Grows_imported st st' :
  seen st' = seen st -> paramAdded st' = paramAdded st ->
  reports st' = reports st -> facts st' = facts st ->
  contextImported st ⊆ contextImported st' -> Grows st st'.
Proof. intros H1 H2 H3 H4 H5. split; [by rewrite H1|by rewrite H2|done|by rewrite H4|by rewrite H3]. Qed.

Lemma Grows_resolve (r : Res) st :
  Forall noFix (snd r) ->
  Grows st (with_reports (ReportAll cfg (snd r) (reports st)) st).
Proof. intros H. split; simpl; try done. by apply allEdits_ReportAll_noFix. Qed.

Lemma appendEach_Grows {A} (f : A -> M (list TextEdit)) (l : list A) st es st' :
  (forall x st es st', In x l -> f x st = Some (es, st') -> Grows st st' /\ Forall isInsertion es) ->
  appendEach f l st = Some (es, st') -> Grows st st' /\ Forall isInsertion es.
Proof.
  revert st es st'. induction l as [|x l IH]; intros st es st' Hf; simpl.
  - intros [= <- <-]. split; [apply Grows_refl|constructor].
  - intros (e & st1 & H1 & H)%bind_Some. apply bind_Some in H as (es' & st2 & H2 & [= <- <-]).
    apply Hf in H1 as [G1 I1]; [|by left].
    apply IH in H2 as [G2 I2]; [|intros; eapply Hf; eauto; by right].
    split; [by eapply Grows_trans|by apply Forall_app].
Qed.

Lemma propagateContextThrough_Grows fuel funcDecl st es st' :
  propagateContextThrough cfg an fuel funcDecl st = Some (es, st') ->
  Grows st st' /\ Forall isInsertion es.
Proof.
  revert funcDecl st es st'. induction fuel as [|fuel IH]; intros funcDecl st es st'; [done|].
  cbn [propagateContextThrough]. destruct funcDecl as [fd|]; [|intros [= <- <-]; split; [apply Grows_refl|constructor]].
  unfold bind at 1, get.
  destruct (decide (fid fd ∈ seen st)).
  { intros [= <- <-]; split; [apply Grows_refl|constructor]. }
  unfold bind at 1, modify.
  destruct (decide (fid fd ∈ paramAdded st)).
  { intros [= <- <-]. split; [|constructor]. split; simpl; try done. set_solver. }
  unfold bind at 1.
  set (st2 := with_paramAdded _ _).
  assert (G2 : Grows st st2) by (split; simpl; try done; set_solver).
  destruct (find _ (fParams fd)) as [param|].
  { destruct (isContextContext (vType param)).
    - intros [= <- <-]. by split; [|constructor].
    - intros [= <- <-]. split; [|constructor].
      eapply Grows_trans; [exact G2|]. split; simpl; try done.
      by apply allEdits_Report_noFix. }
  destruct (isMainOrInit fd || isTopLevelTestFunc cfg fd).
  { destruct (editToImportContext_run cfg (fNamePos fd) st2)
      as (imp & st3 & Himp & ? & ? & Hr & ? & ? & Haux).
    rewrite (bind_run _ _ _ _ _ Himp). intros [= <- <-]. split.
    - eapply Grows_trans; [exact G2|]. by apply Grows_imported.
    - constructor; [done|]. eapply Forall_impl; [exact Haux|]. by intros ? []. }
  rewrite (bind_run _ _ _ _ _ (resolve_run _ _ _)).
  set (r := hasContextProviderParam (fParams fd)).
  assert (Hr : Forall noFix (snd r)) by apply hasContextProviderParam_from_noFix.
  set (st3 := with_reports _ st2).
  assert (G3 : Grows st st3) by (eapply Grows_trans; [exact G2|by apply Grows_resolve]).
  destruct (fst r) as [expr ok]. destruct ok.
  { destruct (editToImportContext_run cfg (fNamePos fd) st3)
      as (imp & st4 & Himp & ? & ? & Hr4 & ? & ? & Haux).
    rewrite (bind_run _ _ _ _ _ Himp). intros [= <- <-]. split.
    - eapply Grows_trans; [exact G3|]. by apply Grows_imported.
    - constructor; [done|]. eapply Forall_impl; [exact Haux|]. by intros ? []. }
  set (exp := if Exported fd then _ else _).
  assert (Hexp : exists st4, exp st3 = Some (tt, st4) /\ Grows st3 st4).
  { subst exp. destruct (Exported fd).
    - eexists. split; [done|]. split; simpl; try done. set_solver.
    - eexists. split; [done|]. apply Grows_refl. }
  destruct Hexp as (st4 & Hexp & G4). rewrite (bind_run _ _ _ _ _ Hexp).
  destruct (editToImportContext_run cfg (fNamePos fd) st4)
    as (imp & st5 & Himp & ? & ? & Hr5 & ? & ? & Haux).
  rewrite (bind_run _ _ _ _ _ Himp).
  intros (more & st6 & Hloop & [= <- <-])%bind_Some.
  apply appendEach_Grows in Hloop as [G6 I6].
  - split.
    + eapply Grows_trans; [exact G3|]. eapply Grows_trans; [exact G4|].
      eapply Grows_trans; [|exact G6]. by apply Grows_imported.
    + constructor; [done|]. apply Forall_app. split; [|done].
      eapply Forall_impl; [exact Haux|]. by intros ? [].
  - intros caller s e s' _. unfold propagateContextForCall_with.
    rewrite (bind_run _ _ _ _ _ (resolve_run _ _ _)).
    set (r' := hasContextProviderInPath _ _).
    assert (Hr' : Forall noFix (snd r')) by apply hasContextProviderInPath_noFix.
    destruct (fst r') as [expr' ok']. destruct ok'.
    + intros [= <- <-]. split; [by apply Grows_resolve|by repeat constructor].
    + intros (e' & s1 & Hth & [= <- <-])%bind_Some.
      apply IH in Hth as [G I]. split.
      * eapply Grows_trans; [by apply Grows_resolve|exact G].
      * apply Forall_app. split; [done|by repeat constructor].
Qed.

End Walk.

(** ** Termination of the walk *)

Lemma elem_of_callSites_callers an k l c :
  callers an !! k = Some l -> In c l -> In c (callSites an).
Proof.
  intros Hk Hc. unfold callSites. apply in_app_iff. left.
  apply in_concat. exists l. split; [|done].
  apply in_map_iff. exists (k, l). split; [done|].
  apply list_elem_of_In, elem_of_map_to_list. done.
Qed.

Lemma decl_in_declsOf an c d :
  In c (todos an ++ callSites an) -> decl (path c) = Some d -> In d (declsOf an).
Proof.
  intros Hc Hd. unfold declsOf. apply list_elem_of_In, list_elem_of_omap.
  exists c. split; [by apply list_elem_of_In|done].
Qed.

Lemma declsOf_declIds an d : In d (declsOf an) -> fid d ∈ declIds an.
Proof.
  intros Hd. unfold declIds. apply elem_of_list_to_set, list_elem_of_In, in_map_iff. eauto.
Qed.

Section Termination.
Variable cfg : Config.
Variable an : Analysis.

Lemma unseen_mono st st' : seen st ⊆ seen st' -> (unseen an st' <= unseen an st)%nat.
Proof. intros H. unfold unseen. apply subseteq_size. set_solver. Qed.

Lemma unseen_insert st i :
  i ∈ declIds an -> i ∉ seen st ->
  (S (unseen an (with_seen ({[i]} ∪ seen st) st)) <= unseen an st)%nat.
Proof.
  intros Hin Hnot. unfold unseen. cbn [seen with_seen].
  assert (H : declIds an ∖ ({[i]} ∪ seen st) ⊂ declIds an ∖ seen st) by set_solver.
  apply subset_size in H. lia.
Qed.

Lemma appendEach_terminates {A} (f : A -> M (list TextEdit)) (l : list A) (bound : nat) st :
  (forall x st, In x l -> (unseen an st <= bound)%nat ->
     exists es st', f x st = Some (es, st') /\ (unseen an st' <= bound)%nat) ->
  (unseen an st <= bound)%nat ->
  exists es st', appendEach f l st = Some (es, st') /\ (unseen an st' <= bound)%nat.
Proof.
  revert st. induction l as [|x l IH]; intros st Hf Hst; simpl.
  - by exists [], st.
  - destruct (Hf x st) as (e & st1 & H1 & Hb1); [by left|done|].
    destruct (IH st1) as (es & st2 & H2 & Hb2); [intros; apply Hf; auto; by right|done|].
    exists (e ++ es), st2. split; [|done].
    rewrite (bind_run _ _ _ _ _ H1), (bind_run _ _ _ _ _ H2). done.
Qed.

(** With more fuel than unseen procedures, [propagateContextThrough] returns. *)
Lemma propagateContextThrough_terminates fuel funcDecl st :
  (forall d, funcDecl = Some d -> fid d ∈ declIds an) ->
  (unseen an st < fuel)%nat ->
  exists es st', propagateContextThrough cfg an fuel funcDecl st = Some (es, st').
Proof.
  revert funcDecl st. induction fuel as [|fuel IH]; intros funcDecl st Hin Hfuel; [lia|].
  cbn [propagateContextThrough]. destruct funcDecl as [fd|]; [|by eexists _, _].
  specialize (Hin fd eq_refl).
  unfold bind at 1, get.
  destruct (decide (fid fd ∈ seen st)) as [|Hseen]; [by eexists _, _|].
  unfold bind at 1, modify.
  destruct (decide (fid fd ∈ paramAdded st)); [by eexists _, _|].
  unfold bind at 1.
  pose proof (unseen_insert st (fid fd) Hin Hseen) as Hless.
  set (st1 := with_seen _ st) in *.
  set (st2 := with_paramAdded _ st1).
  assert (Hu2 : (unseen an st2 <= fuel - 1)%nat) by (change (unseen an st2) with (unseen an st1); lia).
  assert (Hpos : (1 <= fuel)%nat) by lia.
  clearbody st2. clear Hless Hfuel Hseen st1.
  destruct (find _ (fParams fd)) as [param|].
  { destruct (isContextContext (vType param)); by eexists _, _. }
  destruct (isMainOrInit fd || isTopLevelTestFunc cfg fd).
  { destruct (editToImportContext_run cfg (fNamePos fd) st2) as (imp & st3 & Himp & _).
    rewrite (bind_run _ _ _ _ _ Himp). by eexists _, _. }
  rewrite (bind_run _ _ _ _ _ (resolve_run _ _ _)).
  set (st3 := with_reports _ st2).
  assert (Hu3 : (unseen an st3 <= fuel - 1)%nat) by done.
  clearbody st3.
  destruct (fst (hasContextProviderParam (fParams fd))) as [expr ok]. destruct ok.
  { destruct (editToImportContext_run cfg (fNamePos fd) st3) as (imp & st4 & Himp & _).
    rewrite (bind_run _ _ _ _ _ Himp). by eexists _, _. }
  set (exp := if Exported fd then _ else _).
  assert (Hexp : exists st4, exp st3 = Some (tt, st4) /\ (unseen an st4 <= fuel - 1)%nat).
  { subst exp. destruct (Exported fd); eexists; split; done. }
  destruct Hexp as (st4 & Hexp & Hu4). rewrite (bind_run _ _ _ _ _ Hexp).
  destruct (editToImportContext_run cfg (fNamePos fd) st4)
    as (imp & st5 & Himp & Hs5 & _).
  rewrite (bind_run _ _ _ _ _ Himp).
  assert (Hu5 : (unseen an st5 <= fuel - 1)%nat) by (unfold unseen in *; by rewrite Hs5).
  destruct (appendEach_terminates
              (propagateContextForCall_with cfg (propagateContextThrough cfg an fuel))
              (default [] (callers an !! fid fd)) (fuel - 1) st5) as (more & st6 & Hloop & _);
    [|done|rewrite (bind_run _ _ _ _ _ Hloop); by eexists _, _].
  intros caller s Hcaller Hs. unfold propagateContextForCall_with.
  rewrite (bind_run _ _ _ _ _ (resolve_run _ _ _)).
  set (s1 := with_reports _ s).
  assert (Hs1 : (unseen an s1 <= fuel - 1)%nat) by done.
  clearbody s1.
  destruct (fst (hasContextProviderInPath _ _)) as [expr' ok']. destruct ok'.
  { by eexists _, _. }
  destruct (IH (decl (path caller)) s1) as (e & s2 & Hth); [|lia|].
  { intros d Hd. destruct (callers an !! fid fd) as [l|] eqn:Hl; [|done].
    apply declsOf_declIds. eapply decl_in_declsOf; [|exact Hd].
    apply in_app_iff. right. by eapply elem_of_callSites_callers. }
  rewrite (bind_run _ _ _ _ _ Hth). eexists _, _. split; [done|].
  apply propagateContextThrough_Grows in Hth as [[Hseen _ _ _ _] _].
  pose proof (unseen_mono _ _ Hseen). lia.
Qed.

End Termination.

(** ** At most one injected parameter per procedure *)

Lemma injections_app d es1 es2 :
  injections d (es1 ++ es2) = (injections d es1 + injections d es2)%nat.
Proof. apply count_occ_app. Qed.

Lemma injections_cons_ne d e es :
  e <> editToPrependCtxParam d -> injections d (e :: es) = injections d es.
Proof. intros H. unfold injections. by rewrite count_occ_cons_neq. Qed.

Lemma injections_cons_eq d e es :
  e = editToPrependCtxParam d -> injections d (e :: es) = S (injections d es).
Proof. intros H. unfold injections. by rewrite count_occ_cons_eq. Qed.

Lemma injections_aux d es : Forall isAuxInsertion es -> injections d es = 0%nat.
Proof.
  induction 1 as [|e es [_ He] _ IH]; [done|].
  rewrite injections_cons_ne; [done|]. intros ->. by apply He.
Qed.

Lemma Once_zero d st es st' : injections d es = 0%nat -> Once d st es st'.
Proof. intros H. unfold Once. rewrite H. repeat split; [lia|done]. Qed.

Lemma Once_app d st es1 st1 es2 st2 :
  paramAdded st ⊆ paramAdded st1 -> paramAdded st1 ⊆ paramAdded st2 ->
  Once d st es1 st1 -> Once d st1 es2 st2 -> Once d st (es1 ++ es2) st2.
Proof.
  intros H01 H12 (A1 & B1 & C1) (A2 & B2 & C2). unfold Once.
  rewrite injections_app. repeat split.
  - intros Hin. rewrite A1, A2; [done|set_solver|done].
  - destruct (decide (injections d es1 = 0%nat)) as [->|Hne]; [lia|].
    rewrite A2; [lia|]. by apply C1.
  - intros Hne. destruct (decide (injections d es1 = 0%nat)) as [Hz|Hnz].
    + apply C2. lia.
    + apply H12. by apply C1.
Qed.

Lemma Once_frame d st0 st es st' st1 :
  paramAdded st0 ⊆ paramAdded st -> paramAdded st' ⊆ paramAdded st1 ->
  Once d st es st' -> Once d st0 es st1.
Proof.
  intros H0 H1 (A & B & C). repeat split; [|done|].
  - intros Hin. apply A. set_solver.
  - intros Hne. apply H1. by apply C.
Qed.

Lemma appendEach_Once {A} d (f : A -> M (list TextEdit)) (l : list A) st es st' :
  (forall x st es st', In x l -> f x st = Some (es, st') ->
     paramAdded st ⊆ paramAdded st' /\ Once d st es st') ->
  appendEach f l st = Some (es, st') ->
  paramAdded st ⊆ paramAdded st' /\ Once d st es st'.
Proof.
  revert st es st'. induction l as [|x l IH]; intros st es st' Hf; simpl.
  - intros [= <- <-]. split; [done|by apply Once_zero].
  - intros (e & st1 & H1 & H)%bind_Some. apply bind_Some in H as (es' & st2 & H2 & [= <- <-]).
    apply Hf in H1 as [G1 O1]; [|by left].
    apply IH in H2 as [G2 O2]; [|intros; eapply Hf; eauto; by right].
    split; [set_solver|by eapply Once_app].
Qed.

Section AtMostOnce.
Variable cfg : Config.
Variable an : Analysis.
Hypothesis wf : wfPositions an = true.

Lemma wf_opening d1 d2 :
  In d1 (declsOf an) -> In d2 (declsOf an) -> fOpening d1 = fOpening d2 -> fid d1 = fid d2.
Proof.
  intros H1 H2 Heq. unfold wfPositions in wf.
  apply andb_true_iff in wf as [[Ha _]%andb_true_iff _].
  rewrite forallb_forall in Ha. specialize (Ha d1 H1).
  rewrite forallb_forall in Ha. specialize (Ha d2 H2).
  apply orb_true_iff in Ha as [Ha|Ha]; [|by apply bool_decide_eq_true in Ha].
  apply negb_true_iff, Z.eqb_neq in Ha. done.
Qed.

Lemma wf_lparen c d :
  In c (callSites an) -> In d (declsOf an) -> callLparen (call c) <> fOpening d.
Proof.
  intros H1 H2. unfold wfPositions in wf.
  apply andb_true_iff in wf as [[_ Hb]%andb_true_iff _].
  rewrite forallb_forall in Hb. specialize (Hb c H1).
  rewrite forallb_forall in Hb. specialize (Hb d H2).
  by apply negb_true_iff, Z.eqb_neq in Hb.
Qed.

Lemma wf_request t : In t (todos an) -> nodePos (call t) <> callEnd (call t).
Proof.
  intros H1. unfold wfPositions in wf.
  apply andb_true_iff in wf as [_ Hc].
  rewrite forallb_forall in Hc. specialize (Hc t H1).
  by apply negb_true_iff, Z.eqb_neq in Hc.
Qed.

Lemma injections_prependExpr c d expr :
  In c (callSites an) -> In d (declsOf an) ->
  injections d [editToPrependExpr (call c) expr] = 0%nat.
Proof.
  intros Hc Hd. rewrite injections_cons_ne; [done|].
  intros Heq. apply (f_equal tePos) in Heq. simpl in Heq.
  apply (wf_lparen c d Hc Hd). lia.
Qed.

Lemma injections_replaceCall t d expr :
  In t (todos an) -> injections d [editToReplaceCall (call t) expr] = 0%nat.
Proof.
  intros Ht. rewrite injections_cons_ne; [done|].
  intros Heq. apply (wf_request t Ht).
  pose proof (f_equal tePos Heq) as H1. pose proof (f_equal teEnd Heq) as H2.
  simpl in *. lia.
Qed.

Lemma injections_removeAssign a d : injections d [editToRemoveAssign a] = 0%nat.
Proof. rewrite injections_cons_ne; [done|]. intros Heq. by apply (f_equal teNewText) in Heq. Qed.

Lemma injections_varDecl fd expr d : editToAddContextVarDecl fd expr <> editToPrependCtxParam d.
Proof. intros Heq. apply (f_equal teNewText) in Heq. simpl in Heq. discriminate. Qed.

Lemma propagateContextThrough_Once d fuel funcDecl st es st' :
  In d (declsOf an) ->
  (forall fd, funcDecl = Some fd -> In fd (declsOf an)) ->
  propagateContextThrough cfg an fuel funcDecl st = Some (es, st') ->
  Once d st es st'.
Proof.
  intros Hd. revert funcDecl st es st'.
  induction fuel as [|fuel IH]; intros funcDecl st es st' Hfd Hrun; [done|].
  pose proof (propagateContextThrough_Grows _ _ _ _ _ _ _ Hrun) as [G _].
  revert Hrun. cbn [propagateContextThrough].
  destruct funcDecl as [fd|]; [|intros [= <- <-]; by apply Once_zero].
  specialize (Hfd fd eq_refl).
  unfold bind at 1, get.
  destruct (decide (fid fd ∈ seen st)); [intros [= <- <-]; by apply Once_zero|].
  unfold bind at 1, modify.
  destruct (decide (fid fd ∈ paramAdded st)) as [|Hfresh]; [intros [= <- <-]; by apply Once_zero|].
  unfold bind at 1.
  set (st2 := with_paramAdded _ _).
  destruct (find _ (fParams fd)) as [param|].
  { destruct (isContextContext (vType param)); intros [= <- <-]; by apply Once_zero. }
  destruct (isMainOrInit fd || isTopLevelTestFunc cfg fd).
  { destruct (editToImportContext_run cfg (fNamePos fd) st2)
      as (imp & st3 & Himp & _ & _ & _ & _ & _ & Haux).
    rewrite (bind_run _ _ _ _ _ Himp). intros [= <- <-]. apply Once_zero.
    rewrite injections_cons_ne by apply injections_varDecl. by apply injections_aux. }
  rewrite (bind_run _ _ _ _ _ (resolve_run _ _ _)).
  set (st3 := with_reports _ st2).
  destruct (fst (hasContextProviderParam (fParams fd))) as [expr ok]. destruct ok.
  { destruct (editToImportContext_run cfg (fNamePos fd) st3)
      as (imp & st4 & Himp & _ & _ & _ & _ & _ & Haux).
    rewrite (bind_run _ _ _ _ _ Himp). intros [= <- <-]. apply Once_zero.
    rewrite injections_cons_ne by apply injections_varDecl. by apply injections_aux. }
  set (exp := if Exported fd then _ else _).
  assert (Hexp : exists st4, exp st3 = Some (tt, st4) /\ paramAdded st4 = paramAdded st2).
  { subst exp. destruct (Exported fd); eexists; split; done. }
  destruct Hexp as (st4 & Hexp & Hp4). rewrite (bind_run _ _ _ _ _ Hexp).
  destruct (editToImportContext_run cfg (fNamePos fd) st4)
    as (imp & st5 & Himp & _ & Hp5 & _ & _ & _ & Haux).
  rewrite (bind_run _ _ _ _ _ Himp).
  intros (more & st6 & Hloop & [= <- <-])%bind_Some.
  apply (appendEach_Once d) in Hloop as [G6 O6].
  - assert (Hin5 : fid fd ∈ paramAdded st5).
    { rewrite Hp5, Hp4. subst st2. simpl. set_solver. }
    assert (Hsub : paramAdded st ⊆ paramAdded st5).
    { rewrite Hp5, Hp4. subst st2. simpl. set_solver. }
    destruct O6 as (A & B & C).
    destruct (decide (editToPrependCtxParam fd = editToPrependCtxParam d)) as [Heq|Hne].
    + assert (Hid : fid fd = fid d).
      { apply wf_opening; [done..|]. apply (f_equal tePos) in Heq. simpl in Heq. lia. }
      rewrite Hid in *. unfold Once.
      rewrite injections_cons_eq, injections_app, (injections_aux d imp), A by done.
      repeat split; [done|lia|]. intros _. by apply G6.
    + unfold Once. rewrite injections_cons_ne, injections_app, (injections_aux d imp) by done.
      simpl. repeat split; [|done|done]. intros Hin. apply A. by apply Hsub.
  - intros caller s e s' Hcaller. unfold propagateContextForCall_with.
    rewrite (bind_run _ _ _ _ _ (resolve_run _ _ _)).
    assert (Hsite : In caller (callSites an)).
    { destruct (callers an !! fid fd) as [l|] eqn:Hl; [|done].
      by eapply elem_of_callSites_callers. }
    destruct (fst (hasContextProviderInPath _ _)) as [expr' ok']. destruct ok'.
    + intros [= <- <-]. split; [done|]. apply Once_zero. by apply injections_prependExpr.
    + intros (e' & s1 & Hth & [= <- <-])%bind_Some.
      pose proof (propagateContextThrough_Grows _ _ _ _ _ _ _ Hth) as [[_ Gp _ _ _] _].
      split; [done|].
      eapply Once_app; [done|done| |apply Once_zero; by apply injections_prependExpr].
      eapply Once_frame; [| |eapply IH; [|exact Hth]]; [done..|].
      intros fd' Hfd'. eapply decl_in_declsOf; [|exact Hfd'].
      apply in_app_iff. by right.
Qed.

End AtMostOnce.

(** ** The pass *)

Lemma allEdits_Report_plumb cfg c msg es actual :
  allEdits (Report cfg (plumbDiagnostic c msg es) actual) = allEdits actual \/
  allEdits (Report cfg (plumbDiagnostic c msg es) actual) = allEdits actual ++ es.
Proof.
  unfold Report. destruct (inModuleCache _ _); [by left|right].
  rewrite allEdits_app. f_equal. unfold allEdits. simpl. by rewrite !app_nil_r.
Qed.

Lemma unseen_reset an st : unseen an (with_seen ∅ st) = size (declIds an).
Proof. unfold unseen. simpl. f_equal. set_solver. Qed.

Section Pass.
Variable cfg : Config.
Variable an : Analysis.

Lemma todoEdits_Grows fuel todo st es st' :
  todoEdits cfg an fuel todo st = Some (es, st') -> Grows st st'.
Proof.
  unfold todoEdits. destruct (assign todo) as [a|].
  - intros (e & s1 & Hth & [= <- <-])%bind_Some.
    by apply propagateContextThrough_Grows in Hth as [G _].
  - rewrite (bind_run _ _ _ _ _ (resolve_run _ _ _)).
    set (r := hasContextProviderInPath _ _).
    assert (Hr : Forall noFix (snd r)) by apply hasContextProviderInPath_noFix.
    destruct (fst r) as [expr ok]. destruct ok.
    + intros [= <- <-]. by apply Grows_resolve.
    + intros (e & s1 & Hth & [= <- <-])%bind_Some.
      apply propagateContextThrough_Grows in Hth as [G _].
      eapply Grows_trans; [by apply Grows_resolve|exact G].
Qed.

Lemma propagateContextForCall_Grows fuel caller st es st' :
  propagateContextForCall cfg an fuel caller st = Some (es, st') -> Grows st st'.
Proof.
  unfold propagateContextForCall, propagateContextForCall_with.
  rewrite (bind_run _ _ _ _ _ (resolve_run _ _ _)).
  set (r := hasContextProviderInPath _ _).
  assert (Hr : Forall noFix (snd r)) by apply hasContextProviderInPath_noFix.
  destruct (fst r) as [expr ok]. destruct ok.
  - intros [= <- <-]. by apply Grows_resolve.
  - intros (e & s1 & Hth & [= <- <-])%bind_Some.
    apply propagateContextThrough_Grows in Hth as [G _].
    eapply Grows_trans; [by apply Grows_resolve|exact G].
Qed.

Lemma todoEdits_terminates fuel todo st :
  In todo (todos an) -> (unseen an st < fuel)%nat ->
  exists es st', todoEdits cfg an fuel todo st = Some (es, st').
Proof.
  intros Hin Hfuel.
  assert (Hd : forall d, decl (path todo) = Some d -> fid d ∈ declIds an).
  { intros d Hd. apply declsOf_declIds. eapply decl_in_declsOf; [|exact Hd].
    apply in_app_iff. by left. }
  unfold todoEdits. destruct (assign todo) as [a|].
  - destruct (propagateContextThrough_terminates cfg an fuel (decl (path todo)) st Hd Hfuel)
      as (e & s1 & Hth).
    rewrite (bind_run _ _ _ _ _ Hth). by eexists _, _.
  - rewrite (bind_run _ _ _ _ _ (resolve_run _ _ _)).
    destruct (fst (hasContextProviderInPath _ _)) as [expr ok]. destruct ok; [by eexists _, _|].
    set (s := with_reports _ st).
    destruct (propagateContextThrough_terminates cfg an fuel (decl (path todo)) s Hd)
      as (e & s1 & Hth); [done|].
    rewrite (bind_run _ _ _ _ _ Hth). by eexists _, _.
Qed.

Lemma propagateContextForCall_terminates fuel caller st :
  In caller (transitives an) -> (unseen an st < fuel)%nat ->
  exists es st', propagateContextForCall cfg an fuel caller st = Some (es, st').
Proof.
  intros Hin Hfuel.
  assert (Hd : forall d, decl (path caller) = Some d -> fid d ∈ declIds an).
  { intros d Hd. apply declsOf_declIds. eapply decl_in_declsOf; [|exact Hd].
    apply in_app_iff. right. unfold callSites. apply in_app_iff. by right. }
  unfold propagateContextForCall, propagateContextForCall_with.
  rewrite (bind_run _ _ _ _ _ (resolve_run _ _ _)).
  destruct (fst (hasContextProviderInPath _ _)) as [expr ok]. destruct ok; [by eexists _, _|].
  set (s := with_reports _ st).
  destruct (propagateContextThrough_terminates cfg an fuel (decl (path caller)) s Hd)
    as (e & s1 & Hth); [done|].
  rewrite (bind_run _ _ _ _ _ Hth). by eexists _, _.
Qed.

Lemma rewriteTODO_terminates fuel todo st :
  In todo (todos an) -> (passFuel an <= fuel)%nat ->
  exists st', rewriteTODO cfg an fuel todo st = Some (tt, st').
Proof.
  intros Hin Hfuel. unfold rewriteTODO.
  destruct (todoEdits_terminates fuel todo (with_seen ∅ st)) as (es & st1 & Hes); [done| |].
  { rewrite unseen_reset. unfold passFuel in Hfuel. lia. }
  unfold bind at 1, modify. rewrite (bind_run _ _ _ _ _ Hes). by eexists.
Qed.

Lemma rewriteTransitives_terminates fuel todo st :
  In todo (transitives an) -> (passFuel an <= fuel)%nat ->
  exists st', rewriteTransitives cfg an fuel todo st = Some (tt, st').
Proof.
  intros Hin Hfuel. unfold rewriteTransitives.
  destruct (propagateContextForCall_terminates fuel todo (with_seen ∅ st))
    as (es & st1 & Hes); [done| |].
  { rewrite unseen_reset. unfold passFuel in Hfuel. lia. }
  unfold bind at 1, modify. rewrite (bind_run _ _ _ _ _ Hes). by eexists.
Qed.

(** A loop of the pass returns when each of its steps does, and keeps what
    each step keeps. *)
Lemma forEach_run {A} (f : A -> M unit) (l : list A) (Inv : State -> Prop) st :
  (forall x st, In x l -> exists st', f x st = Some (tt, st')) ->
  (forall x st st', In x l -> Inv st -> f x st = Some (tt, st') -> Inv st') ->
  Inv st ->
  exists st', forEach f l st = Some (tt, st') /\ Inv st'.
Proof.
  revert st. induction l as [|x l IH]; intros st Hrun Hinv Hst; simpl.
  - by exists st.
  - destruct (Hrun x st) as (st1 & H1); [by left|].
    destruct (IH st1) as (st2 & H2 & Hi2).
    + intros; apply Hrun; by right.
    + intros; eapply Hinv; eauto; by right.
    + eapply Hinv; eauto; by left.
    + exists st2. by rewrite (bind_run _ _ _ _ _ H1).
Qed.

Hypothesis wf : wfPositions an = true.

Lemma todoEdits_Once d fuel todo st es st' :
  In d (declsOf an) -> In todo (todos an) ->
  todoEdits cfg an fuel todo st = Some (es, st') -> Once d st es st'.
Proof.
  intros Hd Hin.
  assert (Hfd : forall fd, decl (path todo) = Some fd -> In fd (declsOf an)).
  { intros fd Hfd. eapply decl_in_declsOf; [|exact Hfd]. apply in_app_iff. by left. }
  unfold todoEdits. destruct (assign todo) as [a|].
  - intros (e & s1 & Hth & [= <- <-])%bind_Some.
    eapply Once_app; [| |by eapply propagateContextThrough_Once|
                      apply Once_zero, injections_removeAssign]; [|done].
    by apply propagateContextThrough_Grows in Hth as [[] _].
  - rewrite (bind_run _ _ _ _ _ (resolve_run _ _ _)).
    destruct (fst (hasContextProviderInPath _ _)) as [expr ok]. destruct ok.
    + intros [= <- <-]. by apply Once_zero, (injections_replaceCall an wf).
    + intros (e & s1 & Hth & [= <- <-])%bind_Some.
      pose proof (propagateContextThrough_Grows _ _ _ _ _ _ _ Hth) as [[_ Gp _ _ _] _].
      eapply Once_app; [exact Gp|done| |by apply Once_zero, (injections_replaceCall an wf)].
      eapply Once_frame; [| |by eapply propagateContextThrough_Once]; done.
Qed.

Lemma propagateContextForCall_Once d fuel caller st es st' :
  In d (declsOf an) -> In caller (transitives an) ->
  propagateContextForCall cfg an fuel caller st = Some (es, st') -> Once d st es st'.
Proof.
  intros Hd Hin.
  assert (Hsite : In caller (callSites an)) by (apply in_app_iff; by right).
  assert (Hfd : forall fd, decl (path caller) = Some fd -> In fd (declsOf an)).
  { intros fd Hfd. eapply decl_in_declsOf; [|exact Hfd]. apply in_app_iff. by right. }
  unfold propagateContextForCall, propagateContextForCall_with.
  rewrite (bind_run _ _ _ _ _ (resolve_run _ _ _)).
  destruct (fst (hasContextProviderInPath _ _)) as [expr ok]. destruct ok.
  - intros [= <- <-]. by apply Once_zero, (injections_prependExpr an wf).
  - intros (e & s1 & Hth & [= <- <-])%bind_Some.
    pose proof (propagateContextThrough_Grows _ _ _ _ _ _ _ Hth) as [[_ Gp _ _ _] _].
    eapply Once_app; [exact Gp|done| |by apply Once_zero, (injections_prependExpr an wf)].
    eapply Once_frame; [| |by eapply propagateContextThrough_Once]; done.
Qed.

(** Reporting the fix of one walk keeps the invariant of the pass. *)
Lemma PassInv_report c msg st es st1 :
  PassInv an st ->
  paramAdded st ⊆ paramAdded st1 ->
  allEdits (reports st1) = allEdits (reports st) ->
  (forall d, In d (declsOf an) -> Once d (with_seen ∅ st) es st1) ->
  PassInv an (with_reports (Report cfg (plumbDiagnostic c msg es) (reports st1)) st1).
Proof.
  intros Hinv Hsub Hedits Honce d Hd.
  destruct (Hinv d Hd) as [Hle Hin]. destruct (Honce d Hd) as (A & B & C).
  cbn [reports paramAdded with_reports].
  destruct (allEdits_Report_plumb cfg c msg es (reports st1)) as [-> | ->];
    rewrite Hedits.
  - split; [done|]. intros Hne. apply Hsub. by apply Hin.
  - rewrite injections_app.
    destruct (decide (injections d (allEdits (reports st)) = 0%nat)) as [Hz|Hnz].
    + rewrite Hz. split; [done|]. simpl. apply C.
    + rewrite A by (by apply Hin). split; [lia|]. intros _. apply Hsub. by apply Hin.
Qed.

Lemma rewriteTODO_PassInv fuel todo st st' :
  In todo (todos an) -> PassInv an st ->
  rewriteTODO cfg an fuel todo st = Some (tt, st') -> PassInv an st'.
Proof.
  intros Hin Hinv. unfold rewriteTODO. unfold bind at 1, modify.
  intros (es & st1 & Hes & [= <-])%bind_Some.
  pose proof (todoEdits_Grows _ _ _ _ _ Hes) as [_ Gp _ _ Ge].
  apply (PassInv_report _ _ st); [done|done|done|].
  intros d Hd. by eapply todoEdits_Once.
Qed.

Lemma rewriteTransitives_PassInv fuel todo st st' :
  In todo (transitives an) -> PassInv an st ->
  rewriteTransitives cfg an fuel todo st = Some (tt, st') -> PassInv an st'.
Proof.
  intros Hin Hinv. unfold rewriteTransitives. unfold bind at 1, modify.
  intros (es & st1 & Hes & [= <-])%bind_Some.
  pose proof (propagateContextForCall_Grows _ _ _ _ _ Hes) as [_ Gp _ _ Ge].
  apply (PassInv_report _ _ st); [done|done|done|].
  intros d Hd. by eapply propagateContextForCall_Once.
Qed.

End Pass.

Lemma PassInv_init an : PassInv an initState.
Proof. intros d _. change (injections d (allEdits (reports initState))) with 0%nat. split; [lia|done]. Qed.

(** C5.  With fuel for one call per procedure of the unit and one more, every
    walk of the pass returns, whatever the call graph (a cycle included), and
    [buildDiagnostics] ends in a state; among all the edits it reports, the
    edit that injects a context parameter into a procedure occurs at most
    once, in a unit whose positions are those of a parsed file. *)
Theorem C5_pass_terminates_one_injection (cfg : Config) (an : Analysis) (fuel : nat) :
  (passFuel an <= fuel)%nat ->
  exists st, buildDiagnostics cfg an fuel initState = Some (tt, st) /\
    (wfPositions an = true ->
     forall d, In d (declsOf an) -> (injections d (allEdits (reports st)) <= 1)%nat).
Proof.
  intros Hfuel. unfold buildDiagnostics.
  destruct (forEach_run (rewriteTODO cfg an fuel) (todos an)
              (fun st => wfPositions an = true -> PassInv an st) initState)
    as (st1 & H1 & Inv1).
  { intros; by apply rewriteTODO_terminates. }
  { intros x s s' Hx Hs Hrun wf. exact (rewriteTODO_PassInv cfg an wf fuel x s s' Hx (Hs wf) Hrun). }
  { intros _. apply PassInv_init. }
  destruct (forEach_run (rewriteTransitives cfg an fuel) (transitives an)
              (fun st => wfPositions an = true -> PassInv an st) st1)
    as (st2 & H2 & Inv2).
  { intros; by apply rewriteTransitives_terminates. }
  { intros x s s' Hx Hs Hrun wf. exact (rewriteTransitives_PassInv cfg an wf fuel x s s' Hx (Hs wf) Hrun). }
  { done. }
  exists st2. split; [by rewrite (bind_run _ _ _ _ _ H1)|].
  intros wf d Hd. by apply (Inv2 wf d Hd).
Qed.

(** The fix of the request of [cycleUnit], as in [basic1.go.golden]: one
    parameter for each of the two procedures, one argument for each of the
    two calls, and the request replaced by [ctx]. *)
Lemma cycleUnit_fix :
  option_map (fun st => allEdits (reports st)) (runPass cycleUnit)
  = Some [ insertAt 112 "ctx context.Context, ";
           insertAt 212 "ctx context.Context, ";
           insertAt 157 "ctx, ";
           insertAt 227 "ctx, ";
           {| tePos := 132; teEnd := 146; teNewText := "ctx" |} ].
Proof. vm_compute. reflexivity. Qed.

(** C5 (instance): the pass over the two procedures that call each other. *)
Lemma C5_pass_terminates_one_injection_witness :
  (passFuel (buildCallGraph cycleUnit) <= 3)%nat /\
  wfPositions (buildCallGraph cycleUnit) = true /\
  exists st, buildDiagnostics cycleUnit (buildCallGraph cycleUnit) 3 initState = Some (tt, st) /\
    forall d, In d (declsOf (buildCallGraph cycleUnit)) ->
      (injections d (allEdits (reports st)) <= 1)%nat.
Proof.
  assert (Hfuel : (passFuel (buildCallGraph cycleUnit) <= 3)%nat) by (vm_compute; lia).
  assert (Hwf : wfPositions (buildCallGraph cycleUnit) = true) by (vm_compute; reflexivity).
  split; [exact Hfuel|]. split; [exact Hwf|].
  destruct (C5_pass_terminates_one_injection cycleUnit (buildCallGraph cycleUnit) 3 Hfuel)
    as (st & Hrun & Hone).
  exists st. split; [exact Hrun|exact (Hone Hwf)].
Defined.

(** ** A request whose provider is visible *)

Lemma todoEdits_provider cfg an fuel todo st expr ds :
  assign todo = None ->
  hasContextProviderInPath (path todo) (nodePos (call todo)) = ((expr, true), ds) ->
  todoEdits cfg an fuel todo st
  = Some ([editToReplaceCall (call todo) expr],
          with_reports (ReportAll cfg ds (reports st)) st).
Proof.
  intros Ha Hp. unfold todoEdits. rewrite Ha.
  rewrite (bind_run _ _ _ _ _ (resolve_run _ _ _)). by rewrite Hp.
Qed.

Lemma rewriteTODO_run cfg an fuel todo st es st1 :
  todoEdits cfg an fuel todo (with_seen ∅ st) = Some (es, st1) ->
  rewriteTODO cfg an fuel todo st
  = Some (tt, with_reports (Report cfg (plumbDiagnostic (call todo) "Plumb context" es)
                                   (reports st1)) st1).
Proof.
  intros H. unfold rewriteTODO. unfold bind at 1, modify.
  by rewrite (bind_run _ _ _ _ _ H).
Qed.

Lemma rewriteTODO_provider cfg an fuel todo st expr ds :
  assign todo = None ->
  hasContextProviderInPath (path todo) (nodePos (call todo)) = ((expr, true), ds) ->
  rewriteTODO cfg an fuel todo st
  = Some (tt, with_reports
                (Report cfg (plumbDiagnostic (call todo) "Plumb context"
                                             [editToReplaceCall (call todo) expr])
                        (ReportAll cfg ds (reports st)))
                (with_seen ∅ st)).
Proof.
  intros Ha Hp.
  by rewrite (rewriteTODO_run _ _ _ _ _ _ _ (todoEdits_provider _ _ _ _ _ _ _ Ha Hp)).
Qed.

(** C2 (amended).  For a request in bare-call form with a provider visible
    at its position, the fix is the substitution of the request by the
    provider expression and nothing else: no parameter is injected, no guard
    is set, no fact is exported.  For a request in the [ctx :=] / [_ =]
    form the resolver is not consulted: the fix is what
    [propagateContextThrough] returns for the enclosing procedure, followed
    by the deletion of the binding. *)
Theorem C2_request_with_visible_provider
    (cfg : Config) (an : Analysis) (fuel : nat) (todo : localCall) (st : State)
    (expr : string) (ds : list Diagnostic) :
  hasContextProviderInPath (path todo) (nodePos (call todo)) = ((expr, true), ds) ->
  (assign todo = None ->
   rewriteTODO cfg an fuel todo st
   = Some (tt, with_reports
                 (Report cfg (plumbDiagnostic (call todo) "Plumb context"
                                              [editToReplaceCall (call todo) expr])
                         (ReportAll cfg ds (reports st)))
                 (with_seen ∅ st))) /\
  (forall a edits st1,
     assign todo = Some a ->
     propagateContextThrough cfg an fuel (decl (path todo)) (with_seen ∅ st) = Some (edits, st1) ->
     rewriteTODO cfg an fuel todo st
     = Some (tt, with_reports
                   (Report cfg (plumbDiagnostic (call todo) "Plumb context"
                                                (edits ++ [editToRemoveAssign a]))
                           (reports st1))
                   st1)).
Proof.
  intros Hp. split.
  - intros Ha. by apply rewriteTODO_provider.
  - intros a edits st1 Ha Hth. apply rewriteTODO_run.
    unfold todoEdits. rewrite Ha. by rewrite (bind_run _ _ _ _ _ Hth).
Qed.

(** C2 (counterexample).  In [load] the variable [base] is a provider
    visible at the request, which has the [ctx :=] form: the fix injects a
    context parameter into [load] and deletes the binding; it does not
    substitute [base]. *)
Lemma C2_assignment_form_injects_parameter :
  fst (hasContextProviderInPath (path (request loadUnit 0))
                                (nodePos (call (request loadUnit 0)))) = ("base", true) /\
  option_map allEdits (passReports loadUnit)
  = Some [ editToPrependCtxParam loadDecl;
           {| tePos := 160; teEnd := 181; teNewText := "" |} ].
Proof. split; reflexivity. Qed.

(** C2 (instance): the two requests of [providerUnit]. *)
Lemma C2_request_with_visible_provider_witness :
  hasContextProviderInPath (path (request providerUnit 0))
                           (nodePos (call (request providerUnit 0)))
    = (("r.Context()", true), []) /\
  assign (request providerUnit 0) = None /\
  rewriteTODO providerUnit (buildCallGraph providerUnit) 0 (request providerUnit 0) initState
  = Some (tt, with_reports
                [plumbDiagnostic (call (request providerUnit 0)) "Plumb context"
                   [ {| tePos := 137; teEnd := 151; teNewText := "r.Context()" |} ]]
                initState).
Proof.
  assert (Hp : hasContextProviderInPath (path (request providerUnit 0))
                 (nodePos (call (request providerUnit 0))) = (("r.Context()", true), []))
    by reflexivity.
  split; [exact Hp|]. split; [reflexivity|].
  exact (proj1 (C2_request_with_visible_provider providerUnit (buildCallGraph providerUnit) 0
                  (request providerUnit 0) initState _ _ Hp) eq_refl).
Defined.

(** ** A request under an unnamed parameter *)

Lemma hasContextProviderParam_from_unnamed params (k i : nat) p :
  params !! i = Some p ->
  vName p = "" ->
  qualifies (vType p) = true ->
  (forall (j : nat) q, (j < i)%nat -> params !! j = Some q -> qualifies (vType q) = false) ->
  hasContextProviderParam_from k params
  = ((providerExpr ("unnamedParam" +:+ decimal (k + i)) (vType p), true),
     [DiagAt (vPos p) msgNameParam]).
Proof.
  revert k i. induction params as [|q rest IH]; intros k i Hi Hname Hq Hbefore; [done|].
  destruct i as [|i]; simpl in Hi.
  - injection Hi as ->. simpl. rewrite Hname. simpl. rewrite Nat.add_0_r.
    unfold qualifies in Hq. unfold providerExpr.
    destruct (isContextContext (vType p)); simpl; [done|].
    simpl in Hq. by rewrite Hq.
  - assert (Hrest : hasContextProviderParam_from (S k) rest
                    = ((providerExpr ("unnamedParam" +:+ decimal (k + S i)) (vType p), true),
                       [DiagAt (vPos p) msgNameParam])).
    { rewrite (IH (S k) i Hi Hname Hq).
      - by replace (S k + i)%nat with (k + S i)%nat by lia.
      - intros j q' Hj. apply (Hbefore (S j)). lia. }
    pose proof (Hbefore 0%nat q ltac:(lia) eq_refl) as Hnq.
    unfold qualifies in Hnq. apply orb_false_iff in Hnq as [H1 H2].
    simpl. rewrite H1, H2. simpl. rewrite andb_false_r. by rewrite Hrest.
Qed.

Lemma hasContextProviderField_from_unnamed fields (k i : nat) f typ :
  fields !! i = Some f ->
  fieldNames f = [] ->
  fieldType f = Some typ ->
  qualifies typ = true ->
  (forall (j : nat) g t, (j < i)%nat -> fields !! j = Some g -> fieldType g = Some t ->
     qualifies t = false) ->
  hasContextProviderField_from k fields
  = ((providerExpr ("unnamedParam" +:+ decimal (k + i)) typ, true),
     [DiagRange (fieldPos f) (fieldEnd f) msgNameParam]).
Proof.
  revert k i. induction fields as [|g rest IH]; intros k i Hi Hname Htyp Hq Hbefore; [done|].
  destruct i as [|i]; simpl in Hi.
  - injection Hi as ->. simpl. rewrite Htyp, Hname. simpl. rewrite Nat.add_0_r.
    unfold qualifies in Hq. unfold providerExpr.
    destruct (isContextContext typ); simpl; [done|].
    simpl in Hq. by rewrite Hq.
  - assert (Hrest : hasContextProviderField_from (S k) rest
                    = ((providerExpr ("unnamedParam" +:+ decimal (k + S i)) typ, true),
                       [DiagRange (fieldPos f) (fieldEnd f) msgNameParam])).
    { rewrite (IH (S k) i Hi Hname Htyp Hq).
      - by replace (S k + i)%nat with (k + S i)%nat by lia.
      - intros j g' t Hj. apply (Hbefore (S j)). lia. }
    simpl. destruct (fieldType g) as [t|] eqn:Hg; [|done].
    pose proof (Hbefore 0%nat g t ltac:(lia) eq_refl Hg) as Hnq.
    unfold qualifies in Hnq. apply orb_false_iff in Hnq as [H1 H2].
    rewrite H1, H2. simpl. rewrite andb_false_r. by rewrite Hrest.
Qed.

(** The parameters of the innermost procedure or closure decide, when they
    hold a provider. *)
Lemma providerInPath_inner rinner rest at_ :
  forallb (fun n => negb (isFuncNode n)) rinner = true ->
  exists at', providerInPath (rinner ++ rest) at_ = providerInPath rest at'.
Proof.
  revert at_. induction rinner as [|n rinner IH]; intros at_ Hno; [by exists at_|].
  simpl in Hno. apply andb_true_iff in Hno as [Hn Hno].
  destruct n; try done; simpl; by apply IH.
Qed.

Lemma hasContextProviderInPath_unnamed outer fnode inner at_ expr diag :
  forallb (fun n => negb (isFuncNode n)) inner = true ->
  UnnamedProvider fnode expr diag ->
  hasContextProviderInPath (outer ++ fnode :: inner) at_ = ((expr, true), [diag]).
Proof.
  intros Hinner Hun. unfold hasContextProviderInPath.
  rewrite rev_app_distr. simpl. rewrite <- app_assoc. simpl.
  destruct (providerInPath_inner (rev inner) (fnode :: rev outer) at_) as [at' ->].
  { rewrite forallb_forall in *. intros n Hn. apply Hinner. by apply in_rev. }
  destruct Hun as [d body i p Hi Hname Hq Hbefore|pos params scope body i f typ Hi Hname Htyp Hq Hbefore].
  - simpl. unfold hasContextProviderParam.
    by rewrite (hasContextProviderParam_from_unnamed _ 0 i p Hi Hname Hq Hbefore).
  - simpl. unfold hasContextProviderField.
    by rewrite (hasContextProviderField_from_unnamed _ 0 i f typ Hi Hname Htyp Hq Hbefore).
Qed.

(** C1 (amended).  When the first qualifying parameter of the innermost
    procedure or closure around a bare request is unnamed, the pass reports
    the naming diagnostic for that parameter and then the request's own
    diagnostic, whose fix does use the parameter as the source: it replaces
    the request by [unnamedParam<i>] (followed by [.Context()] in the
    accessor case), [i] being the index of the parameter.  Nothing else
    changes: no parameter is injected and no guard is set. *)
Theorem C1_unnamed_parameter_is_used
    (cfg : Config) (an : Analysis) (fuel : nat) (outer inner : list Node) (fnode c : Node)
    (st : State) (expr : string) (diag : Diagnostic) :
  forallb (fun n => negb (isFuncNode n)) inner = true ->
  UnnamedProvider fnode expr diag ->
  rewriteTODO cfg an fuel {| path := outer ++ fnode :: inner; call := c; assign := None |} st
  = Some (tt, with_reports
                (Report cfg (plumbDiagnostic c "Plumb context" [editToReplaceCall c expr])
                        (Report cfg diag (reports st)))
                (with_seen ∅ st)).
Proof.
  intros Hinner Hun.
  pose proof (hasContextProviderInPath_unnamed outer fnode inner (nodePos c) expr diag Hinner Hun)
    as Hp.
  exact (rewriteTODO_provider cfg an fuel
           {| path := outer ++ fnode :: inner; call := c; assign := None |}
           st expr [diag] eq_refl Hp).
Qed.

(** C1 (counterexample).  In [f], whose only parameter is an unnamed
    [*http.Request], the pass reports the naming diagnostic and also rewrites
    the request with the parameter as its source. *)
Lemma C1_unnamed_parameter_rewrites_request :
  passReports unnamedUnit
  = Some [ DiagAt 107 msgNameParam;
           plumbDiagnostic (todoCall 138) "Plumb context"
             [ {| tePos := 138; teEnd := 152; teNewText := "unnamedParam0.Context()" |} ] ].
Proof. reflexivity. Qed.

(** C1 (instance): the request of [unnamedUnit]. *)
Lemma C1_unnamed_parameter_is_used_witness :
  forallb (fun n => negb (isFuncNode n)) [unnamedStmt; unnamedUse; todoCall 138] = true /\
  UnnamedProvider unnamedFunc "unnamedParam0.Context()" (DiagAt 107 msgNameParam) /\
  rewriteTODO unnamedUnit (buildCallGraph unnamedUnit) 0
    {| path := [unnamedFile] ++ unnamedFunc :: [unnamedStmt; unnamedUse; todoCall 138];
       call := todoCall 138; assign := None |} initState
  = Some (tt, with_reports
                [ DiagAt 107 msgNameParam;
                  plumbDiagnostic (todoCall 138) "Plumb context"
                    [editToReplaceCall (todoCall 138) "unnamedParam0.Context()"] ]
                initState).
Proof.
  assert (Hinner : forallb (fun n => negb (isFuncNode n))
                     [unnamedStmt; unnamedUse; todoCall 138] = true) by reflexivity.
  assert (Hun : UnnamedProvider unnamedFunc "unnamedParam0.Context()" (DiagAt 107 msgNameParam)).
  { apply (UnnamedParam unnamedDecl [unnamedStmt] 0 {| vName := ""; vType := httpRequest; vPos := 107 |});
      [reflexivity..|]. intros j q Hj. lia. }
  split; [exact Hinner|]. split; [exact Hun|].
  exact (C1_unnamed_parameter_is_used unnamedUnit (buildCallGraph unnamedUnit) 0
           [unnamedFile] [unnamedStmt; unnamedUse; todoCall 138] unnamedFunc (todoCall 138)
           initState _ _ Hinner Hun).
Defined.

(** ** A parameter named [ctx] of another type *)

Lemma propagateContextThrough_ambiguous cfg an fuel d p st :
  fid d ∉ seen st -> fid d ∉ paramAdded st ->
  ctxParam d = Some p -> isContextContext (vType p) = false ->
  propagateContextThrough cfg an (S fuel) (Some d) st
  = Some ([], with_reports (Report cfg (DiagRange (fPos d) (fEnd d) msgNonContext) (reports st))
                (with_paramAdded ({[fid d]} ∪ paramAdded st)
                   (with_seen ({[fid d]} ∪ seen st) st))).
Proof.
  intros Hseen Hadded Hctx Htyp. cbn [propagateContextThrough].
  unfold bind at 1, get. destruct (decide (fid d ∈ seen st)); [done|].
  unfold bind at 1, modify. destruct (decide (fid d ∈ paramAdded st)); [done|].
  unfold bind at 1. unfold ctxParam in Hctx. rewrite Hctx, Htyp. done.
Qed.




(** ** Entry points *)

Lemma append_String a s1 s2 : String a s1 +:+ s2 = String a (s1 +:+ s2).
Proof. reflexivity. Qed.

Lemma append_Empty s : EmptyString +:+ s = s.
Proof. reflexivity. Qed.

Lemma prefix_app pre s :
  String.prefix pre s = true <-> exists rest, s = pre +:+ rest.
Proof.
  revert s. induction pre as [|a pre IH]; intros s; simpl.
  - split; [by exists s|]. by destruct s.
  - destruct s as [|b s]; simpl.
    + split; [done|]. by intros [rest ?].
    + destruct (Ascii.ascii_dec a b) as [->|Hne].
      * rewrite IH. split; intros [rest Hr]; exists rest;
          rewrite append_String in *; congruence.
      * split; [done|]. intros [rest Hr]. rewrite append_String in Hr. congruence.
Qed.

Lemma get_length_app pre rest :
  String.get (String.length pre) (pre +:+ rest)
  = match rest with String c _ => Some c | EmptyString => None end.
Proof.
  induction pre as [|a pre IH].
  - rewrite append_Empty. by destruct rest.
  - rewrite append_String. simpl. exact IH.
Qed.

Lemma prefixThenUpper_spec pre name :
  prefixThenUpper pre name = true <->
  exists c rest, name = pre +:+ String c rest /\ isUpperAZ c = true.
Proof.
  unfold prefixThenUpper. rewrite andb_true_iff, prefix_app. split.
  - intros [[rest ->] Hget]. rewrite get_length_app in Hget.
    destruct rest as [|c rest]; [done|]. by exists c, rest.
  - intros (c & rest & -> & Hc). split; [by eexists|]. by rewrite get_length_app.
Qed.

Lemma topLevelTestFunc_spec name :
  topLevelTestFunc name = true <->
  exists pre c rest, In pre ["Test"; "Benchmark"; "Fuzz"] /\
                     name = pre +:+ String c rest /\ isUpperAZ c = true.
Proof.
  unfold topLevelTestFunc. rewrite !orb_true_iff, !prefixThenUpper_spec. split.
  - intros [[(c & rest & H)|(c & rest & H)]|(c & rest & H)].
    + exists "Test", c, rest. split; [simpl; auto|done].
    + exists "Benchmark", c, rest. split; [simpl; auto|done].
    + exists "Fuzz", c, rest. split; [simpl; auto|done].
  - intros (pre & c & rest & Hpre & H). simpl in Hpre.
    destruct Hpre as [<-|[<-|[<-|[]]]]; eauto.
Qed.

Lemma length_append s1 s2 :
  String.length (s1 +:+ s2) = (String.length s1 + String.length s2)%nat.
Proof.
  induction s1 as [|a s1 IH]; [done|]. rewrite append_String. simpl. by rewrite IH.
Qed.

Lemma substring_all s : String.substring 0 (String.length s) s = s.
Proof. induction s as [|a s IH]; simpl; [done|by rewrite IH]. Qed.

Lemma substring_skip stem s m :
  String.substring (String.length stem) m (stem +:+ s) = String.substring 0 m s.
Proof.
  induction stem as [|a stem IH]; [done|]. rewrite append_String. simpl. exact IH.
Qed.

Lemma substring_split s (k : nat) :
  (k <= String.length s)%nat ->
  s = String.substring 0 k s +:+ String.substring k (String.length s - k) s.
Proof.
  revert k. induction s as [|a s IH]; intros k Hk; simpl in *.
  - by destruct k.
  - destruct k as [|k]; simpl.
    + rewrite append_Empty. by rewrite substring_all.
    + rewrite append_String. f_equal. apply IH. lia.
Qed.

Lemma HasSuffix_spec s suf :
  HasSuffix s suf = true <-> exists stem, s = stem +:+ suf.
Proof.
  unfold HasSuffix. rewrite andb_true_iff, Nat.leb_le, String.eqb_eq. split.
  - intros [Hle Hsub]. exists (String.substring 0 (String.length s - String.length suf) s).
    pose proof (substring_split s (String.length s - String.length suf) ltac:(lia)) as H.
    replace (String.length s - (String.length s - String.length suf))%nat
      with (String.length suf) in H by lia.
    by rewrite Hsub in H.
  - intros [stem ->]. rewrite length_append. split; [lia|].
    replace (String.length stem + String.length suf - String.length suf)%nat
      with (String.length stem) by lia.
    by rewrite substring_skip, substring_all.
Qed.

Lemma isMainOrInit_spec d :
  isMainOrInit d = true <->
  (fPkgName d = "main" /\ fName d = "main") \/ (fName d = "init" /\ fHasRecv d = false).
Proof.
  unfold isMainOrInit.
  destruct (String.eqb_spec (fPkgName d) "main") as [Hp|Hp];
    destruct (String.eqb_spec (fName d) "main") as [Hm|Hm];
    destruct (String.eqb_spec (fName d) "init") as [Hi|Hi];
    destruct (fHasRecv d); simpl; split; try done; try tauto; try congruence.
  all: try (intros [[? ?]|[? ?]]; congruence).
Qed.

(** The classification of the code is the one of the specification. *)
Lemma isEntry_EntryPoint cfg d :
  isMainOrInit d || isTopLevelTestFunc cfg d = true <-> EntryPoint cfg d.
Proof.
  unfold EntryPoint, isTopLevelTestFunc.
  rewrite orb_true_iff, andb_true_iff, HasSuffix_spec, topLevelTestFunc_spec, isMainOrInit_spec.
  tauto.
Qed.

(** ** A request in an entry point *)

Lemma propagateContextThrough_entry cfg an fuel d st :
  isMainOrInit d || isTopLevelTestFunc cfg d = true ->
  exists es st',
    propagateContextThrough cfg an (S fuel) (Some d) st = Some (es, st') /\
    Forall notParamText es /\
    facts st' = facts st /\
    (fid d ∉ seen st -> fid d ∉ paramAdded st -> ctxParam d = None ->
     exists imp, es = editToAddContextVarDecl d "context.Background()" :: imp).
Proof.
  intros Hentry. cbn [propagateContextThrough].
  unfold bind at 1, get. destruct (decide (fid d ∈ seen st)).
  { eexists [], _. repeat split; [constructor|done]. }
  unfold bind at 1, modify. destruct (decide (fid d ∈ paramAdded st)).
  { eexists [], _. repeat split; [constructor|done]. }
  unfold bind at 1. unfold ctxParam.
  destruct (find _ (fParams d)) as [param|].
  { destruct (isContextContext (vType param)); eexists [], _;
      (repeat split; [constructor|done]). }
  rewrite Hentry.
  set (st2 := with_paramAdded _ _).
  destruct (editToImportContext_run cfg (fNamePos d) st2)
    as (imp & st3 & Himp & _ & _ & _ & Hf & _ & Haux).
  rewrite (bind_run _ _ _ _ _ Himp). eexists _, _. split; [done|].
  repeat split.
  - constructor; [done|]. eapply Forall_impl; [exact Haux|]. by intros e [_ He].
  - by rewrite Hf.
  - intros _ _ _. by exists imp.
Qed.

(** C4 (amended).  For a request in an entry-point procedure (no provider
    being visible, for the bare form), the fix never contains the edit that
    adds a parameter, and no fact is exported.  When the procedure is
    reached for the first time in the pass and declares no parameter named
    [ctx], the fix starts with the declaration of the local root context,
    [ctx := context.Background();], right after the opening brace of the
    body.  The entry points are [main] in package [main], an [init] without
    receiver, and in a file whose name ends in [_test.go] a function named
    [Test], [Benchmark] or [Fuzz] followed by a letter of [A-Z]. *)
Theorem C4_entry_point_request
    (cfg : Config) (an : Analysis) (fuel : nat) (todo : localCall) (d : FuncDecl) (st : State) :
  decl (path todo) = Some d ->
  EntryPoint cfg d ->
  (assign todo = None ->
   snd (fst (hasContextProviderInPath (path todo) (nodePos (call todo)))) = false) ->
  exists edits st',
    todoEdits cfg an (S fuel) todo (with_seen ∅ st) = Some (edits, st') /\
    rewriteTODO cfg an (S fuel) todo st
    = Some (tt, with_reports (Report cfg (plumbDiagnostic (call todo) "Plumb context" edits)
                                     (reports st')) st') /\
    Forall notParamText edits /\
    facts st' = facts st /\
    (fid d ∉ paramAdded st -> ctxParam d = None ->
     exists rest, edits = editToAddContextVarDecl d "context.Background()" :: rest).
Proof.
  intros Hd Hentry Hnone. apply isEntry_EntryPoint in Hentry.
  assert (Hedits : exists edits st',
    todoEdits cfg an (S fuel) todo (with_seen ∅ st) = Some (edits, st') /\
    Forall notParamText edits /\ facts st' = facts st /\
    (fid d ∉ paramAdded st -> ctxParam d = None ->
     exists rest, edits = editToAddContextVarDecl d "context.Background()" :: rest)).
  { unfold todoEdits. rewrite Hd. destruct (assign todo) as [a|].
    - destruct (propagateContextThrough_entry cfg an fuel d (with_seen ∅ st) Hentry)
        as (es & st' & Hth & Htext & Hfacts & Hdecl).
      rewrite (bind_run _ _ _ _ _ Hth). eexists _, _. split; [done|]. repeat split.
      + apply Forall_app. split; [done|]. by repeat constructor.
      + done.
      + intros Hadded Hctx. destruct (Hdecl (not_elem_of_empty _) Hadded Hctx) as [imp ->].
        by eexists.
    - specialize (Hnone eq_refl).
      rewrite (bind_run _ _ _ _ _ (resolve_run _ _ _)).
      destruct (fst (hasContextProviderInPath _ _)) as [expr ok]. simpl in Hnone. subst ok.
      set (s := with_reports _ _).
      destruct (propagateContextThrough_entry cfg an fuel d s Hentry)
        as (es & st' & Hth & Htext & Hfacts & Hdecl).
      rewrite (bind_run _ _ _ _ _ Hth). eexists _, _. split; [done|]. repeat split.
      + apply Forall_app. split; [done|]. by repeat constructor.
      + done.
      + intros Hadded Hctx. destruct (Hdecl (not_elem_of_empty _) Hadded Hctx) as [imp ->].
        by eexists. }
  destruct Hedits as (edits & st' & Hrun & Htext & Hfacts & Hdecl).
  exists edits, st'. split; [done|]. split; [by apply rewriteTODO_run|]. done.
Qed.

(** C4 (counterexample).  In package [main], the method [main] declares
    [ctx string]: its request gets no root-context declaration (the ambiguity
    is reported and the request replaced by [ctx]).  In the function [main]
    the fix of the first request declares the root context, the fix of the
    second request does not. *)
Lemma C4_entry_point_without_declaration :
  isMainOrInit methodMain = true /\ isMainOrInit funcMain = true /\
  map (fun t => snd (fst (hasContextProviderInPath (path t) (nodePos (call t)))))
      (todos (buildCallGraph mainUnit)) = [false; false; false] /\
  passReports mainUnit
  = Some [ DiagRange 100 170 msgNonContext;
           plumbDiagnostic (todoCall 146) "Plumb context"
             [ {| tePos := 146; teEnd := 160; teNewText := "ctx" |} ];
           plumbDiagnostic (todoCall 230) "Plumb context"
             [ insertAt 213 "ctx := context.Background();";
               {| tePos := 230; teEnd := 244; teNewText := "ctx" |} ];
           plumbDiagnostic (todoCall 260) "Plumb context"
             [ {| tePos := 260; teEnd := 274; teNewText := "ctx" |} ] ].
Proof. repeat split; reflexivity. Qed.

(** C4 (instance): the first request of the function [main] of [mainUnit]. *)
Lemma C4_entry_point_request_witness :
  decl (path (request mainUnit 1)) = Some funcMain /\
  EntryPoint mainUnit funcMain /\
  snd (fst (hasContextProviderInPath (path (request mainUnit 1))
                                     (nodePos (call (request mainUnit 1))))) = false /\
  exists edits st',
    todoEdits mainUnit (buildCallGraph mainUnit) 1 (request mainUnit 1) (with_seen ∅ initState)
      = Some (edits, st') /\
    Forall notParamText edits /\
    exists rest, edits = editToAddContextVarDecl funcMain "context.Background()" :: rest.
Proof.
  assert (Hd : decl (path (request mainUnit 1)) = Some funcMain) by reflexivity.
  assert (Hentry : EntryPoint mainUnit funcMain) by (left; split; reflexivity).
  assert (Hnone : snd (fst (hasContextProviderInPath (path (request mainUnit 1))
                    (nodePos (call (request mainUnit 1))))) = false) by reflexivity.
  split; [exact Hd|]. split; [exact Hentry|]. split; [exact Hnone|].
  destruct (C4_entry_point_request mainUnit (buildCallGraph mainUnit) 0 (request mainUnit 1)
              funcMain initState Hd Hentry (fun _ => Hnone))
    as (edits & st' & Hrun & _ & Htext & _ & Hdecl).
  exists edits, st'. split; [exact Hrun|]. split; [exact Htext|].
  apply Hdecl; [simpl; apply not_elem_of_empty|reflexivity].
Defined.

(** ** The walk over the tree *)

(** Induction over a tree: a property holds of every node when it holds of
    a node as soon as it holds of the nodes directly below it. *)
Lemma Node_children_ind (P : Node -> Prop) :
  (forall n, Forall P (children n) -> P n) -> forall n, P n.
Proof.
  intros step. fix IH 1. intros n. apply step.
  assert (all : forall l, (fix go (l : list Node) : Prop :=
                             match l with [] => True | c :: r => P c /\ go r end) l ->
                          Forall P l).
  { induction l as [|c r IHl]; [constructor|]. intros [Hc Hr]. constructor; auto. }
  destruct n as [p imports decls|p tok lparen specs|d body|p params scope body
                |lhs rhs|fn lparen args rparen|x sel|id|p e scope cs]; simpl.
  - apply all. induction decls as [|c r IHr]; [exact I|]. split; [apply IH|exact IHr].
  - apply all. induction specs as [|c r IHr]; [exact I|]. split; [apply IH|exact IHr].
  - apply all. induction body as [|c r IHr]; [exact I|]. split; [apply IH|exact IHr].
  - apply all. induction body as [|c r IHr]; [exact I|]. split; [apply IH|exact IHr].
  - apply Forall_app. split.
    + apply all. induction lhs as [|c r IHr]; [exact I|]. split; [apply IH|exact IHr].
    + apply all. induction rhs as [|c r IHr]; [exact I|]. split; [apply IH|exact IHr].
  - constructor; [apply IH|].
    apply all. induction args as [|c r IHr]; [exact I|]. split; [apply IH|exact IHr].
  - constructor; [apply IH|constructor].
  - constructor.
  - apply all. induction cs as [|c r IHr]; [exact I|]. split; [apply IH|exact IHr].
Qed.

Lemma walkList_app cfg stack l1 l2 a :
  walkList cfg stack (l1 ++ l2) a = walkList cfg stack l2 (walkList cfg stack l1 a).
Proof. apply fold_left_app. Qed.

Lemma walkList_cons cfg stack c l a :
  walkList cfg stack (c :: l) a = walkList cfg stack l (walk cfg stack c a).
Proof. done. Qed.

(** The walk of a node: the callback, then the nodes below unless the
    callback declines. *)
Lemma walk_eq cfg stack n a :
  walk cfg stack n a
  = if fst (visit cfg (stack ++ [n]) n a)
    then walkList cfg (stack ++ [n]) (children n) (snd (visit cfg (stack ++ [n]) n a))
    else snd (visit cfg (stack ++ [n]) n a).
Proof.
  assert (loop : forall stack' l a',
    (fix walkList (l : list Node) (a : Analysis) {struct l} : Analysis :=
       match l with
       | [] => a
       | c :: rest => walkList rest (walk cfg stack' c a)
       end) l a' = walkList cfg stack' l a').
  { intros stack' l. induction l as [|c r IHl]; intros a'; [done|]. apply IHl. }
  destruct n; cbn [walk children];
    destruct (visit cfg _ _ a) as [proceed a']; cbn [fst snd];
    destruct proceed; cbn [negb]; rewrite ?loop, ?walkList_app; done.
Qed.

Lemma inOrder_from ok lo lo' hi l :
  lo' <= lo -> inOrder ok lo hi l = true -> inOrder ok lo' hi l = true.
Proof.
  intros Hle. destruct l as [|c r]; simpl.
  - rewrite !Z.leb_le. lia.
  - rewrite !andb_true_iff, !Z.leb_le. intros [[H1 H2] H3]. repeat split; [lia|done..].
Qed.

Lemma inOrder_app ok lo hi l1 l2 :
  inOrder ok lo hi (l1 ++ l2) = true <->
  exists mid, inOrder ok lo mid l1 = true /\ inOrder ok mid hi l2 = true.
Proof.
  revert lo. induction l1 as [|c r IH]; intros lo; simpl.
  - split.
    + intros H. exists lo. split; [by apply Z.leb_le|done].
    + intros (mid & Hle & H). apply Z.leb_le in Hle. by eapply inOrder_from.
  - rewrite !andb_true_iff, IH. split.
    + intros [[H1 H2] (mid & H3 & H4)]. exists mid. by rewrite H1, H2, H3.
    + intros (mid & [[H1 H2]%andb_true_iff H3]%andb_true_iff & H4). eauto.
Qed.

(** The positions of a tree, by the nodes directly below each node. *)
Lemma wfNode_eq n : wfNode n = inOrder wfNode (nodePos n) (nodeEnd n) (children n).
Proof.
  assert (loop : forall hi l lo,
    (fix ordered (lo : Pos) (l : list Node) (andThen : Pos -> bool) {struct l} : bool :=
       match l with
       | [] => andThen lo
       | c :: rest => (lo <=? nodePos c)%Z && wfNode c && ordered (nodeEnd c) rest andThen
       end) lo l (fun lo => (lo <=? hi)%Z) = inOrder wfNode lo hi l).
  { intros hi l. induction l as [|c r IHl]; intros lo; [done|]. simpl. by rewrite IHl. }
  assert (loop2 : forall hi l1 l2 lo,
    (fix ordered (lo : Pos) (l : list Node) (andThen : Pos -> bool) {struct l} : bool :=
       match l with
       | [] => andThen lo
       | c :: rest => (lo <=? nodePos c)%Z && wfNode c && ordered (nodeEnd c) rest andThen
       end) lo l1 (fun lo => inOrder wfNode lo hi l2) = inOrder wfNode lo hi (l1 ++ l2)).
  { intros hi l1 l2. induction l1 as [|c r IHl]; intros lo; [done|]. simpl. by rewrite IHl. }
  assert (ext : forall l lo (k1 k2 : Pos -> bool), (forall x, k1 x = k2 x) ->
    (fix ordered (lo : Pos) (l : list Node) (andThen : Pos -> bool) {struct l} : bool :=
       match l with
       | [] => andThen lo
       | c :: rest => (lo <=? nodePos c)%Z && wfNode c && ordered (nodeEnd c) rest andThen
       end) lo l k1
    = (fix ordered (lo : Pos) (l : list Node) (andThen : Pos -> bool) {struct l} : bool :=
       match l with
       | [] => andThen lo
       | c :: rest => (lo <=? nodePos c)%Z && wfNode c && ordered (nodeEnd c) rest andThen
       end) lo l k2).
  { intros l. induction l as [|c r IHl]; intros lo k1 k2 Hk; [apply Hk|].
    by rewrite (IHl _ k1 k2 Hk). }
  destruct n; cbn [wfNode children]; rewrite ?loop; try done.
  (* an assignment: the left-hand sides, then the right-hand sides *)
  rewrite <- loop2. apply ext. intros x. apply loop.
Qed.

(** ** What the walk records *)

Lemma visit_spec cfg stack n a :
  (fst (visit cfg stack n a) = true /\ todos (snd (visit cfg stack n a)) = todos a) \/
  (fst (visit cfg stack n a) = false /\
   exists t, todos (snd (visit cfg stack n a)) = todos a ++ [t] /\ Recorded stack n t).
Proof.
  destruct n as [p imports decls|p tok lparen specs|d body|p params scope body
                |lhs rhs|fn lparen args rparen|x sel|id|p e scope cs];
    try (by left).
  - (* an assignment *)
    cbn [visit]. unfold walkAssignStmt.
    destruct lhs as [|l [|]]; try (by left).
    destruct rhs as [|r [|]]; try (by left).
    destruct l as [| | | | | | |id|]; try (by left).
    destruct (String.eqb (idName id) "ctx" || String.eqb (idName id) "_") eqn:Hname;
      [|by left].
    destruct r as [| | | | |fn lp args rp| | |]; try (by left).
    destruct fn as [| | | | | |x sel| |]; try (by left).
    destruct (isContextTODO (idObj sel)); [|by left].
    right. split; [done|]. eexists. split; [done|].
    eapply RecordedAssign; try done.
    apply orb_true_iff in Hname as [H|H]; apply String.eqb_eq in H; auto.
  - (* a call *)
    cbn [visit]. unfold walkCallExpr.
    assert (Hrest : forall ident : Ident,
      (let r := match idObj ident with
         | None => (true, a)
         | Some called =>
             if isContextTODO (Some called)
             then (false, with_todos (todos a ++ [ {| path := forStack stack;
                      call := NCallExpr fn lparen args rparen; assign := None |} ]) a)
             else
               let here := {| path := forStack stack;
                              call := NCallExpr fn lparen args rparen; assign := None |} in
               let a1 := if isLocal cfg (oPkgPath called)
                         then with_callers
                                (<[oid called := default [] (callers a !! oid called) ++ [here]]>
                                   (callers a)) a
                         else a in
               let a2 := if decide (oid called ∈ ImportedFacts cfg)
                         then with_transitives (transitives a1 ++ [here]) a1
                         else a1 in
               (true, a2)
         end in
       (fst r = true /\ todos (snd r) = todos a) \/
       (fst r = false /\
        exists t, todos (snd r) = todos a ++ [t] /\
                  Recorded stack (NCallExpr fn lparen args rparen) t))).
    { intros ident. destruct (idObj ident) as [called|]; [|by left].
      destruct (isContextTODO (Some called)).
      - right. split; [done|]. eexists. split; [done|]. by eapply RecordedCall.
      - left. split; [done|].
        destruct (isLocal cfg (oPkgPath called)), (decide (oid called ∈ ImportedFacts cfg)); done. }
    destruct fn as [| | | | | |x sel|id|]; try (by left); apply Hrest.
Qed.

Lemma Recorded_range stack n t : Recorded stack n t -> todoRange t = (nodePos n, nodeEnd n).
Proof.
  intros [fn lp args rp -> _ Hc Ha|id x sel lp args rp -> _ _ Hc Ha];
    unfold todoRange; rewrite Ha.
  - by rewrite Hc.
  - done.
Qed.

Lemma Recorded_removable stack n t a :
  Recorded stack n t -> assign t = Some a -> removableAssign a /\ a = n.
Proof.
  intros [fn lp args rp -> _ _ Ha|id x sel lp args rp -> Hname _ _ Ha] Hsome.
  - congruence.
  - rewrite Ha in Hsome. injection Hsome as <-. split; [|done]. by eexists _, _.
Qed.

(** ** Ranges that follow each other *)

Lemma chain_le lo hi rs : chain lo hi rs -> lo <= hi.
Proof.
  revert lo. induction rs as [|[a b] rs IH]; intros lo; simpl; [done|].
  intros (H1 & H2 & H3). apply IH in H3. lia.
Qed.

Lemma chain_from lo lo' hi rs : lo' <= lo -> chain lo hi rs -> chain lo' hi rs.
Proof.
  intros Hle. destruct rs as [|[a b] rs]; simpl; [lia|].
  intros (H1 & H2 & H3). repeat split; [lia|done..].
Qed.

Lemma chain_upto lo hi hi' rs : hi <= hi' -> chain lo hi rs -> chain lo hi' rs.
Proof.
  intros Hle. revert lo. induction rs as [|[a b] rs IH]; intros lo; simpl; [lia|].
  intros (H1 & H2 & H3). repeat split; [done..|]. by apply IH.
Qed.

Lemma chain_app lo mid hi rs1 rs2 :
  chain lo mid rs1 -> chain mid hi rs2 -> chain lo hi (rs1 ++ rs2).
Proof.
  revert lo. induction rs1 as [|[a b] rs1 IH]; intros lo; simpl.
  - intros Hle H. by eapply chain_from.
  - intros (H1 & H2 & H3) H. repeat split; [done..|]. by apply IH.
Qed.

Lemma wfNode_le n : wfNode n = true -> nodePos n <= nodeEnd n.
Proof.
  induction n as [n IH] using Node_children_ind. rewrite wfNode_eq.
  generalize (nodePos n) as lo. generalize (nodeEnd n) as hi.
  induction IH as [|c r Hc _ IHr]; intros hi lo; simpl.
  - by rewrite Z.leb_le.
  - rewrite !andb_true_iff, Z.leb_le. intros [[H1 H2] H3].
    apply Hc in H2. apply IHr in H3. lia.
Qed.

Section WalkTodos.
Variable cfg : Config.

Lemma walkList_chain l :
  Forall (fun c => forall stack a, wfNode c = true ->
            exists new, todos (walk cfg stack c a) = todos a ++ new /\
                        chain (nodePos c) (nodeEnd c) (map todoRange new)) l ->
  forall lo hi stack a, inOrder wfNode lo hi l = true ->
    exists new, todos (walkList cfg stack l a) = todos a ++ new /\
                chain lo hi (map todoRange new).
Proof.
  induction 1 as [|c r Hc _ IHr]; intros lo hi stack a; cbn [inOrder].
  - rewrite Z.leb_le. intros Hle. exists []. by rewrite app_nil_r.
  - rewrite !andb_true_iff, Z.leb_le. intros [[H1 H2] H3].
    destruct (Hc stack a H2) as (new1 & E1 & C1).
    destruct (IHr (nodeEnd c) hi stack (walk cfg stack c a) H3) as (new2 & E2 & C2).
    exists (new1 ++ new2). rewrite walkList_cons, E2, E1, <- app_assoc. split; [done|].
    rewrite map_app. eapply chain_app; [|exact C2]. by eapply chain_from.
Qed.

(** The requests recorded below a node of a parsed tree replace ranges that
    follow each other between the start and the end of the node. *)
Lemma walk_chain n stack a :
  wfNode n = true ->
  exists new, todos (walk cfg stack n a) = todos a ++ new /\
              chain (nodePos n) (nodeEnd n) (map todoRange new).
Proof.
  revert stack a. induction n as [n IH] using Node_children_ind. intros stack a Hwf.
  rewrite walk_eq.
  destruct (visit_spec cfg (stack ++ [n]) n a) as [[-> Htodos]|[-> (t & Htodos & Hrec)]].
  - rewrite wfNode_eq in Hwf.
    destruct (walkList_chain (children n) IH (nodePos n) (nodeEnd n) (stack ++ [n])
                (snd (visit cfg (stack ++ [n]) n a)) Hwf) as (new & E & C).
    exists new. by rewrite E, Htodos.
  - exists [t]. split; [done|]. simpl. rewrite (Recorded_range _ _ _ Hrec).
    apply wfNode_le in Hwf. lia.
Qed.

Lemma walkList_recorded l :
  Forall (fun c => forall stack a,
            exists new, todos (walk cfg stack c a) = todos a ++ new /\
                        Forall (fun t => exists stack' n', Recorded stack' n' t) new) l ->
  forall stack a,
    exists new, todos (walkList cfg stack l a) = todos a ++ new /\
                Forall (fun t => exists stack' n', Recorded stack' n' t) new.
Proof.
  induction 1 as [|c r Hc _ IHr]; intros stack a.
  - exists []. by rewrite app_nil_r.
  - destruct (Hc stack a) as (new1 & E1 & R1).
    destruct (IHr stack (walk cfg stack c a)) as (new2 & E2 & R2).
    exists (new1 ++ new2). rewrite walkList_cons, E2, E1, <- app_assoc. split; [done|].
    by apply Forall_app.
Qed.

(** Every request of the walk was recorded by its callback at some node. *)
Lemma walk_recorded n stack a :
  exists new, todos (walk cfg stack n a) = todos a ++ new /\
              Forall (fun t => exists stack' n', Recorded stack' n' t) new.
Proof.
  revert stack a. induction n as [n IH] using Node_children_ind. intros stack a.
  rewrite walk_eq.
  destruct (visit_spec cfg (stack ++ [n]) n a) as [[-> Htodos]|[-> (t & Htodos & Hrec)]].
  - destruct (walkList_recorded (children n) IH (stack ++ [n])
                (snd (visit cfg (stack ++ [n]) n a))) as (new & E & R).
    exists new. by rewrite E, Htodos.
  - exists [t]. split; [done|]. repeat constructor. eauto.
Qed.

Lemma buildCallGraph_recorded t :
  In t (todos (buildCallGraph cfg)) -> exists stack n, Recorded stack n t.
Proof.
  unfold buildCallGraph. change (fold_left _ (Files cfg) emptyAnalysis)
    with (walkList cfg [] (Files cfg) emptyAnalysis).
  destruct (walkList_recorded (Files cfg)
              ltac:(apply Forall_forall; intros; apply walk_recorded) [] emptyAnalysis)
    as (new & E & R).
  rewrite E. simpl. intros Hin. rewrite Forall_forall in R. apply R.
  by apply list_elem_of_In.
Qed.

End WalkTodos.

(** ** Ranges that share no position *)

Lemma chain_within lo hi rs : chain lo hi rs -> Forall (within lo hi) rs.
Proof.
  revert lo. induction rs as [|[a b] rs IH]; intros lo; simpl; [constructor|].
  intros (H1 & H2 & H3). pose proof (chain_le _ _ _ H3). constructor.
  - unfold within. simpl. lia.
  - eapply Forall_impl; [apply IH, H3|]. intros r (? & ? & ?). unfold within. lia.
Qed.

Lemma chain_disjoint lo hi rs : chain lo hi rs -> ForallOrdPairs disjoint rs.
Proof.
  revert lo. induction rs as [|[a b] rs IH]; intros lo; simpl; [constructor|].
  intros (H1 & H2 & H3). constructor; [|by eapply IH].
  eapply Forall_impl; [apply chain_within, H3|]. intros r (? & ? & ?). by left.
Qed.

Lemma ForallOrdPairs_app {A} (R : A -> A -> Prop) l1 l2 :
  ForallOrdPairs R l1 -> ForallOrdPairs R l2 ->
  (forall x y, In x l1 -> In y l2 -> R x y) ->
  ForallOrdPairs R (l1 ++ l2).
Proof.
  induction 1 as [|x l1 Hx _ IH]; intros H2 Hcross; [done|].
  simpl. constructor.
  - apply Forall_app. split; [done|]. apply List.Forall_forall. intros y Hy.
    apply Hcross; [by left|done].
  - apply IH; [done|]. intros x' y Hx' Hy. apply Hcross; [by right|done].
Qed.

Lemma ForallOrdPairs_sublist {A} (R : A -> A -> Prop) (l1 l2 : list A) :
  sublist l1 l2 -> ForallOrdPairs R l2 -> ForallOrdPairs R l1.
Proof.
  induction 1 as [|x l1 l2 Hsub IH|x l1 l2 Hsub IH]; intros H2; [done|..].
  - inversion H2 as [|? ? Hx Hrest]; subst. constructor; [|by apply IH].
    apply List.Forall_forall. intros y Hy. rewrite List.Forall_forall in Hx. apply Hx.
    apply list_elem_of_In. eapply sublist_subseteq; [exact Hsub|]. by apply list_elem_of_In.
  - inversion H2; subst. by apply IH.
Qed.

Lemma apart_disjoint f rest r1 r2 g :
  forallb (fun g => (nodeEnd f <=? nodePos g)%Z || (nodeEnd g <=? nodePos f)%Z) rest = true ->
  In g rest ->
  within (nodePos f) (nodeEnd f) r1 -> within (nodePos g) (nodeEnd g) r2 ->
  disjoint r1 r2.
Proof.
  intros Hap Hg (A1 & A2 & A3) (B1 & B2 & B3).
  rewrite forallb_forall in Hap. specialize (Hap g Hg).
  apply orb_true_iff in Hap as [H|H]; apply Z.leb_le in H; unfold disjoint; lia.
Qed.

Section Ranges.
Variable cfg : Config.

(** The requests of several trees that share no position replace ranges
    that share no position. *)
Lemma walkList_disjoint fs a :
  forallb wfNode fs = true -> apart fs = true ->
  exists new, todos (walkList cfg [] fs a) = todos a ++ new /\
    ForallOrdPairs disjoint (map todoRange new) /\
    Forall (fun r => exists f, In f fs /\ within (nodePos f) (nodeEnd f) r) (map todoRange new).
Proof.
  revert a. induction fs as [|f fs IH]; intros a Hwf Hap.
  - exists []. rewrite app_nil_r. repeat split; constructor.
  - simpl in Hwf, Hap. apply andb_true_iff in Hwf as [Hf Hfs].
    apply andb_true_iff in Hap as [Hcross Hap].
    destruct (walk_chain cfg f [] a Hf) as (new1 & E1 & C1).
    destruct (IH (walk cfg [] f a) Hfs Hap) as (new2 & E2 & D2 & W2).
    exists (new1 ++ new2). rewrite walkList_cons, E2, E1, <- app_assoc. split; [done|].
    rewrite map_app. split.
    + apply ForallOrdPairs_app; [by eapply chain_disjoint|done|].
      intros r1 r2 H1 H2.
      pose proof (chain_within _ _ _ C1) as W1. rewrite List.Forall_forall in W1, W2.
      destruct (W2 r2 H2) as (g & Hg & Wg).
      apply (apart_disjoint f fs r1 r2 g); [done|done| |done]. by apply W1.
    + apply Forall_app. split.
      * eapply Forall_impl; [apply (chain_within _ _ _ C1)|]. intros r Hr. exists f.
        split; [by left|done].
      * eapply Forall_impl; [exact W2|]. intros r (g & Hg & Wg). exists g.
        split; [by right|done].
Qed.

Lemma buildCallGraph_disjoint :
  wfFiles cfg = true ->
  ForallOrdPairs disjoint (map todoRange (todos (buildCallGraph cfg))).
Proof.
  unfold wfFiles, buildCallGraph. change (fold_left _ (Files cfg) emptyAnalysis)
    with (walkList cfg [] (Files cfg) emptyAnalysis).
  intros [Hwf Hap]%andb_true_iff.
  destruct (walkList_disjoint (Files cfg) emptyAnalysis Hwf Hap) as (new & E & D & _).
  by rewrite E.
Qed.

End Ranges.

(** ** The edits of the pass *)

Lemma rangesOf_app es1 es2 : rangesOf (es1 ++ es2) = rangesOf es1 ++ rangesOf es2.
Proof. apply omap_app. Qed.

Lemma rangesOf_insertions es : Forall isInsertion es -> rangesOf es = [].
Proof.
  induction 1 as [|e es He _ IH]; [done|]. unfold rangesOf in *. simpl.
  destruct (decide (tePos e = teEnd e)); [done|]. by destruct n.
Qed.

Lemma rangesOf_single e : sublist (rangesOf [e]) [(tePos e, teEnd e)].
Proof.
  unfold rangesOf. simpl. destruct (decide (tePos e = teEnd e)); [apply sublist_nil_l|done].
Qed.

(** The fix of a request: insertions, then the one edit that replaces the
    range of the request. *)
Lemma todoEdits_shape cfg an fuel todo st es st' :
  todoEdits cfg an fuel todo st = Some (es, st') ->
  exists ins own, es = ins ++ [own] /\ Forall isInsertion ins /\
    (tePos own, teEnd own) = todoRange todo /\
    match assign todo with
    | Some a => own = editToRemoveAssign a
    | None => exists expr, own = editToReplaceCall (call todo) expr
    end.
Proof.
  unfold todoEdits, todoRange. destruct (assign todo) as [a|].
  - intros (e & s1 & Hth & [= <- <-])%bind_Some.
    apply propagateContextThrough_Grows in Hth as [_ I]. by eexists _, _.
  - rewrite (bind_run _ _ _ _ _ (resolve_run _ _ _)).
    destruct (fst (hasContextProviderInPath _ _)) as [expr ok]. destruct ok.
    + intros [= <- <-]. exists [], (editToReplaceCall (call todo) expr).
      repeat split; [constructor|by eexists].
    + intros (e & s1 & Hth & [= <- <-])%bind_Some.
      apply propagateContextThrough_Grows in Hth as [_ I].
      eexists _, _. repeat split; [done|by eexists].
Qed.

Lemma propagateContextForCall_insertions cfg an fuel caller st es st' :
  propagateContextForCall cfg an fuel caller st = Some (es, st') -> Forall isInsertion es.
Proof.
  unfold propagateContextForCall, propagateContextForCall_with.
  rewrite (bind_run _ _ _ _ _ (resolve_run _ _ _)).
  destruct (fst (hasContextProviderInPath _ _)) as [expr ok]. destruct ok.
  - intros [= <- <-]. by repeat constructor.
  - intros (e & s1 & Hth & [= <- <-])%bind_Some.
    apply propagateContextThrough_Grows in Hth as [_ I].
    apply Forall_app. split; [done|by repeat constructor].
Qed.

Section PassRanges.
Variable cfg : Config.
Variable an : Analysis.
Variable fuel : nat.

Lemma rewriteTODO_ranges todo st st' done_ :
  sublist (rangesOf (allEdits (reports st))) done_ ->
  rewriteTODO cfg an fuel todo st = Some (tt, st') ->
  sublist (rangesOf (allEdits (reports st'))) (done_ ++ [todoRange todo]).
Proof.
  intros Hsub. unfold rewriteTODO. unfold bind at 1, modify.
  intros (es & st1 & Hes & [= <-])%bind_Some.
  pose proof (todoEdits_Grows _ _ _ _ _ _ _ Hes) as [_ _ _ _ Ge].
  apply todoEdits_shape in Hes as (ins & own & -> & Hins & Hrange & _).
  cbn [reports with_reports].
  destruct (allEdits_Report_plumb cfg (call todo) "Plumb context" (ins ++ [own]) (reports st1))
    as [-> | ->]; rewrite Ge; cbn [reports with_seen].
  - by apply sublist_inserts_r.
  - rewrite !rangesOf_app, (rangesOf_insertions ins Hins). simpl.
    apply sublist_app; [done|]. rewrite <- Hrange. apply rangesOf_single.
Qed.

Lemma forEach_rewriteTODO_ranges l st st' done_ :
  sublist (rangesOf (allEdits (reports st))) done_ ->
  forEach (rewriteTODO cfg an fuel) l st = Some (tt, st') ->
  sublist (rangesOf (allEdits (reports st'))) (done_ ++ map todoRange l).
Proof.
  revert st done_. induction l as [|t l IH]; intros st done_ Hsub; simpl.
  - intros [= <-]. by rewrite app_nil_r.
  - intros ([] & st1 & H1 & H2)%bind_Some.
    pose proof (rewriteTODO_ranges t st st1 done_ Hsub H1) as Hsub1.
    specialize (IH st1 (done_ ++ [todoRange t]) Hsub1 H2).
    by rewrite <- app_assoc in IH.
Qed.

Lemma rewriteTransitives_ranges todo st st' :
  rewriteTransitives cfg an fuel todo st = Some (tt, st') ->
  rangesOf (allEdits (reports st')) = rangesOf (allEdits (reports st)).
Proof.
  unfold rewriteTransitives. unfold bind at 1, modify.
  intros (es & st1 & Hes & [= <-])%bind_Some.
  pose proof (propagateContextForCall_Grows _ _ _ _ _ _ _ Hes) as [_ _ _ _ Ge].
  apply propagateContextForCall_insertions in Hes.
  cbn [reports with_reports].
  destruct (allEdits_Report_plumb cfg (call todo) "Continue plumbing context" es (reports st1))
    as [-> | ->]; rewrite Ge; cbn [reports with_seen]; [done|].
  by rewrite rangesOf_app, (rangesOf_insertions es Hes), app_nil_r.
Qed.

Lemma forEach_rewriteTransitives_ranges l st st' :
  forEach (rewriteTransitives cfg an fuel) l st = Some (tt, st') ->
  rangesOf (allEdits (reports st')) = rangesOf (allEdits (reports st)).
Proof.
  revert st. induction l as [|t l IH]; intros st; simpl.
  - by intros [= <-].
  - intros ([] & st1 & H1 & H2)%bind_Some.
    rewrite (IH _ H2). by eapply rewriteTransitives_ranges.
Qed.

(** The edits of the pass that are not insertions replace ranges of
    requests, each at most once and in the order of the requests. *)
Lemma buildDiagnostics_ranges st :
  buildDiagnostics cfg an fuel initState = Some (tt, st) ->
  sublist (rangesOf (allEdits (reports st))) (map todoRange (todos an)).
Proof.
  unfold buildDiagnostics. intros ([] & st1 & H1 & H2)%bind_Some.
  rewrite (forEach_rewriteTransitives_ranges _ _ _ H2).
  apply (forEach_rewriteTODO_ranges (todos an) initState st1 []); [|done].
  apply sublist_nil_l.
Qed.

Lemma buildDiagnostics_returns :
  (passFuel an <= fuel)%nat ->
  exists st, buildDiagnostics cfg an fuel initState = Some (tt, st).
Proof.
  intros Hfuel. unfold buildDiagnostics.
  destruct (forEach_run (rewriteTODO cfg an fuel) (todos an) (fun _ => True) initState)
    as (st1 & H1 & _); [intros; by apply rewriteTODO_terminates|done|done|].
  destruct (forEach_run (rewriteTransitives cfg an fuel) (transitives an) (fun _ => True) st1)
    as (st2 & H2 & _); [intros; by apply rewriteTransitives_terminates|done|done|].
  exists st2. by rewrite (bind_run _ _ _ _ _ H1).
Qed.

End PassRanges.

Lemma intersect_insertion_l e1 e2 : isInsertion e1 -> ~ intersect e1 e2.
Proof. unfold isInsertion. intros H (x & H1 & _). lia. Qed.

Lemma intersect_insertion_r e1 e2 : isInsertion e2 -> ~ intersect e1 e2.
Proof. unfold isInsertion. intros H (x & _ & H2). lia. Qed.

(** Edits do not intersect when the ranges of those that are not
    insertions share no position. *)
Lemma nonOverlapping_ranges es :
  ForallOrdPairs disjoint (rangesOf es) -> nonOverlapping es.
Proof.
  unfold nonOverlapping. induction es as [|e es IH]; [constructor|].
  unfold rangesOf in *. simpl.
  destruct (decide (tePos e = teEnd e)) as [Hins|Hne].
  - intros H. constructor; [|by apply IH].
    apply List.Forall_forall. intros e2 _. by apply intersect_insertion_l.
  - intros H. inversion H as [|? ? Hhead Hrest]; subst. constructor; [|by apply IH].
    apply List.Forall_forall. intros e2 Hin.
    destruct (decide (tePos e2 = teEnd e2)) as [Hins2|Hne2].
    { by apply intersect_insertion_r. }
    rewrite List.Forall_forall in Hhead.
    assert (Hd : disjoint (tePos e, teEnd e) (tePos e2, teEnd e2)).
    { apply Hhead. apply list_elem_of_In, list_elem_of_omap. exists e2.
      split; [by apply list_elem_of_In|]. by destruct (decide (tePos e2 = teEnd e2)). }
    intros (x & H1 & H2). destruct Hd as [Hd|Hd]; simpl in Hd; lia.
Qed.



(** ** An assignment to another name *)

Lemma walk_named_assignment cfg stack id x sel lparen args rparen a :
  idName id <> "ctx" -> idName id <> "_" -> isContextTODO (idObj sel) = true ->
  walk cfg stack (NAssignStmt [NIdent id] [NCallExpr (NSelectorExpr x sel) lparen args rparen]) a
  = with_todos
      (todos a ++
       [ {| path := stack ++ [NAssignStmt [NIdent id]
                                [NCallExpr (NSelectorExpr x sel) lparen args rparen];
                              NCallExpr (NSelectorExpr x sel) lparen args rparen];
            call := NCallExpr (NSelectorExpr x sel) lparen args rparen;
            assign := None |} ]) a.
Proof.
  intros Hctx Hblank Htodo.
  apply String.eqb_neq in Hctx, Hblank.
  rewrite walk_eq. cbn [visit walkAssignStmt]. rewrite Hctx, Hblank. cbn [orb fst snd children app].
  rewrite !walkList_cons.
  rewrite (walk_eq cfg _ (NIdent id)). cbn [visit fst snd children].
  rewrite (walk_eq cfg _ (NCallExpr _ _ _ _)). cbn [visit]. unfold walkCallExpr.
  destruct (idObj sel) as [called|] eqn:Hobj; [|done].
  rewrite Htodo. cbn [fst snd]. unfold walkList, forStack. simpl.
  by rewrite <- app_assoc.
Qed.



(** * Further properties of the code *)

(** ** The resolver: pointers, diagnostics, cut-off *)

Lemma typeHasContextMethod_pointerTo n t :
  typeHasContextMethod (pointerTo n t) = typeHasContextMethod t.
Proof. induction n as [|n IH]; [done|]. exact IH. Qed.

(** X1. [typeHasContextMethod] looks through any number of pointers, while
    [isContextContext] looks through none: a parameter [p] whose type is a
    pointer (of any depth) qualifies exactly when the pointed-to type has
    the accessor, and the expression emitted for it is [p.Context()]. *)
Theorem X1_pointer_qualifies_by_its_accessor (n : nat) (t : GoType) (name : string) :
  qualifies (pointerTo (S n) t) = typeHasContextMethod t /\
  providerExpr name (pointerTo (S n) t) = name +:+ ".Context()".
Proof.
  unfold qualifies, providerExpr.
  change (isContextContext (pointerTo (S n) t)) with false.
  split; [|done]. apply (typeHasContextMethod_pointerTo (S n)).
Qed.

Lemma prefix_unnamedParam s : HasPrefix ("unnamedParam" +:+ s) "unnamedParam" = true.
Proof. unfold HasPrefix. apply prefix_app. by exists s. Qed.

Lemma prefix_unnamedParam_app s s' :
  HasPrefix ("unnamedParam" +:+ s +:+ s') "unnamedParam" = true.
Proof. unfold HasPrefix. apply prefix_app. by exists (s +:+ s'). Qed.

Lemma quietResolver_fail : quietResolver (("", false), []).
Proof. repeat split; simpl; [lia|constructor|done]. Qed.

Lemma quietResolver_found expr ds :
  (length ds <= 1)%nat -> Forall isNamingDiagnostic ds ->
  (ds <> [] -> HasPrefix expr "unnamedParam" = true) ->
  quietResolver ((expr, true), ds).
Proof. intros. repeat split; simpl; done. Qed.

Lemma hasContextProviderParam_from_quiet i params :
  quietResolver (hasContextProviderParam_from i params).
Proof.
  revert i. induction params as [|p rest IH]; intros i; simpl; [apply quietResolver_fail|].
  destruct (isContextContext (vType p)); simpl.
  { destruct (String.eqb (vName p) ""); simpl; apply quietResolver_found; simpl;
      try lia; try done; repeat constructor.
    intros _. apply prefix_unnamedParam. }
  destruct (typeHasContextMethod (vType p)); simpl.
  { destruct (String.eqb (vName p) ""); simpl; apply quietResolver_found; simpl;
      try lia; try done; repeat constructor.
    intros _. apply prefix_unnamedParam_app. }
  specialize (IH (S i)). destruct (hasContextProviderParam_from (S i) rest) as [res more].
  by rewrite andb_false_r.
Qed.

Lemma hasContextProviderField_from_quiet i fields :
  quietResolver (hasContextProviderField_from i fields).
Proof.
  revert i. induction fields as [|f rest IH]; intros i; simpl; [apply quietResolver_fail|].
  destruct (fieldType f) as [typ|]; [|apply IH].
  destruct (isContextContext typ); simpl.
  { destruct (fieldNames f); simpl; apply quietResolver_found; simpl;
      try lia; try done; repeat constructor.
    intros _. apply prefix_unnamedParam. }
  destruct (typeHasContextMethod typ); simpl.
  { destruct (fieldNames f); simpl; apply quietResolver_found; simpl;
      try lia; try done; repeat constructor.
    intros _. apply prefix_unnamedParam_app. }
  specialize (IH (S i)). destruct (hasContextProviderField_from (S i) rest) as [res more].
  by rewrite andb_false_r.
Qed.

Lemma providerInPath_quiet rpath at_ : quietResolver (providerInPath rpath at_).
Proof.
  revert at_. induction rpath as [|last prev IH]; intros at_; [apply quietResolver_fail|].
  destruct last; simpl; try apply IH.
  - pose proof (hasContextProviderParam_from_quiet 0 (fParams d)) as Hp.
    unfold hasContextProviderParam.
    destruct (hasContextProviderParam_from 0 (fParams d)) as [[expr ok] ds].
    destruct ok; [done|]. destruct Hp as [Hfail _]. destruct (Hfail eq_refl) as [_ Hds].
    simpl in Hds. subst ds.
    destruct (hasContextProviderInScope (fScope d) at_) as [expr' ok'].
    destruct ok'; [apply quietResolver_found; simpl; [lia|constructor|done]|].
    specialize (IH at_). by destruct (providerInPath prev at_).
  - pose proof (hasContextProviderField_from_quiet 0 params) as Hp.
    unfold hasContextProviderField.
    destruct (hasContextProviderField_from 0 params) as [[expr ok] ds].
    destruct ok; [done|]. destruct Hp as [Hfail _]. destruct (Hfail eq_refl) as [_ Hds].
    simpl in Hds. subst ds.
    destruct (hasContextProviderInScope scope at_) as [expr' ok'].
    destruct ok'; [apply quietResolver_found; simpl; [lia|constructor|done]|].
    specialize (IH at_). by destruct (providerInPath prev at_).
Qed.

(** X2. The resolver reports nothing when it fails; when it succeeds it reports
    at most one diagnostic, which is the naming diagnostic without fix, and
    then the expression it returns starts with [unnamedParam]. *)
Theorem X2_resolver_reports_only_the_parameter_it_uses
    (caller : astPath) (at_ : Pos) (expr : string) (ok : bool) (ds : list Diagnostic) :
  hasContextProviderInPath caller at_ = ((expr, ok), ds) ->
  (ok = false -> expr = "" /\ ds = []) /\
  (length ds <= 1)%nat /\
  Forall isNamingDiagnostic ds /\
  (ds <> [] -> HasPrefix expr "unnamedParam" = true).
Proof.
  intros H. pose proof (providerInPath_quiet (rev caller) at_) as Hq.
  unfold hasContextProviderInPath in H. rewrite H in Hq. exact Hq.
Qed.

(** X2 (instance): the request of [unnamedUnit], under the unnamed parameter of [f]. *)
Lemma X2_resolver_reports_only_the_parameter_it_uses_witness :
  hasContextProviderInPath (path (request unnamedUnit 0)) 138
  = (("unnamedParam0.Context()", true), [DiagAt 107 msgNameParam]) /\
  Forall isNamingDiagnostic [DiagAt 107 msgNameParam] /\
  HasPrefix "unnamedParam0.Context()" "unnamedParam" = true.
Proof.
  assert (H : hasContextProviderInPath (path (request unnamedUnit 0)) 138
              = (("unnamedParam0.Context()", true), [DiagAt 107 msgNameParam]))
    by reflexivity.
  split; [exact H|].
  destruct (X2_resolver_reports_only_the_parameter_it_uses _ _ _ _ _ H) as (_ & _ & Hn & Hp).
  split; [exact Hn|]. apply Hp. discriminate.
Defined.

(** ** The cut-off of the scope search *)

Lemma hasContextProviderInScope_found scope at_ :
  snd (hasContextProviderInScope scope at_) = true <->
  Exists (fun v => vPos v < at_ /\ qualifies (vType v) = true) scope.
Proof.
  induction scope as [|v rest IH]; simpl.
  - split; [done|]. by intros H; inversion H.
  - rewrite Exists_cons, <- IH. unfold qualifies.
    destruct (Z.geb_spec (vPos v) at_) as [Hge|Hlt].
    + split; [tauto|]. intros [[Hlt _]|H]; [lia|done].
    + destruct (isContextContext (vType v)); simpl; [by split; auto|].
      destruct (typeHasContextMethod (vType v)); simpl; [by split; auto|].
      split; [tauto|]. by intros [[_ ?]|H].
Qed.

(** X3. The scope search sees the variables declared strictly before the
    position: a variable declared at the position or after it is passed
    over, a scope with no earlier variable gives the empty failure, and a
    provider found at a position is still found (this one or an earlier
    entry of the scope) at every later position. *)
Theorem X3_hasContextProviderInScope_cutoff (scope : Scope) (at_ at' : Pos) :
  (Forall (fun v => at_ <= vPos v) scope -> hasContextProviderInScope scope at_ = ("", false)) /\
  (at_ <= at' -> snd (hasContextProviderInScope scope at_) = true ->
   snd (hasContextProviderInScope scope at') = true).
Proof.
  split.
  - induction 1 as [|v rest Hv _ IH]; simpl; [done|].
    destruct (Z.geb_spec (vPos v) at_); [done|lia].
  - intros Hle. rewrite !hasContextProviderInScope_found.
    intros H. eapply Exists_impl; [exact H|]. intros v [Hlt Hq]. split; [lia|done].
Qed.

(** X3 (instance): the scope of [j], whose earliest variable is its parameter
    at position 207. *)
Lemma X3_hasContextProviderInScope_cutoff_witness :
  Forall (fun v => 207 <= vPos v) (fScope declJ) /\
  hasContextProviderInScope (fScope declJ) 207 = ("", false) /\
  snd (hasContextProviderInScope (fScope declJ) 208) = true /\
  snd (hasContextProviderInScope (fScope declJ) 237) = true.
Proof.
  assert (H : Forall (fun v => 207 <= vPos v) (fScope declJ)).
  { simpl. repeat (apply List.Forall_cons; [simpl; lia|]). apply List.Forall_nil. }
  split; [exact H|]. split.
  - exact (proj1 (X3_hasContextProviderInScope_cutoff (fScope declJ) 207 207) H).
  - split; [reflexivity|].
    apply (proj2 (X3_hasContextProviderInScope_cutoff (fScope declJ) 208 237)); [lia|reflexivity].
Defined.

(** ** The report filter, as the code applies it *)

Lemma existsb_andb_r {A} (f : A -> bool) (b : bool) (l : list A) :
  existsb (fun x => f x && b) l = existsb f l && b.
Proof.
  induction l as [|x l IH]; simpl; [done|]. by rewrite IH, andb_orb_distrib_l.
Qed.

Lemma inModuleCache_hasValidEdit cfg d :
  inModuleCache cfg d
  = hasValidEdit d && HasPrefix (Filename (Fset cfg) (dPos d)) (ModuleCache cfg).
Proof.
  unfold inModuleCache, hasValidEdit.
  rewrite <- existsb_andb_r. apply existsb_ext_in. intros sf _.
  rewrite <- existsb_andb_r. apply existsb_ext_in. intros te _.
  rewrite existsb_andb_r. simpl. by rewrite orb_false_r.
Qed.

(** X4. The wrapper of [filterReports] drops a diagnostic exactly when one of its
    suggested edits has a valid start or end and the file of the position of
    the diagnostic itself lies under the module cache; every other
    diagnostic reaches the driver, behind those that reached it before. *)
Theorem X4_Report_drops_cached_diagnostics
    (cfg : Config) (d : Diagnostic) (actual : list Diagnostic) :
  Report cfg d actual
  = if hasValidEdit d && HasPrefix (Filename (Fset cfg) (dPos d)) (ModuleCache cfg)
    then actual else actual ++ [d].
Proof. unfold Report. by rewrite inModuleCache_hasValidEdit. Qed.

(** X5. Reporting a sequence of diagnostics through the filter hands the driver
    those the filter does not drop, in their order, and leaves what the driver
    received before untouched. *)
Theorem X5_ReportAll_keeps_the_order (cfg : Config) (ds actual : list Diagnostic) :
  ReportAll cfg ds actual = actual ++ List.filter (fun d => negb (inModuleCache cfg d)) ds.
Proof.
  revert actual. induction ds as [|d ds IH]; intros actual; simpl.
  - by rewrite app_nil_r.
  - unfold ReportAll in *. simpl. rewrite IH. unfold Report.
    destruct (inModuleCache cfg d); simpl; [done|]. by rewrite <- app_assoc.
Qed.

(** ** The import edit *)

Lemma importBlock_snoc decls d :
  importBlock (decls ++ [d])
  = match importLparen d with Some lparen => Some lparen | None => importBlock decls end.
Proof.
  unfold importBlock. rewrite fold_left_app. simpl.
  destruct d; simpl; try done.
  by destruct (String.eqb tok "import" && IsValid lparen).
Qed.

(** X6. The loop that looks for an import block does not stop at the first one
    (its [break] leaves the [switch]): the edit goes into the last
    parenthesised import declaration of the file. *)
Theorem X6_importBlock_is_the_last_block (decls : list Node) :
  importBlock decls = last (omap importLparen decls).
Proof.
  induction decls as [|d decls IH] using rev_ind; [done|].
  rewrite importBlock_snoc, omap_app. simpl.
  destruct (importLparen d) as [lparen|]; simpl.
  - by rewrite last_snoc.
  - by rewrite app_nil_r.
Qed.

(** X7. After [editToImportContext] has been asked about a position, asking
    about any position of the same file gives no edit and changes nothing. *)
Theorem X7_editToImportContext_once_per_file
    (cfg : Config) (pos pos' : Pos) (st st' : State) (es : list TextEdit) :
  editToImportContext cfg pos st = Some (es, st') ->
  Filename (Fset cfg) pos' = Filename (Fset cfg) pos ->
  editToImportContext cfg pos' st' = Some ([], st').
Proof.
  unfold editToImportContext. intros Hrun ->. revert Hrun.
  destruct (list_find _ (Files cfg)) as [[i file]|]; [|by intros [= <- <-]].
  unfold bind at 1, get.
  destruct (decide (i ∈ contextImported st)) as [Hin|Hnot].
  { intros [= <- <-]. unfold bind, get. by destruct (decide (i ∈ contextImported st)). }
  intros Hrun.
  assert (Hst' : i ∈ contextImported st').
  { revert Hrun. unfold bind, modify.
    destruct (existsb _ (fileImports file)); [intros [= <- <-]; simpl; set_solver|].
    destruct (importBlock (fileDecls file)); [intros [= <- <-]; simpl; set_solver|].
    destruct (fileDecls file); intros [= <- <-]; simpl; set_solver. }
  unfold bind, get. by destruct (decide (i ∈ contextImported st')).
Qed.

(** X7 (instance): the file of [blockUnit], which has no import. *)
Lemma X7_editToImportContext_once_per_file_witness :
  exists st',
    editToImportContext blockUnit 19 initState
    = Some ([insertAt 14 ("import " +:+ dquote +:+ "context" +:+ dquote +:+ ";")], st') /\
    Filename (Fset blockUnit) 104 = Filename (Fset blockUnit) 19 /\
    editToImportContext blockUnit 104 st' = Some ([], st').
Proof.
  eexists. split; [reflexivity|]. split; [reflexivity|].
  eapply (X7_editToImportContext_once_per_file blockUnit 19 104 initState); reflexivity.
Defined.

(** ** [run] *)

(** X8. [run] fails exactly when the module cache is the empty string (a prefix
    of every file name, with which the filter would drop every diagnostic
    that carries a valid edit); with any other module cache it builds the
    call graph and the diagnostics and returns. *)
Theorem X8_run_needs_the_module_cache (cfg : Config) :
  (ModuleCache cfg = "" ->
   run cfg = inl "failed to determine GOMODCACHE, specify --modcache flag" /\
   forall d, hasValidEdit d = true -> inModuleCache cfg d = true) /\
  (ModuleCache cfg <> "" -> exists st, run cfg = inr (Some st)).
Proof.
  unfold run. split.
  - intros Hmc. rewrite Hmc. split; [done|]. intros d Hd.
    rewrite inModuleCache_hasValidEdit, Hd, Hmc. unfold HasPrefix. simpl.
    by destruct (Filename _ _).
  - intros Hmc. apply String.eqb_neq in Hmc. rewrite Hmc. unfold runPass.
    destruct (buildDiagnostics_returns cfg (buildCallGraph cfg) (passFuel (buildCallGraph cfg))
                (le_n _)) as (st & Hrun).
    rewrite Hrun. by exists st.
Qed.

(** X8 (instance): a unit without module cache, and [cycleUnit]. *)
Lemma X8_run_needs_the_module_cache_witness :
  ModuleCache noModuleCache = "" /\
  run noModuleCache = inl "failed to determine GOMODCACHE, specify --modcache flag" /\
  inModuleCache noModuleCache diagEditingCache = true /\
  ModuleCache cycleUnit <> "" /\
  exists st, run cycleUnit = inr (Some st).
Proof.
  assert (H1 : ModuleCache noModuleCache = "") by reflexivity.
  assert (H2 : ModuleCache cycleUnit <> "") by discriminate.
  destruct (proj1 (X8_run_needs_the_module_cache noModuleCache) H1) as [Hrun Hall].
  split; [exact H1|]. split; [exact Hrun|]. split; [apply Hall; reflexivity|].
  split; [exact H2|]. exact (proj2 (X8_run_needs_the_module_cache cycleUnit) H2).
Defined.
(** ** What a walk leaves behind *)

Lemma isNamingDiagnostic_walk d : isNamingDiagnostic d -> isWalkDiagnostic d.
Proof. intros [Hm Hf]. split; [done|by left]. Qed.

Lemma isWalkDiagnostic_noFix d : isWalkDiagnostic d -> noFix d.
Proof. by intros [Hf _]. Qed.

Lemma resolve_walk cfg (r : Res) st :
  Forall isNamingDiagnostic (snd r) ->
  exists ds, reports (with_reports (ReportAll cfg (snd r) (reports st)) st) = reports st ++ ds /\
             Forall isWalkDiagnostic ds.
Proof.
  intros H. exists (snd r). split.
  - simpl. apply ReportAll_noFix. eapply Forall_impl; [exact H|]. by intros d [_ Hf].
  - eapply Forall_impl; [exact H|]. apply isNamingDiagnostic_walk.
Qed.

Lemma hasContextProviderParam_naming params :
  Forall isNamingDiagnostic (snd (hasContextProviderParam params)).
Proof. by destruct (hasContextProviderParam_from_quiet 0 params) as (_ & _ & H & _). Qed.

Lemma hasContextProviderInPath_naming caller at_ :
  Forall isNamingDiagnostic (snd (hasContextProviderInPath caller at_)).
Proof. by destruct (providerInPath_quiet (rev caller) at_) as (_ & _ & H & _). Qed.

Lemma editToImportContext_shape cfg pos st :
  exists es st', editToImportContext cfg pos st = Some (es, st') /\
    seen st' = seen st /\ paramAdded st' = paramAdded st /\
    reports st' = reports st /\ facts st' = facts st /\
    Forall isImportEdit es.
Proof.
  unfold editToImportContext.
  destruct (list_find _ (Files cfg)) as [[i file]|]; [|by exists [], st].
  unfold bind, get. destruct (decide (i ∈ contextImported st)); [by exists [], st|].
  simpl. destruct (existsb _ (fileImports file)).
  { eexists [], _. repeat split; constructor. }
  destruct (importBlock (fileDecls file)) as [lparen|].
  { eexists [_], _. repeat split; simpl. constructor; [|constructor]. split; [done|by left]. }
  destruct (fileDecls file) as [|first ?].
  { eexists [], _. repeat split; constructor. }
  eexists [_], _. repeat split; simpl. constructor; [|constructor]. split; [done|by right].
Qed.

Section WalkFrame.
Variable cfg : Config.
Variable an : Analysis.

Lemma Frame_nil start st : Frame cfg an start st [] st.
Proof.
  split; [exists []; by rewrite app_nil_r|constructor|by left].
Qed.

Lemma Frame_same start st st' :
  reports st' = reports st -> facts st' = facts st -> Frame cfg an start st [] st'.
Proof.
  intros Hr Hf. split; [exists []; by rewrite app_nil_r|constructor|].
  intros i. rewrite Hf. by left.
Qed.

Lemma Frame_app start st es1 st1 es2 st2 :
  Frame cfg an start st es1 st1 -> Frame cfg an start st1 es2 st2 ->
  Frame cfg an start st (es1 ++ es2) st2.
Proof.
  intros [(ds1 & R1 & D1) E1 F1] [(ds2 & R2 & D2) E2 F2]. split.
  - exists (ds1 ++ ds2). rewrite R2, R1, <- app_assoc. split; [done|by apply Forall_app].
  - by apply Forall_app.
  - intros i Hi. destruct (F2 i Hi) as [H1|(d & ? & ? & ? & Hin)].
    + destruct (F1 i H1) as [?|(d & ? & ? & ? & Hin)]; [by left|right].
      fact_of d. apply in_app_iff. by left.
    + right. fact_of d. apply in_app_iff. by right.
Qed.

(** The edits of the walk over the procedure that encloses a recorded call
    are edits of every walk. *)
Lemma WalkEdit_caller k l c start e :
  callers an !! k = Some l -> In c l ->
  WalkEdit cfg an (decl (path c)) e -> WalkEdit cfg an start e.
Proof.
  intros Hk Hc.
  assert (Ht : forall d, Touched an (decl (path c)) d -> Touched an start d).
  { intros d [Hd|Hd]; [|by right]. right. by exists k, l, c. }
  intros [d Hd Hn|d Hd Hctx He|d expr Hd Hctx He Hp|e' Hi|k' l' c' expr Hk' Hc' Ha].
  - apply InjectParam; auto.
  - apply DeclareRoot; auto.
  - apply DeclareFromParam; auto.
  - by apply ImportContext.
  - by eapply PassArgument.
Qed.

Lemma Frame_caller k l c start st es st' :
  callers an !! k = Some l -> In c l ->
  Frame cfg an (decl (path c)) st es st' -> Frame cfg an start st es st'.
Proof.
  intros Hk Hc [R E F]. split; [done| |done].
  eapply Forall_impl; [exact E|]. intros e. by eapply WalkEdit_caller.
Qed.

Lemma appendEach_Frame {A} start (f : A -> M (list TextEdit)) (l : list A) st es st' :
  (forall x st es st', In x l -> f x st = Some (es, st') -> Frame cfg an start st es st') ->
  appendEach f l st = Some (es, st') -> Frame cfg an start st es st'.
Proof.
  revert st es st'. induction l as [|x l IH]; intros st es st' Hf; simpl.
  - intros [= <- <-]. apply Frame_nil.
  - intros (e & st1 & H1 & H)%bind_Some. apply bind_Some in H as (es' & st2 & H2 & [= <- <-]).
    apply Hf in H1; [|by left].
    apply IH in H2; [|intros; eapply Hf; eauto; by right].
    by eapply Frame_app.
Qed.

Lemma propagateContextThrough_Frame fuel funcDecl st es st' :
  propagateContextThrough cfg an fuel funcDecl st = Some (es, st') ->
  Frame cfg an funcDecl st es st'.
Proof.
  revert funcDecl st es st'. induction fuel as [|fuel IH]; intros funcDecl st es st'; [done|].
  cbn [propagateContextThrough].
  destruct funcDecl as [fd|]; [|intros [= <- <-]; apply Frame_nil].
  assert (Hself : Touched an (Some fd) fd) by (by left).
  unfold bind at 1, get.
  destruct (decide (fid fd ∈ seen st)); [intros [= <- <-]; apply Frame_nil|].
  unfold bind at 1, modify.
  destruct (decide (fid fd ∈ paramAdded st)); [intros [= <- <-]; by apply Frame_same|].
  unfold bind at 1.
  set (st2 := with_paramAdded _ _).
  assert (F2 : Frame cfg an (Some fd) st [] st2) by (by apply Frame_same).
  destruct (find _ (fParams fd)) as [param|] eqn:Hctx.
  { destruct (isContextContext (vType param)); intros [= <- <-]; [done|].
    split; [|constructor|by left].
    exists [DiagRange (fPos fd) (fEnd fd) msgNonContext]. split.
    - simpl. by rewrite Report_noFix.
    - constructor; [|constructor]. split; [done|by right]. }
  destruct (isMainOrInit fd || isTopLevelTestFunc cfg fd) eqn:Hentry.
  { destruct (editToImportContext_shape cfg (fNamePos fd) st2)
      as (imp & st3 & Himp & _ & _ & Hr & Hf & Himps).
    rewrite (bind_run _ _ _ _ _ Himp). intros [= <- <-]. split.
    - exists []. by rewrite app_nil_r, Hr.
    - constructor; [by apply DeclareRoot|].
      eapply Forall_impl; [exact Himps|]. intros e. apply ImportContext.
    - intros i. rewrite Hf. by left. }
  rewrite (bind_run _ _ _ _ _ (resolve_run _ _ _)).
  pose proof (resolve_walk cfg (hasContextProviderParam (fParams fd)) st2
                (hasContextProviderParam_naming _)) as (ds & Hds & Hwalk).
  set (st3 := with_reports _ st2) in *.
  assert (F3 : Frame cfg an (Some fd) st [] st3).
  { split; [by exists ds|constructor|by left]. }
  destruct (fst (hasContextProviderParam (fParams fd))) as [expr ok] eqn:Hprov. destruct ok.
  { destruct (editToImportContext_shape cfg (fNamePos fd) st3)
      as (imp & st4 & Himp & _ & _ & Hr & Hf & Himps).
    rewrite (bind_run _ _ _ _ _ Himp). intros [= <- <-]. split.
    - exists ds. by rewrite Hr.
    - constructor; [by apply DeclareFromParam|].
      eapply Forall_impl; [exact Himps|]. intros e. apply ImportContext.
    - intros i. rewrite Hf. by left. }
  assert (Hneeds : needsParam cfg fd).
  { split; [exact Hctx|]. split; [exact Hentry|]. by rewrite Hprov. }
  set (exp := if Exported fd then _ else _).
  assert (Hexp : exists st4, exp st3 = Some (tt, st4) /\ reports st4 = reports st3 /\
            forall i, i ∈ facts st4 -> i ∈ facts st3 \/ (i = fid fd /\ Exported fd = true)).
  { subst exp. destruct (Exported fd).
    - eexists. split; [done|]. split; [done|]. simpl. intros i Hi. set_solver.
    - eexists. split; [done|]. split; [done|]. by left. }
  destruct Hexp as (st4 & Hexp & Hr4 & Hf4). rewrite (bind_run _ _ _ _ _ Hexp).
  destruct (editToImportContext_shape cfg (fNamePos fd) st4)
    as (imp & st5 & Himp & _ & _ & Hr5 & Hf5 & Himps).
  rewrite (bind_run _ _ _ _ _ Himp).
  intros (more & st6 & Hloop & [= <- <-])%bind_Some.
  apply (appendEach_Frame (Some fd)) in Hloop.
  - destruct Hloop as [(ds6 & R6 & D6) E6 F6]. split.
    + exists (ds ++ ds6). rewrite R6, Hr5, Hr4, Hds, <- app_assoc.
      split; [done|by apply Forall_app].
    + constructor; [by apply InjectParam|]. apply Forall_app. split; [|done].
      eapply Forall_impl; [exact Himps|]. intros e. apply ImportContext.
    + intros i Hi. destruct (F6 i Hi) as [H5|(d & ? & ? & ? & Hin)].
      * rewrite Hf5 in H5. destruct (Hf4 i H5) as [?|[-> Hex]]; [by left|right].
        fact_of fd. by left.
      * right. fact_of d. right. apply in_app_iff. by right.
  - intros caller s e s' Hcaller. unfold propagateContextForCall_with.
    rewrite (bind_run _ _ _ _ _ (resolve_run _ _ _)).
    pose proof (resolve_walk cfg (hasContextProviderInPath (path caller) (nodePos (call caller)))
                  s (hasContextProviderInPath_naming _ _)) as (ds' & Hds' & Hwalk').
    set (s1 := with_reports _ s) in *.
    assert (Fr : Frame cfg an (Some fd) s [] s1).
    { split; [by exists ds'|constructor|by left]. }
    destruct (callers an !! fid fd) as [l|] eqn:Hl; [|done]. simpl in Hcaller.
    destruct (fst (hasContextProviderInPath _ _)) as [expr' ok'] eqn:Hpath. destruct ok'.
    + intros [= <- <-]. apply (Frame_app (Some fd) s [] s1 [_] s1); [done|].
      split; [exists []; by rewrite app_nil_r| |by left].
      apply List.Forall_cons; [|apply List.Forall_nil].
      eapply PassArgument; [exact Hl|done|]. by left.
    + intros (e' & s2 & Hth & [= <- <-])%bind_Some.
      apply IH in Hth. apply (Frame_caller _ _ _ (Some fd) _ _ _ Hl Hcaller) in Hth.
      apply (Frame_app (Some fd) s [] s1 (e' ++ [_]) s2); [done|].
      eapply (Frame_app (Some fd) s1 e' s2 [_] s2); [done|].
      split; [exists []; by rewrite app_nil_r| |by left].
      apply List.Forall_cons; [|apply List.Forall_nil].
      eapply PassArgument; [exact Hl|done|]. right. by rewrite Hpath.
Qed.

End WalkFrame.

(** X9. Every edit a walk of [propagateContextThrough] returns is of one of
    five kinds: the parameter, injected into a procedure that has no
    parameter named [ctx], is no entry point and has no provider among its
    parameters; the declaration of [ctx] from [context.Background()] in an
    entry point; the declaration of [ctx] from a provider parameter; the
    import of [context]; an argument at a call site recorded in the call
    graph, which is the provider visible there or else [ctx].  The
    procedures edited are the one the walk starts at and procedures that
    enclose a recorded call. *)
Theorem X9_propagateContextThrough_edits
    (cfg : Config) (an : Analysis) (fuel : nat) (funcDecl : option FuncDecl)
    (st st' : State) (es : list TextEdit) :
  propagateContextThrough cfg an fuel funcDecl st = Some (es, st') ->
  Forall (WalkEdit cfg an funcDecl) es.
Proof. intros H. by apply propagateContextThrough_Frame in H as [_ ? _]. Qed.

(** X9 (instance): the walk of [cycle1]. *)
Lemma X9_propagateContextThrough_edits_witness :
  exists es st',
    propagateContextThrough cycleUnit (buildCallGraph cycleUnit) 3 (Some cycle1) initState
    = Some (es, st') /\
    Forall (WalkEdit cycleUnit (buildCallGraph cycleUnit) (Some cycle1)) es.
Proof.
  eexists _, _. split; [reflexivity|].
  eapply (X9_propagateContextThrough_edits cycleUnit (buildCallGraph cycleUnit) 3 (Some cycle1)
            initState).
  reflexivity.
Defined.



(** X11. The diagnostics a walk reports are the naming diagnostic and the
    ambiguity diagnostic, neither with a fix: the filter drops none of them,
    and they reach the driver behind what it had, in the order of the walk. *)
Theorem X11_propagateContextThrough_reports
    (cfg : Config) (an : Analysis) (fuel : nat) (funcDecl : option FuncDecl)
    (st st' : State) (es : list TextEdit) :
  propagateContextThrough cfg an fuel funcDecl st = Some (es, st') ->
  exists ds, reports st' = reports st ++ ds /\ Forall isWalkDiagnostic ds.
Proof. intros H. by apply propagateContextThrough_Frame in H as [? _ _]. Qed.

(** X11 (instance): the walk of [store], which declares [ctx int]. *)
Lemma X11_propagateContextThrough_reports_witness :
  exists es st',
    propagateContextThrough storeUnit (buildCallGraph storeUnit) 1 (Some storeDecl) initState
    = Some (es, st') /\
    exists ds, reports st' = reports initState ++ ds /\ Forall isWalkDiagnostic ds.
Proof.
  eexists _, _. split; [reflexivity|].
  eapply (X11_propagateContextThrough_reports storeUnit (buildCallGraph storeUnit) 1
            (Some storeDecl)
            initState).
  reflexivity.
Defined.

(** ** A procedure is handled once *)

Lemma propagateContextThrough_marks cfg an fuel d st es st' :
  propagateContextThrough cfg an fuel (Some d) st = Some (es, st') ->
  fid d ∈ seen st' /\ (fid d ∉ seen st -> fid d ∈ paramAdded st').
Proof.
  destruct fuel as [|fuel]; [done|]. cbn [propagateContextThrough].
  unfold bind at 1, get.
  destruct (decide (fid d ∈ seen st)); [by intros [= <- <-]|].
  unfold bind at 1, modify.
  destruct (decide (fid d ∈ paramAdded st)).
  { intros [= <- <-]. simpl. split; [set_solver|done]. }
  unfold bind at 1.
  set (st2 := with_paramAdded _ _).
  assert (H2 : fid d ∈ seen st2 /\ fid d ∈ paramAdded st2) by (simpl; set_solver).
  assert (Hkeep : forall s, seen st2 ⊆ seen s -> paramAdded st2 ⊆ paramAdded s ->
                    fid d ∈ seen s /\ (fid d ∉ seen st -> fid d ∈ paramAdded s)).
  { intros s Hs Hp. split; [|intros _]; set_solver. }
  clearbody st2.
  destruct (find _ (fParams d)) as [param|].
  { destruct (isContextContext (vType param)); intros [= <- <-]; by apply Hkeep. }
  destruct (isMainOrInit d || isTopLevelTestFunc cfg d).
  { destruct (editToImportContext_shape cfg (fNamePos d) st2)
      as (imp & st3 & Himp & Hs & Hp & _).
    rewrite (bind_run _ _ _ _ _ Himp). intros [= <- <-]. apply Hkeep; by rewrite ?Hs, ?Hp. }
  rewrite (bind_run _ _ _ _ _ (resolve_run _ _ _)).
  set (st3 := with_reports _ st2).
  assert (Hs3 : seen st3 = seen st2) by done.
  assert (Hp3 : paramAdded st3 = paramAdded st2) by done.
  clearbody st3.
  destruct (fst (hasContextProviderParam (fParams d))) as [expr ok]. destruct ok.
  { destruct (editToImportContext_shape cfg (fNamePos d) st3)
      as (imp & st4 & Himp & Hs & Hp & _).
    rewrite (bind_run _ _ _ _ _ Himp). intros [= <- <-].
    apply Hkeep; by rewrite ?Hs, ?Hp, ?Hs3, ?Hp3. }
  set (exp := if Exported d then _ else _).
  assert (Hexp : exists st4, exp st3 = Some (tt, st4) /\
                             seen st4 = seen st3 /\ paramAdded st4 = paramAdded st3).
  { subst exp. destruct (Exported d); eexists; split; done. }
  destruct Hexp as (st4 & Hexp & Hs4 & Hp4). rewrite (bind_run _ _ _ _ _ Hexp).
  destruct (editToImportContext_shape cfg (fNamePos d) st4)
    as (imp & st5 & Himp & Hs5 & Hp5 & _).
  rewrite (bind_run _ _ _ _ _ Himp).
  intros (more & st6 & Hloop & [= <- <-])%bind_Some.
  apply appendEach_Grows in Hloop as [[G6s G6p _ _ _] _].
  - apply Hkeep; [rewrite <- G6s|rewrite <- G6p]; by rewrite ?Hs5, ?Hp5, ?Hs4, ?Hp4, ?Hs3, ?Hp3.
  - intros caller s e s' _ Hcall.
    change (propagateContextForCall cfg an fuel caller s = Some (e, s')) in Hcall.
    split; [by eapply propagateContextForCall_Grows|
            by eapply propagateContextForCall_insertions].
Qed.

(** X12. A procedure the walk has handled is not edited again in the pass: a
    later walk, of the same request or of a later one, returns no edit for
    it, reports nothing and exports nothing. *)
Theorem X12_propagateContextThrough_handles_once
    (cfg : Config) (an : Analysis) (fuel fuel' : nat) (d : FuncDecl)
    (st st' s : State) (es : list TextEdit) :
  propagateContextThrough cfg an fuel (Some d) st = Some (es, st') ->
  fid d ∉ seen st ->
  paramAdded st' ⊆ paramAdded s ->
  exists s', propagateContextThrough cfg an (S fuel') (Some d) s = Some ([], s') /\
    reports s' = reports s /\ facts s' = facts s /\
    paramAdded s' = paramAdded s /\ contextImported s' = contextImported s.
Proof.
  intros Hrun Hseen Hsub.
  destruct (propagateContextThrough_marks _ _ _ _ _ _ _ Hrun) as [_ Hadded].
  specialize (Hadded Hseen). cbn [propagateContextThrough].
  unfold bind at 1, get.
  destruct (decide (fid d ∈ seen s)); [by exists s|].
  unfold bind at 1, modify.
  destruct (decide (fid d ∈ paramAdded s)) as [|Hnot]; [by eexists|].
  destruct Hnot. set_solver.
Qed.

(** X12 (instance): [main] of [mainUnit], walked for its first request and
    again for its second. *)
Lemma X12_propagateContextThrough_handles_once_witness :
  exists es st',
    propagateContextThrough mainUnit (buildCallGraph mainUnit) 2 (Some funcMain) initState
    = Some (editToAddContextVarDecl funcMain "context.Background()" :: es, st') /\
    (fid funcMain ∉ seen initState) /\
    exists s', propagateContextThrough mainUnit (buildCallGraph mainUnit) 1 (Some funcMain)
                 (with_seen ∅ st') = Some ([], s') /\
      reports s' = reports (with_seen ∅ st').
Proof.
  eexists _, _. split; [reflexivity|]. split; [apply not_elem_of_empty|].
  destruct (X12_propagateContextThrough_handles_once mainUnit (buildCallGraph mainUnit) 2 0 funcMain
              initState _ (with_seen ∅ _) _ eq_refl (not_elem_of_empty _) (reflexivity _))
    as (s' & Hrun & Hr & _).
  exists s'. split; [exact Hrun|exact Hr].
Defined.

(** ** Every caller gets the argument *)

Lemma appendEach_covers {A} (f : A -> M (list TextEdit)) (l : list A) st es st' x :
  appendEach f l st = Some (es, st') -> In x l ->
  exists s e s', f x s = Some (e, s') /\ incl e es.
Proof.
  revert st es. induction l as [|y l IH]; intros st es; simpl; [done|].
  intros (e & st1 & H1 & H)%bind_Some. apply bind_Some in H as (es' & st2 & H2 & [= <- <-]).
  intros [->|Hin].
  - exists st, e, st1. split; [done|]. apply incl_appl, incl_refl.
  - destruct (IH _ _ H2 Hin) as (s & e' & s' & Hf & Hincl).
    exists s, e', s'. split; [done|]. by apply incl_appr.
Qed.

Lemma propagateContextForCall_with_argument cfg through c st es st' :
  propagateContextForCall_with cfg through c st = Some (es, st') ->
  exists expr, argumentFor c expr /\ In (editToPrependExpr (call c) expr) es.
Proof.
  unfold propagateContextForCall_with, argumentFor.
  rewrite (bind_run _ _ _ _ _ (resolve_run _ _ _)).
  destruct (fst (hasContextProviderInPath _ _)) as [expr ok]. destruct ok.
  - intros [= <- <-]. exists expr. split; [by left|by left].
  - intros (e & s1 & Hth & [= <- <-])%bind_Some. exists "ctx".
    split; [by right|]. apply in_app_iff. right. by left.
Qed.

(** X13. When the walk injects the parameter into a procedure, every call of
    that procedure recorded in the call graph receives an argument among the
    edits that follow: the provider visible at the call, or else [ctx]. *)
Theorem X13_callers_receive_the_argument
    (cfg : Config) (an : Analysis) (fuel : nat) (d : FuncDecl) (st st' : State)
    (rest : list TextEdit) (c : localCall) :
  propagateContextThrough cfg an fuel (Some d) st = Some (editToPrependCtxParam d :: rest, st') ->
  In c (default [] (callers an !! fid d)) ->
  exists expr, argumentFor c expr /\ In (editToPrependExpr (call c) expr) rest.
Proof.
  destruct fuel as [|fuel]; [done|]. cbn [propagateContextThrough].
  unfold bind at 1, get.
  destruct (decide (fid d ∈ seen st)); [done|].
  unfold bind at 1, modify.
  destruct (decide (fid d ∈ paramAdded st)); [done|].
  unfold bind at 1.
  set (st2 := with_paramAdded _ _). clearbody st2.
  destruct (find _ (fParams d)) as [param|].
  { by destruct (isContextContext (vType param)). }
  destruct (isMainOrInit d || isTopLevelTestFunc cfg d).
  { destruct (editToImportContext_shape cfg (fNamePos d) st2) as (imp & st3 & Himp & _).
    rewrite (bind_run _ _ _ _ _ Himp). by intros [=]. }
  rewrite (bind_run _ _ _ _ _ (resolve_run _ _ _)).
  set (st3 := with_reports _ st2). clearbody st3.
  destruct (fst (hasContextProviderParam (fParams d))) as [expr ok]. destruct ok.
  { destruct (editToImportContext_shape cfg (fNamePos d) st3) as (imp & st4 & Himp & _).
    rewrite (bind_run _ _ _ _ _ Himp). by intros [=]. }
  set (exp := if Exported d then _ else _).
  assert (Hexp : exists st4, exp st3 = Some (tt, st4)).
  { subst exp. destruct (Exported d); by eexists. }
  destruct Hexp as (st4 & Hexp). rewrite (bind_run _ _ _ _ _ Hexp).
  destruct (editToImportContext_shape cfg (fNamePos d) st4) as (imp & st5 & Himp & _).
  rewrite (bind_run _ _ _ _ _ Himp).
  intros (more & st6 & Hloop & [= <- <-])%bind_Some Hc.
  destruct (appendEach_covers _ _ _ _ _ c Hloop Hc) as (s & e & s' & Hcall & Hincl).
  apply propagateContextForCall_with_argument in Hcall as (expr' & Harg & Hin).
  exists expr'. split; [done|]. apply in_app_iff. right. by apply Hincl.
Qed.

(** X13 (instance): [cycle1], whose one caller is [cycle2]. *)
Lemma X13_callers_receive_the_argument_witness :
  exists rest st',
    propagateContextThrough cycleUnit (buildCallGraph cycleUnit) 3 (Some cycle1) initState
    = Some (editToPrependCtxParam cycle1 :: rest, st') /\
    exists c, default [] (callers (buildCallGraph cycleUnit) !! fid cycle1) = [c] /\
      exists expr, argumentFor c expr /\ In (editToPrependExpr (call c) expr) rest.
Proof.
  eexists _, _. split; [reflexivity|]. eexists. split; [reflexivity|].
  eapply (X13_callers_receive_the_argument cycleUnit (buildCallGraph cycleUnit) 3 cycle1 initState);
    [reflexivity|by left].
Defined.

(** ** The enclosing declaration of a path *)

Lemma decl_from_app last p q :
  decl_from last (p ++ q) = decl_from (decl_from last p) q.
Proof.
  revert last. induction p as [|n p IH]; intros last; [done|].
  destruct n; simpl; apply IH.
Qed.

Lemma decl_from_none last p :
  Forall (fun n => isFuncDecl n = false) p -> decl_from last p = last.
Proof.
  intros H. revert last. induction H as [|n p Hn _ IH]; intros last; [done|].
  destruct n; simpl; try apply IH. done.
Qed.

(** X14. [decl] returns the innermost function declaration of a path: the one
    after which the path holds no other; it returns none exactly for a path
    that holds no function declaration. *)
Theorem X14_decl_is_the_innermost_declaration (p : astPath) :
  match decl p with
  | Some d => exists outer body inner,
      p = outer ++ NFuncDecl d body :: inner /\ Forall (fun n => isFuncDecl n = false) inner
  | None => Forall (fun n => isFuncDecl n = false) p
  end.
Proof.
  unfold decl. induction p as [|n p IH] using rev_ind; [constructor|].
  rewrite decl_from_app.
  destruct (isFuncDecl n) eqn:Hn.
  - destruct n; try discriminate Hn. simpl. exists p, body, []. split; [done|constructor].
  - replace (decl_from (decl_from None p) [n]) with (decl_from None p)
      by (by destruct n).
    destruct (decl_from None p) as [d|].
    + destruct IH as (outer & body & inner & -> & Hinner).
      exists outer, body, (inner ++ [n]). split; [by rewrite <- app_assoc|].
      apply Forall_app. split; [done|]. by constructor.
    + apply Forall_app. split; [done|]. by constructor.
Qed.

(** ** A request outside any function declaration *)

Lemma hasContextProviderInPath_fail caller at_ :
  snd (fst (hasContextProviderInPath caller at_)) = false ->
  hasContextProviderInPath caller at_ = (("", false), []).
Proof.
  intros H. destruct (providerInPath_quiet (rev caller) at_) as [Hfail _].
  unfold hasContextProviderInPath in *.
  destruct (providerInPath (rev caller) at_) as [[expr ok] ds]. simpl in *. subst ok.
  by destruct (Hfail eq_refl) as [-> ->].
Qed.

(** X15. For a request that no function declaration encloses (in the initialiser
    of a package-level variable, say) [propagateContextThrough] receives no
    declaration and does nothing: the fix is the edit of the request alone,
    the deletion of the binding in the assignment form and otherwise, when
    no provider is visible, the replacement by [ctx]; nothing else is
    reported, added or exported. *)
Theorem X15_request_outside_any_declaration
    (cfg : Config) (an : Analysis) (fuel : nat) (todo : localCall) (st : State) :
  Forall (fun n => isFuncDecl n = false) (path todo) ->
  (forall a, assign todo = Some a ->
     rewriteTODO cfg an (S fuel) todo st
     = Some (tt, with_reports
                   (Report cfg (plumbDiagnostic (call todo) "Plumb context" [editToRemoveAssign a])
                           (reports st))
                   (with_seen ∅ st))) /\
  (assign todo = None ->
   snd (fst (hasContextProviderInPath (path todo) (nodePos (call todo)))) = false ->
   rewriteTODO cfg an (S fuel) todo st
   = Some (tt, with_reports
                 (Report cfg (plumbDiagnostic (call todo) "Plumb context"
                                              [editToReplaceCall (call todo) "ctx"])
                         (reports st))
                 (with_seen ∅ st))).
Proof.
  intros Hnone.
  assert (Hd : decl (path todo) = None) by (by apply decl_from_none).
  split.
  - intros a Ha.
    rewrite (rewriteTODO_run cfg an (S fuel) todo st [editToRemoveAssign a] (with_seen ∅ st));
      [done|].
    unfold todoEdits. by rewrite Ha, Hd.
  - intros Ha Hfail. apply hasContextProviderInPath_fail in Hfail.
    rewrite (rewriteTODO_run cfg an (S fuel) todo st [editToReplaceCall (call todo) "ctx"]
               (with_seen ∅ st)); [done|].
    unfold todoEdits. rewrite Ha, Hd.
    rewrite (bind_run _ _ _ _ _ (resolve_run _ _ _)), Hfail. done.
Qed.

(** X15 (instance): the request in the initialiser of [handler]. *)
Lemma X15_request_outside_any_declaration_witness :
  Forall (fun n => isFuncDecl n = false) (path (request varUnit 0)) /\
  assign (request varUnit 0) = None /\
  snd (fst (hasContextProviderInPath (path (request varUnit 0))
                                     (nodePos (call (request varUnit 0))))) = false /\
  rewriteTODO varUnit (buildCallGraph varUnit) 1 (request varUnit 0) initState
  = Some (tt, with_reports
                [plumbDiagnostic (call (request varUnit 0)) "Plumb context"
                   [ {| tePos := 73; teEnd := 87; teNewText := "ctx" |} ]]
                initState).
Proof.
  assert (H : Forall (fun n => isFuncDecl n = false) (path (request varUnit 0))).
  { repeat (apply List.Forall_cons; [reflexivity|]). apply List.Forall_nil. }
  split; [exact H|]. split; [reflexivity|]. split; [reflexivity|].
  exact (proj2 (X15_request_outside_any_declaration varUnit (buildCallGraph varUnit) 0
                  (request varUnit 0) initState H) eq_refl eq_refl).
Defined.

(** ** The reports of the pass *)

Lemma isWalkDiagnostic_passes cfg d : isWalkDiagnostic d -> inModuleCache cfg d = false.
Proof. intros [Hf _]. unfold inModuleCache. by rewrite Hf. Qed.

Lemma filter_hasFix_walk ds : Forall isWalkDiagnostic ds -> List.filter hasFix ds = [].
Proof.
  induction 1 as [|d ds [Hf _] _ IH]; [done|]. simpl. unfold hasFix at 1. by rewrite Hf.
Qed.

Lemma outsideModuleCache_passes cfg d :
  outsideModuleCache cfg = true -> inModuleCache cfg d = false.
Proof.
  unfold outsideModuleCache. intros [Hmc Hfiles]%andb_true_iff.
  rewrite inModuleCache_hasValidEdit.
  assert (Hp : HasPrefix (Filename (Fset cfg) (dPos d)) (ModuleCache cfg) = false);
    [|by rewrite Hp, andb_false_r].
  assert (Hempty : HasPrefix "" (ModuleCache cfg) = false).
  { unfold HasPrefix. destruct (ModuleCache cfg); [done|done]. }
  unfold Filename. destruct (find _ (Fset cfg)) as [f|] eqn:Hfind; [|done].
  destruct (IsValid (dPos d)); [|done].
  apply find_some in Hfind as [Hin _].
  rewrite forallb_forall in Hfiles. by apply negb_true_iff, Hfiles.
Qed.

Lemma sublist_map {A B} (f : A -> B) (l1 l2 : list A) :
  sublist l1 l2 -> sublist (map f l1) (map f l2).
Proof. induction 1; simpl; by constructor. Qed.

Section PassReports.
Variable cfg : Config.
Variable an : Analysis.
Variable fuel : nat.

Lemma todoEdits_reports todo st es st' :
  todoEdits cfg an fuel todo st = Some (es, st') ->
  exists ds, reports st' = reports st ++ ds /\ Forall isWalkDiagnostic ds.
Proof.
  unfold todoEdits. destruct (assign todo) as [a|].
  - intros (e & s1 & Hth & [= <- <-])%bind_Some.
    by apply propagateContextThrough_Frame in Hth as [? _ _].
  - rewrite (bind_run _ _ _ _ _ (resolve_run _ _ _)).
    pose proof (resolve_walk cfg (hasContextProviderInPath (path todo) (nodePos (call todo)))
                  st (hasContextProviderInPath_naming _ _)) as (ds & Hds & Hwalk).
    set (s := with_reports _ st) in *.
    destruct (fst (hasContextProviderInPath _ _)) as [expr ok]. destruct ok.
    + intros [= <- <-]. by exists ds.
    + intros (e & s1 & Hth & [= <- <-])%bind_Some.
      apply propagateContextThrough_Frame in Hth as [(ds' & Hds' & Hwalk') _ _].
      exists (ds ++ ds'). rewrite Hds', Hds, <- app_assoc. split; [done|by apply Forall_app].
Qed.

Lemma propagateContextForCall_reports caller st es st' :
  propagateContextForCall cfg an fuel caller st = Some (es, st') ->
  exists ds, reports st' = reports st ++ ds /\ Forall isWalkDiagnostic ds.
Proof.
  unfold propagateContextForCall, propagateContextForCall_with.
  rewrite (bind_run _ _ _ _ _ (resolve_run _ _ _)).
  pose proof (resolve_walk cfg (hasContextProviderInPath (path caller) (nodePos (call caller)))
                st (hasContextProviderInPath_naming _ _)) as (ds & Hds & Hwalk).
  set (s := with_reports _ st) in *.
  destruct (fst (hasContextProviderInPath _ _)) as [expr ok]. destruct ok.
  - intros [= <- <-]. by exists ds.
  - intros (e & s1 & Hth & [= <- <-])%bind_Some.
    apply propagateContextThrough_Frame in Hth as [(ds' & Hds' & Hwalk') _ _].
    exists (ds ++ ds'). rewrite Hds', Hds, <- app_assoc. split; [done|by apply Forall_app].
Qed.

Lemma rewriteTODO_reports todo st st' :
  rewriteTODO cfg an fuel todo st = Some (tt, st') -> Requested cfg "Plumb context" todo st st'.
Proof.
  unfold rewriteTODO. unfold bind at 1, modify.
  intros (es & st1 & Hes & [= <-])%bind_Some.
  apply todoEdits_reports in Hes as (ds & Hds & Hwalk).
  exists ds, es. split; [done|]. simpl. by rewrite Hds.
Qed.

Lemma rewriteTransitives_reports todo st st' :
  rewriteTransitives cfg an fuel todo st = Some (tt, st') ->
  Requested cfg "Continue plumbing context" todo st st'.
Proof.
  unfold rewriteTransitives. unfold bind at 1, modify.
  intros (es & st1 & Hes & [= <-])%bind_Some.
  apply propagateContextForCall_reports in Hes as (ds & Hds & Hwalk).
  exists ds, es. split; [done|]. simpl. by rewrite Hds.
Qed.

Lemma Requested_passes msg t st st' :
  Requested cfg msg t st st' ->
  Forall (fun d => inModuleCache cfg d = false) (reports st) ->
  Forall (fun d => inModuleCache cfg d = false) (reports st').
Proof.
  intros (ds & es & Hwalk & ->) Hst. unfold Report.
  assert (H : Forall (fun d => inModuleCache cfg d = false) (reports st ++ ds)).
  { apply Forall_app. split; [done|].
    eapply Forall_impl; [exact Hwalk|]. apply isWalkDiagnostic_passes. }
  destruct (inModuleCache cfg (plumbDiagnostic _ _ _)) eqn:Hc; [done|].
  apply Forall_app. split; [done|]. by repeat constructor.
Qed.

Lemma Requested_headlines msg t st st' :
  Requested cfg msg t st st' ->
  exists kept, sublist kept [t] /\ (outsideModuleCache cfg = true -> kept = [t]) /\
    map headline (List.filter hasFix (reports st'))
    = map headline (List.filter hasFix (reports st)) ++ map (requestHeadline msg) kept.
Proof.
  intros (ds & es & Hwalk & ->). unfold Report.
  assert (H : List.filter hasFix (reports st ++ ds) = List.filter hasFix (reports st)).
  { by rewrite List.filter_app, (filter_hasFix_walk ds), app_nil_r. }
  destruct (inModuleCache cfg (plumbDiagnostic _ _ _)) eqn:Hc.
  - exists []. split; [apply sublist_nil_l|]. split.
    + intros Hout. by rewrite outsideModuleCache_passes in Hc.
    + by rewrite H, app_nil_r.
  - exists [t]. split; [done|]. split; [done|].
    by rewrite List.filter_app, H, map_app.
Qed.

Lemma forEach_passes msg (f : localCall -> M unit) l st st' :
  (forall t st st', f t st = Some (tt, st') -> Requested cfg msg t st st') ->
  forEach f l st = Some (tt, st') ->
  Forall (fun d => inModuleCache cfg d = false) (reports st) ->
  Forall (fun d => inModuleCache cfg d = false) (reports st').
Proof.
  intros Hf. revert st. induction l as [|t l IH]; intros st; simpl.
  - by intros [= <-].
  - intros ([] & st1 & H1 & H2)%bind_Some Hst. apply (IH st1 H2).
    eapply Requested_passes; [by apply Hf|done].
Qed.

Lemma forEach_headlines msg (f : localCall -> M unit) l st st' :
  (forall t st st', f t st = Some (tt, st') -> Requested cfg msg t st st') ->
  forEach f l st = Some (tt, st') ->
  exists kept, sublist kept l /\ (outsideModuleCache cfg = true -> kept = l) /\
    map headline (List.filter hasFix (reports st'))
    = map headline (List.filter hasFix (reports st)) ++ map (requestHeadline msg) kept.
Proof.
  intros Hf. revert st. induction l as [|t l IH]; intros st; simpl.
  - intros [= <-]. exists []. by rewrite app_nil_r.
  - intros ([] & st1 & H1 & H2)%bind_Some.
    apply Hf, Requested_headlines in H1 as (k1 & S1 & O1 & E1).
    destruct (IH st1 H2) as (k2 & S2 & O2 & E2).
    exists (k1 ++ k2). split; [by apply (sublist_app k1 [t])|]. split.
    + intros Hout. by rewrite O1, O2.
    + by rewrite E2, E1, map_app, <- app_assoc.
Qed.

End PassReports.

(** X16. Whatever reaches the driver in a pass has passed the filter: no
    diagnostic it receives has both an edit with a valid position and its
    own position in a file under the module cache. *)
Theorem X16_pass_reports_are_filtered (cfg : Config) (an : Analysis) (fuel : nat) (st : State) :
  buildDiagnostics cfg an fuel initState = Some (tt, st) ->
  Forall (fun d => inModuleCache cfg d = false) (reports st).
Proof.
  unfold buildDiagnostics. intros ([] & st1 & H1 & H2)%bind_Some.
  eapply (forEach_passes cfg "Continue plumbing context"); [|exact H2|].
  { intros t s s'. apply rewriteTransitives_reports. }
  eapply (forEach_passes cfg "Plumb context"); [|exact H1|constructor].
  intros t s s'. apply rewriteTODO_reports.
Qed.

(** X16 (instance): the pass over [cycleUnit]. *)
Lemma X16_pass_reports_are_filtered_witness :
  exists st,
    buildDiagnostics cycleUnit (buildCallGraph cycleUnit) 3 initState = Some (tt, st) /\
    Forall (fun d => inModuleCache cycleUnit d = false) (reports st).
Proof.
  eexists. split; [reflexivity|].
  eapply (X16_pass_reports_are_filtered cycleUnit (buildCallGraph cycleUnit) 3). reflexivity.
Defined.



(** ** What the call graph holds *)

Lemma visit_proceeds cfg stack n a : fst (visit cfg stack n a) = negb (isRequestNode n).
Proof.
  destruct n as [p imports decls|p tok lparen specs|d body|p params scope body
                |lhs rhs|fn lparen args rparen|x sel|id|p e scope cs]; try done.
  - cbn [visit]. unfold walkAssignStmt, isRequestNode, isRequestCall. simpl.
    rewrite orb_false_r.
    destruct lhs as [|l [|]]; [done| |by destruct l].
    destruct rhs as [|r [|]]; [by destruct l| |destruct_nodes].
    destruct l as [| | | | | | |id|]; try done.
    destruct (String.eqb (idName id) "ctx" || String.eqb (idName id) "_");
      [|by destruct r as [| | | | |[]| | |]].
    destruct r as [| | | | |fn lp args rp| | |]; try done.
    destruct fn as [| | | | | |x sel| |]; try done.
    simpl. by destruct (isContextTODO (idObj sel)).
  - cbn [visit]. unfold walkCallExpr, isRequestNode, isRequestCall, calleeObject. simpl.
    assert (Hrest : forall ident : Ident,
      fst (match idObj ident with
           | None => (true, a)
           | Some called =>
               if isContextTODO (Some called)
               then (false, with_todos (todos a ++ [ {| path := forStack stack;
                        call := NCallExpr fn lparen args rparen; assign := None |} ]) a)
               else
                 let here := {| path := forStack stack;
                                call := NCallExpr fn lparen args rparen; assign := None |} in
                 let a1 := if isLocal cfg (oPkgPath called)
                           then with_callers
                                  (<[oid called := default [] (callers a !! oid called) ++ [here]]>
                                     (callers a)) a
                           else a in
                 let a2 := if decide (oid called ∈ ImportedFacts cfg)
                           then with_transitives (transitives a1 ++ [here]) a1
                           else a1 in
                 (true, a2)
           end) = negb (isContextTODO (idObj ident))).
    { intros ident. destruct (idObj ident) as [called|]; [|done].
      by destruct (isContextTODO (Some called)). }
    destruct fn as [| | | | | |x sel|id|]; try done; apply Hrest.
Qed.

Lemma visit_request cfg stack n a :
  isRequestNode n = true ->
  exists t, snd (visit cfg stack n a) = with_todos (todos a ++ [t]) a /\
            path t = stack /\ requestNode t = n.
Proof.
  intros Hreq.
  pose proof (visit_proceeds cfg stack n a) as Hp. rewrite Hreq in Hp. simpl in Hp.
  destruct n as [p imports decls|p tok lparen specs|d body|p params scope body
                |lhs rhs|fn lparen args rparen|x sel|id|p e scope cs]; try done.
  - revert Hp. cbn [visit]. unfold walkAssignStmt.
    destruct lhs as [|l [|]]; try done.
    destruct rhs as [|r [|]]; try (by destruct l).
    destruct l as [| | | | | | |id|]; try done.
    destruct (String.eqb (idName id) "ctx" || String.eqb (idName id) "_"); [|done].
    destruct r as [| | | | |fn lp args rp| | |]; try done.
    destruct fn as [| | | | | |x sel| |]; try done.
    destruct (isContextTODO (idObj sel)); [|done].
    intros _. by eexists.
  - revert Hp. cbn [visit]. unfold walkCallExpr.
    destruct fn as [| | | | | |x sel|id|]; try done.
    + destruct (idObj sel) as [called|]; [|done].
      destruct (isContextTODO (Some called)); [intros _; by eexists|done].
    + destruct (idObj id) as [called|]; [|done].
      destruct (isContextTODO (Some called)); [intros _; by eexists|done].
Qed.

Lemma visit_call cfg stack n a o :
  isRequestNode n = false -> calleeObject n = Some o ->
  let here := {| path := stack; call := n; assign := None |} in
  todos (snd (visit cfg stack n a)) = todos a /\
  callers (snd (visit cfg stack n a))
  = (if isLocal cfg (oPkgPath o)
     then <[oid o := default [] (callers a !! oid o) ++ [here]]> (callers a)
     else callers a) /\
  transitives (snd (visit cfg stack n a))
  = (if decide (oid o ∈ ImportedFacts cfg) then transitives a ++ [here] else transitives a).
Proof.
  unfold isRequestNode, isRequestCall, calleeObject. intros Hreq Hobj.
  apply orb_false_iff in Hreq as [_ Hreq].
  destruct n as [p imports decls|p tok lparen specs|d body|p params scope body
                |lhs rhs|fn lparen args rparen|x sel|id|p e scope cs]; try done.
  cbn [visit]. unfold walkCallExpr, forStack.
  destruct fn as [| | | | | |x sel|id|]; try done; simpl in Hreq, Hobj;
    rewrite Hobj in *; rewrite Hreq; simpl;
    by destruct (isLocal cfg (oPkgPath o)), (decide (oid o ∈ ImportedFacts cfg)).
Qed.

Lemma visit_other cfg stack n a :
  isRequestNode n = false -> calleeObject n = None ->
  todos (snd (visit cfg stack n a)) = todos a /\
  callers (snd (visit cfg stack n a)) = callers a /\
  transitives (snd (visit cfg stack n a)) = transitives a.
Proof.
  unfold calleeObject. intros Hreq Hobj.
  pose proof (visit_proceeds cfg stack n a) as Hp. rewrite Hreq in Hp. simpl in Hp.
  destruct n as [p imports decls|p tok lparen specs|d body|p params scope body
                |lhs rhs|fn lparen args rparen|x sel|id|p e scope cs]; try done.
  - revert Hp. cbn [visit]. unfold walkAssignStmt.
    destruct lhs as [|l [|]]; try done.
    destruct rhs as [|r [|]]; try (by destruct l).
    destruct l as [| | | | | | |id|]; try done.
    destruct (String.eqb (idName id) "ctx" || String.eqb (idName id) "_"); [|done].
    destruct r as [| | | | |fn lp args rp| | |]; try done.
    destruct fn as [| | | | | |x sel| |]; try done.
    by destruct (isContextTODO (idObj sel)).
  - cbn [visit]. unfold walkCallExpr.
    destruct fn as [| | | | | |x sel|id|]; try done; simpl in Hobj; by rewrite Hobj.
Qed.

Lemma isRequestNode_callee n o :
  isRequestNode n = false -> calleeObject n = Some o -> isContextTODO (Some o) = false.
Proof.
  unfold isRequestNode, isRequestCall. intros [_ H]%orb_false_iff Hobj. by rewrite Hobj in H.
Qed.

(** *** The walk comes to a node only along [Reaches] *)

Lemma Reaches_snoc stack n p m c :
  Reaches stack n p m -> isRequestNode m = false -> In c (children m) ->
  Reaches stack n (p ++ [c]) c.
Proof.
  induction 1 as [stack n|stack n c' p m Hn Hc' _ IH]; intros Hm Hc.
  - eapply reaches_child; [done|exact Hc|]. apply reaches_self.
  - eapply reaches_child; [done|exact Hc'|]. by apply IH.
Qed.

Lemma walk_sound cfg f (Inv : Analysis -> Prop) :
  (forall p n a, Reaches [] f p n -> Inv a -> Inv (snd (visit cfg p n a))) ->
  forall n stack a, Reaches [] f (stack ++ [n]) n -> Inv a -> Inv (walk cfg stack n a).
Proof.
  intros Hvisit n. induction n as [n IH] using Node_children_ind. intros stack a Hreach Ha.
  rewrite walk_eq, visit_proceeds.
  pose proof (Hvisit _ _ a Hreach Ha) as Ha'.
  destruct (isRequestNode n) eqn:Hreq; simpl; [done|].
  assert (Hlist : forall l a0, incl l (children n) -> Inv a0 ->
                    Inv (walkList cfg (stack ++ [n]) l a0)).
  { induction l as [|c l IHl]; intros a0 Hincl Ha0; [done|].
    rewrite walkList_cons. apply IHl; [by eapply incl_cons_inv|].
    rewrite List.Forall_forall in IH. apply IH; [apply Hincl; by left| |done].
    eapply Reaches_snoc; [exact Hreach|done|]. apply Hincl. by left. }
  apply Hlist; [apply incl_refl|done].
Qed.

Lemma buildCallGraph_sound cfg (Inv : Analysis -> Prop) :
  Inv emptyAnalysis ->
  (forall f p n a, In f (Files cfg) -> Reaches [] f p n -> Inv a ->
     Inv (snd (visit cfg p n a))) ->
  Inv (buildCallGraph cfg).
Proof.
  intros Hempty Hvisit. unfold buildCallGraph.
  assert (Hfiles : forall l a, incl l (Files cfg) -> Inv a ->
                     Inv (fold_left (fun a f => walk cfg [] f a) l a)).
  { induction l as [|f l IHl]; intros a Hincl Ha; [done|]. simpl.
    apply IHl; [by eapply incl_cons_inv|].
    apply (walk_sound cfg f Inv); [|apply (reaches_self [] f)|done].
    intros p n a0. apply Hvisit, Hincl. by left. }
  apply Hfiles; [apply incl_refl|done].
Qed.

Lemma GraphSound_empty cfg : GraphSound cfg emptyAnalysis.
Proof.
  split; [done| |done]. intros k l c Hk. cbn [callers emptyAnalysis] in Hk.
  by rewrite lookup_empty in Hk.
Qed.

Lemma GraphSound_visit cfg f p n a :
  In f (Files cfg) -> Reaches [] f p n -> GraphSound cfg a ->
  GraphSound cfg (snd (visit cfg p n a)).
Proof.
  intros Hf Hreach [St Sc Str].
  destruct (isRequestNode n) eqn:Hreq.
  { destruct (visit_request cfg p n a Hreq) as (t & -> & Hp & Hn).
    split; [|done|done]. simpl. intros t' [Hin|[<-|[]]]%in_app_iff; [by apply St|].
    exists f. rewrite Hp, Hn. done. }
  destruct (calleeObject n) as [o|] eqn:Hobj.
  - destruct (visit_call cfg p n a o Hreq Hobj) as (Ht & Hc & Htr).
    pose proof (isRequestNode_callee n o Hreq Hobj) as Hnot.
    split.
    + rewrite Ht. exact St.
    + rewrite Hc. destruct (isLocal cfg (oPkgPath o)) eqn:Hlocal; [|exact Sc].
      intros k l c. destruct (decide (k = oid o)) as [->|Hne].
      * rewrite lookup_insert_eq. intros [= <-] [Hin|[<-|[]]]%in_app_iff.
        -- destruct (callers a !! oid o) as [l0|] eqn:Hl0; [|done]. by eapply Sc.
        -- by exists f, o.
      * rewrite lookup_insert_ne by done. apply Sc.
    + rewrite Htr. destruct (decide (oid o ∈ ImportedFacts cfg)) as [Hfact|]; [|exact Str].
      intros c [Hin|[<-|[]]]%in_app_iff; [by apply Str|]. by exists f, o.
  - destruct (visit_other cfg p n a Hreq Hobj) as (Ht & Hc & Htr).
    split; [by rewrite Ht|by rewrite Hc|by rewrite Htr].
Qed.

Lemma buildCallGraph_GraphSound cfg : GraphSound cfg (buildCallGraph cfg).
Proof.
  apply buildCallGraph_sound; [apply GraphSound_empty|].
  intros f p n a. apply GraphSound_visit.
Qed.

(** *** The walk records what it comes to *)

Lemma walk_keeps cfg (Has : Analysis -> Prop) :
  (forall stack n a, Has a -> Has (snd (visit cfg stack n a))) ->
  forall n stack a, Has a -> Has (walk cfg stack n a).
Proof.
  intros Hvisit n. induction n as [n IH] using Node_children_ind. intros stack a Ha.
  rewrite walk_eq. pose proof (Hvisit (stack ++ [n]) n a Ha) as Ha'.
  destruct (fst (visit cfg (stack ++ [n]) n a)); [|done].
  revert Ha'. generalize (snd (visit cfg (stack ++ [n]) n a)).
  induction IH as [|c l Hc _ IHl]; intros a0 Ha0; [done|].
  rewrite walkList_cons. apply IHl. by apply Hc.
Qed.

Lemma walkList_keeps cfg (Has : Analysis -> Prop) stack l a :
  (forall stack n a, Has a -> Has (snd (visit cfg stack n a))) ->
  Has a -> Has (walkList cfg stack l a).
Proof.
  intros Hvisit. revert a. induction l as [|c l IH]; intros a Ha; [done|].
  rewrite walkList_cons. apply IH. by apply walk_keeps.
Qed.

Lemma walk_finds cfg (Has : Analysis -> Prop) p m :
  (forall stack n a, Has a -> Has (snd (visit cfg stack n a))) ->
  (forall a, Has (snd (visit cfg p m a))) ->
  forall stack n, Reaches stack n p m -> forall a, Has (walk cfg stack n a).
Proof.
  intros Hkeep Hput stack n Hreach.
  induction Hreach as [stack n|stack n c p m Hn Hc _ IH]; intros a; rewrite walk_eq.
  - destruct (fst (visit cfg (stack ++ [n]) n a)); [|apply Hput].
    apply walkList_keeps; [done|apply Hput].
  - rewrite visit_proceeds, Hn. simpl.
    apply in_split in Hc as (l1 & l2 & ->).
    rewrite walkList_app, walkList_cons. apply walkList_keeps; [done|]. by apply IH.
Qed.

Lemma buildCallGraph_finds cfg (Has : Analysis -> Prop) f p m :
  (forall stack n a, Has a -> Has (snd (visit cfg stack n a))) ->
  (forall a, Has (snd (visit cfg p m a))) ->
  In f (Files cfg) -> Reaches [] f p m -> Has (buildCallGraph cfg).
Proof.
  intros Hkeep Hput Hf Hreach. unfold buildCallGraph.
  apply in_split in Hf as (l1 & l2 & ->).
  rewrite fold_left_app. simpl.
  change (Has (walkList cfg [] l2 (walk cfg [] f (fold_left (fun a f => walk cfg [] f a) l1
                                                         emptyAnalysis)))).
  apply walkList_keeps; [done|]. by eapply walk_finds.
Qed.

Lemma visit_todos_grow cfg stack n a t :
  In t (todos a) -> In t (todos (snd (visit cfg stack n a))).
Proof.
  intros Hin. destruct (isRequestNode n) eqn:Hreq.
  { destruct (visit_request cfg stack n a Hreq) as (t' & -> & _). simpl.
    apply in_app_iff. by left. }
  destruct (calleeObject n) as [o|] eqn:Hobj.
  - destruct (visit_call cfg stack n a o Hreq Hobj) as (-> & _). done.
  - destruct (visit_other cfg stack n a Hreq Hobj) as (-> & _). done.
Qed.

Lemma visit_callers_grow cfg stack n a k l c :
  callers a !! k = Some l -> In c l ->
  exists l', callers (snd (visit cfg stack n a)) !! k = Some l' /\ In c l'.
Proof.
  intros Hk Hin. destruct (isRequestNode n) eqn:Hreq.
  { destruct (visit_request cfg stack n a Hreq) as (t' & -> & _). by exists l. }
  destruct (calleeObject n) as [o|] eqn:Hobj.
  - destruct (visit_call cfg stack n a o Hreq Hobj) as (_ & -> & _).
    destruct (isLocal cfg (oPkgPath o)); [|by exists l].
    destruct (decide (k = oid o)) as [->|Hne].
    + rewrite lookup_insert_eq, Hk. eexists. split; [done|]. apply in_app_iff. by left.
    + rewrite lookup_insert_ne by done. by exists l.
  - destruct (visit_other cfg stack n a Hreq Hobj) as (_ & -> & _). by exists l.
Qed.

Lemma visit_transitives_grow cfg stack n a c :
  In c (transitives a) -> In c (transitives (snd (visit cfg stack n a))).
Proof.
  intros Hin. destruct (isRequestNode n) eqn:Hreq.
  { by destruct (visit_request cfg stack n a Hreq) as (t' & -> & _). }
  destruct (calleeObject n) as [o|] eqn:Hobj.
  - destruct (visit_call cfg stack n a o Hreq Hobj) as (_ & _ & ->).
    destruct (decide (oid o ∈ ImportedFacts cfg)); [|done]. apply in_app_iff. by left.
  - by destruct (visit_other cfg stack n a Hreq Hobj) as (_ & _ & ->).
Qed.

Lemma calleeObject_not_request m o :
  calleeObject m = Some o -> isContextTODO (Some o) = false -> isRequestNode m = false.
Proof.
  unfold isRequestNode, isRequestCall. intros Hobj Hnot. rewrite Hobj, Hnot.
  by destruct m.
Qed.







(** *** A unit without requests *)

Lemma anyNode_eq test n : anyNode test n = test n || existsb (anyNode test) (children n).
Proof.
  assert (loop : forall l,
    (fix anyOf (l : list Node) : bool :=
       match l with
       | [] => false
       | c :: rest => anyNode test c || anyOf rest
       end) l = existsb (anyNode test) l).
  { induction l as [|c r IHl]; [done|]. simpl. by rewrite IHl. }
  destruct n as [p imports decls|p tok lparen specs|d body|p params scope body
                |lhs rhs|fn lparen args rparen|x sel|id|p e scope cs];
    cbn [anyNode children]; rewrite ?loop, ?existsb_app; try done.
  simpl. by rewrite orb_false_r.
Qed.

Lemma Reaches_anyNode test stack n p m :
  Reaches stack n p m -> test m = true -> anyNode test n = true.
Proof.
  induction 1 as [stack n|stack n c p m _ Hc _ IH]; intros Hm; rewrite anyNode_eq.
  - by rewrite Hm.
  - apply orb_true_iff. right. apply existsb_exists. exists c. split; [done|by apply IH].
Qed.



(** ** The fix of a call that continues the plumbing *)

(** X22. The fix of a call to a function that carries the fact ends with the
    argument for that call, inserted right after its opening parenthesis:
    the provider visible at the call, and then the fix is this one edit, or
    else [ctx], after the edits of the walk that gives the enclosing
    procedure its context. *)
Theorem X22_rewriteTransitives_fix
    (cfg : Config) (an : Analysis) (fuel : nat) (c : localCall) (st st' : State) :
  rewriteTransitives cfg an fuel c st = Some (tt, st') ->
  exists ds ins expr,
    Forall isWalkDiagnostic ds /\ Forall (WalkEdit cfg an (decl (path c))) ins /\
    argumentFor c expr /\
    (snd (fst (hasContextProviderInPath (path c) (nodePos (call c)))) = true -> ins = []) /\
    reports st'
    = Report cfg (plumbDiagnostic (call c) "Continue plumbing context"
                                  (ins ++ [editToPrependExpr (call c) expr]))
             (reports st ++ ds).
Proof.
  unfold rewriteTransitives. unfold bind at 1, modify.
  intros (es & st1 & Hes & [= <-])%bind_Some. revert Hes.
  unfold propagateContextForCall, propagateContextForCall_with, argumentFor.
  rewrite (bind_run _ _ _ _ _ (resolve_run _ _ _)).
  pose proof (resolve_walk cfg (hasContextProviderInPath (path c) (nodePos (call c)))
                (with_seen ∅ st) (hasContextProviderInPath_naming _ _)) as (ds & Hds & Hwalk).
  set (s := with_reports _ _) in *.
  destruct (fst (hasContextProviderInPath _ _)) as [expr ok]. destruct ok.
  - intros [= <- <-]. exists ds, [], expr.
    split; [done|]. split; [constructor|]. split; [by left|]. split; [done|].
    cbn [reports with_reports]. by rewrite Hds.
  - intros (e & s1 & Hth & [= <- <-])%bind_Some.
    apply propagateContextThrough_Frame in Hth as [(ds' & Hds' & Hwalk') He _].
    exists (ds ++ ds'), e, "ctx".
    split; [by apply Forall_app|]. split; [done|]. split; [by right|]. split; [done|].
    cbn [reports with_reports]. by rewrite Hds', Hds, <- app_assoc.
Qed.

(** X22 (instance): the call of [producer.Dial] in [main], an entry point. *)
Lemma X22_rewriteTransitives_fix_witness :
  exists st',
    rewriteTransitives consumerUnit (buildCallGraph consumerUnit) 2
      (nth 0 (transitives (buildCallGraph consumerUnit)) noCall) initState = Some (tt, st') /\
    reports st'
    = [ plumbDiagnostic dialCall "Continue plumbing context"
          [ insertAt 113 "ctx := context.Background();";
            insertAt 28 importSpecText;
            insertAt 149 "ctx, " ] ] /\
    exists ds ins expr,
      Forall (WalkEdit consumerUnit (buildCallGraph consumerUnit) (Some consumerMain)) ins /\
      reports st'
      = Report consumerUnit
          (plumbDiagnostic dialCall "Continue plumbing context"
             (ins ++ [editToPrependExpr dialCall expr]))
          (reports initState ++ ds).
Proof.
  eexists. split; [reflexivity|]. split; [reflexivity|].
  destruct (X22_rewriteTransitives_fix consumerUnit (buildCallGraph consumerUnit) 2
              (nth 0 (transitives (buildCallGraph consumerUnit)) noCall) initState _ eq_refl)
    as (ds & ins & expr & _ & Hins & _ & _ & Hrep).
  by exists ds, ins, expr.
Defined.

(** ** [buildScopeMap] inverts the scope map *)

Lemma buildScopeMap_snoc entries node scope :
  buildScopeMap (entries ++ [(node, scope)]) = <[scope := node]> (buildScopeMap entries).
Proof. unfold buildScopeMap. by rewrite fold_left_app. Qed.

Lemma buildScopeMap_sound entries node scope :
  buildScopeMap entries !! scope = Some node -> In (node, scope) entries.
Proof.
  induction entries as [|[n s] entries IH] using rev_ind; [done|].
  rewrite buildScopeMap_snoc, in_app_iff.
  destruct (decide (scope = s)) as [->|Hne].
  - rewrite lookup_insert_eq. intros [= ->]. right. by left.
  - rewrite lookup_insert_ne by done. intros H. left. by apply IH.
Qed.

Lemma buildScopeMap_complete entries node scope :
  (forall n, In (n, scope) entries -> n = node) ->
  In (node, scope) entries -> buildScopeMap entries !! scope = Some node.
Proof.
  induction entries as [|[n s] entries IH] using rev_ind; [done|].
  rewrite buildScopeMap_snoc. intros Hinj Hin.
  destruct (decide (scope = s)) as [->|Hne].
  - rewrite lookup_insert_eq. f_equal. apply Hinj, in_app_iff. right. by left.
  - rewrite lookup_insert_ne by done. apply IH.
    + intros n' Hn'. apply Hinj, in_app_iff. by left.
    + apply in_app_iff in Hin as [Hin|[[= -> ->]|[]]]; done.
Qed.

(** X23. [buildScopeMap] maps a scope only to a node that has this scope, in
    whatever order the entries of the map come; when no two nodes share a
    scope it maps the scope of every node back to that node. *)
Theorem X23_buildScopeMap_inverts
    (scopes : gmap positive positive) (entries : list (positive * positive)) :
  entries ≡ₚ map_to_list scopes ->
  (forall node scope,
     buildScopeMap entries !! scope = Some node -> scopes !! node = Some scope) /\
  ((forall n1 n2 s, scopes !! n1 = Some s -> scopes !! n2 = Some s -> n1 = n2) ->
   forall node scope,
     scopes !! node = Some scope -> buildScopeMap entries !! scope = Some node).
Proof.
  intros Hperm.
  assert (Hin : forall node scope, In (node, scope) entries <-> scopes !! node = Some scope).
  { intros node scope. rewrite <- list_elem_of_In, Hperm. apply elem_of_map_to_list. }
  split.
  - intros node scope H. by apply Hin, buildScopeMap_sound.
  - intros Hinj node scope H. apply buildScopeMap_complete; [|by apply Hin].
    intros n Hn. apply Hin in Hn. by eapply Hinj.
Qed.

(** X23 (instance): two nodes with two scopes. *)
Lemma X23_buildScopeMap_inverts_witness :
  map_to_list sampleScopes ≡ₚ map_to_list sampleScopes /\
  (forall n1 n2 s, sampleScopes !! n1 = Some s -> sampleScopes !! n2 = Some s -> n1 = n2) /\
  buildScopeMap (map_to_list sampleScopes) !! 20%positive = Some 2%positive.
Proof.
  assert (Hinj : forall n1 n2 s,
            sampleScopes !! n1 = Some s -> sampleScopes !! n2 = Some s -> n1 = n2).
  { unfold sampleScopes. intros n1 n2 s H1 H2.
    apply lookup_insert_Some in H1 as [[<- <-]|[? H1]];
      apply lookup_insert_Some in H2 as [[<- ?]|[? H2]]; try done.
    - apply lookup_insert_Some in H2 as [[<- ?]|[? H2]]; done.
    - apply lookup_insert_Some in H1 as [[<- ?]|[? H1]]; [congruence|done].
    - apply lookup_insert_Some in H1 as [[<- <-]|[? H1]]; [|done].
      apply lookup_insert_Some in H2 as [[<- ?]|[? H2]]; done. }
  split; [reflexivity|]. split; [exact Hinj|].
  apply (proj2 (X23_buildScopeMap_inverts sampleScopes _ (reflexivity _)) Hinj).
  reflexivity.
Defined.

(** ** The requests come in the order of the source *)

Lemma chain_sorted lo hi rs : chain lo hi rs -> ForallOrdPairs precedes rs.
Proof.
  revert lo. induction rs as [|[a b] rs IH]; intros lo; [constructor|].
  intros (_ & _ & Hrest). constructor; [|by eapply IH].
  eapply Forall_impl; [exact (chain_within _ _ _ Hrest)|].
  intros r (Hr & _). exact Hr.
Qed.

(** X24. Below a node of a parsed tree the walk records the requests in the
    order of the source: the range of each (the call, or the whole
    assignment) lies inside the node and ends before the range of every
    request recorded after it starts. *)
Theorem X24_requests_follow_the_source
    (cfg : Config) (n : Node) (stack : list Node) (a : Analysis) :
  wfNode n = true ->
  exists new, todos (walk cfg stack n a) = todos a ++ new /\
    ForallOrdPairs precedes (map todoRange new) /\
    Forall (within (nodePos n) (nodeEnd n)) (map todoRange new).
Proof.
  intros Hwf. destruct (walk_chain cfg n stack a Hwf) as (new & Hnew & Hchain).
  exists new. split; [done|]. split; [by eapply chain_sorted|by apply chain_within].
Qed.

(** X24 (instance): the three requests of [mainUnit]. *)
Lemma X24_requests_follow_the_source_witness :
  wfNode mainFile = true /\
  map todoRange (todos (walk mainUnit [] mainFile emptyAnalysis))
  = [(146, 160); (230, 244); (260, 274)] /\
  exists new, todos (walk mainUnit [] mainFile emptyAnalysis) = todos emptyAnalysis ++ new /\
    ForallOrdPairs precedes (map todoRange new).
Proof.
  assert (Hwf : wfNode mainFile = true) by reflexivity.
  split; [exact Hwf|]. split; [reflexivity|].
  destruct (X24_requests_follow_the_source mainUnit mainFile [] emptyAnalysis Hwf)
    as (new & Hnew & Hsorted & _).
  by exists new.
Defined.

(** ** A file gets its import once *)

Lemma occurrences_app e es1 es2 :
  occurrences e (es1 ++ es2) = (occurrences e es1 + occurrences e es2)%nat.
Proof. apply count_occ_app. Qed.

Lemma occurrences_other e e' : e' <> e -> occurrences e [e'] = 0%nat.
Proof. intros H. unfold occurrences. by rewrite count_occ_cons_neq. Qed.

Lemma pending_mono i st st' :
  contextImported st ⊆ contextImported st' -> (pending i st' <= pending i st)%nat.
Proof.
  unfold pending. intros H.
  destruct (decide (i ∈ contextImported st')), (decide (i ∈ contextImported st));
    try lia. set_solver.
Qed.

Lemma Imports_none i e st st' :
  contextImported st ⊆ contextImported st' -> Imports i e st [] st'.
Proof. intros H. unfold Imports. simpl. by apply pending_mono. Qed.

Lemma Imports_app i e st es1 st1 es2 st2 :
  Imports i e st es1 st1 -> Imports i e st1 es2 st2 -> Imports i e st (es1 ++ es2) st2.
Proof. unfold Imports. rewrite occurrences_app. lia. Qed.

Lemma Imports_other i e e' st :
  e' <> e -> Imports i e st [e'] st.
Proof. intros H. unfold Imports. rewrite occurrences_other by done. lia. Qed.

Lemma import_text_not_argument expr s :
  s = importSpecText \/ s = importStmtText -> expr +:+ ", " <> s.
Proof.
  intros Hs Heq.
  assert (H : HasSuffix s ", " = true) by (apply HasSuffix_spec; by exists expr).
  by destruct Hs as [-> | ->].
Qed.

Lemma isImportEdit_not_param e d : isImportEdit e -> editToPrependCtxParam d <> e.
Proof. intros [_ [H|H]] <-; cbv in H; discriminate H. Qed.

Lemma isImportEdit_not_varDecl e d expr : isImportEdit e -> editToAddContextVarDecl d expr <> e.
Proof. intros [_ [H|H]] <-; cbv in H; discriminate H. Qed.

Lemma isImportEdit_not_argument e c expr : isImportEdit e -> editToPrependExpr c expr <> e.
Proof.
  intros [_ H] <-. simpl in H. by eapply import_text_not_argument.
Qed.

Lemma isImportEdit_not_removal e a : isImportEdit e -> editToRemoveAssign a <> e.
Proof. intros [_ [H|H]] <-; cbv in H; discriminate H. Qed.

Lemma isImportEdit_not_replacement e c expr :
  nodePos c <> callEnd c -> isImportEdit e -> editToReplaceCall c expr <> e.
Proof. intros Hne [Hins _] <-. by apply Hne. Qed.

Lemma importEditOf_isImportEdit file e : importEditOf file = Some e -> isImportEdit e.
Proof.
  unfold importEditOf. destruct (existsb _ _); [done|].
  destruct (importBlock _).
  - intros [= <-]. split; [done|by left].
  - destruct (fileDecls file); [done|]. intros [= <-]. split; [done|by right].
Qed.

Section ImportOnce.
Variable cfg : Config.
Variable an : Analysis.
Variable i : nat.
Variable e : TextEdit.
Hypothesis He : isImportEdit e.
Hypothesis Hown : forall j fj,
  Files cfg !! j = Some fj -> importEditOf fj = Some e -> j = i.

Lemma editToImportContext_Imports pos st es st' :
  editToImportContext cfg pos st = Some (es, st') ->
  Imports i e st es st' /\ contextImported st ⊆ contextImported st'.
Proof.
  unfold editToImportContext.
  destruct (list_find _ (Files cfg)) as [[j file]|] eqn:Hfind;
    [|intros [= <- <-]; split; [by apply Imports_none|done]].
  apply list_find_Some in Hfind as (Hj & _).
  unfold bind at 1, get.
  destruct (decide (j ∈ contextImported st)) as [|Hnew];
    [intros [= <- <-]; split; [by apply Imports_none|done]|].
  unfold bind at 1, modify.
  set (st1 := with_contextImported _ st).
  assert (Hsub : contextImported st ⊆ contextImported st1) by (simpl; set_solver).
  assert (Hmark : forall e', importEditOf file = Some e' -> Imports i e st [e'] st1).
  { intros e' He'. unfold Imports.
    destruct (decide (e' = e)) as [->|Hne].
    - pose proof (Hown j file Hj He') as ->.
      assert (Hin1 : i ∈ contextImported st1) by (simpl; set_solver).
      unfold occurrences, pending.
      rewrite count_occ_cons_eq by done.
      change (count_occ TextEdit_eq_dec [] e) with 0%nat.
      destruct (decide (i ∈ contextImported st)); [done|].
      destruct (decide (i ∈ contextImported st1)); [lia|done].
    - rewrite occurrences_other by done. by apply pending_mono. }
  revert Hmark. unfold importEditOf.
  destruct (existsb _ (fileImports file));
    [intros _ [= <- <-]; split; [by apply Imports_none|done]|].
  destruct (importBlock (fileDecls file)) as [lparen|].
  { intros Hmark [= <- <-]. split; [by apply Hmark|done]. }
  destruct (fileDecls file) as [|first rest].
  { intros _ [= <- <-]. split; [by apply Imports_none|done]. }
  intros Hmark [= <- <-]. split; [by apply Hmark|done].
Qed.

Lemma appendEach_Imports {A} (f : A -> M (list TextEdit)) (l : list A) st es st' :
  (forall x st es st', In x l -> f x st = Some (es, st') -> Imports i e st es st') ->
  appendEach f l st = Some (es, st') -> Imports i e st es st'.
Proof.
  revert st es st'. induction l as [|x l IH]; intros st es st' Hf; simpl.
  - intros [= <- <-]. by apply Imports_none.
  - intros (e1 & st1 & H1 & H)%bind_Some. apply bind_Some in H as (es' & st2 & H2 & [= <- <-]).
    apply Hf in H1; [|by left].
    apply IH in H2; [|intros; eapply Hf; eauto; by right].
    by eapply Imports_app.
Qed.

Lemma propagateContextThrough_Imports fuel funcDecl st es st' :
  propagateContextThrough cfg an fuel funcDecl st = Some (es, st') ->
  Imports i e st es st'.
Proof.
  revert funcDecl st es st'. induction fuel as [|fuel IH]; intros funcDecl st es st'; [done|].
  cbn [propagateContextThrough].
  destruct funcDecl as [fd|]; [|intros [= <- <-]; by apply Imports_none].
  unfold bind at 1, get.
  destruct (decide (fid fd ∈ seen st)); [intros [= <- <-]; by apply Imports_none|].
  unfold bind at 1, modify.
  destruct (decide (fid fd ∈ paramAdded st)); [intros [= <- <-]; by apply Imports_none|].
  unfold bind at 1.
  set (st2 := with_paramAdded _ _).
  assert (I2 : Imports i e st [] st2) by (by apply Imports_none).
  destruct (find _ (fParams fd)) as [param|].
  { destruct (isContextContext (vType param)); intros [= <- <-]; by apply Imports_none. }
  destruct (isMainOrInit fd || isTopLevelTestFunc cfg fd).
  { intros (imp & st3 & Himp & [= <- <-])%bind_Some.
    apply editToImportContext_Imports in Himp as [Himp _].
    apply (Imports_app i e st [] st2 _ st3 I2).
    apply (Imports_app i e st2 [_] st2 imp st3); [|done].
    by apply Imports_other, isImportEdit_not_varDecl. }
  rewrite (bind_run _ _ _ _ _ (resolve_run _ _ _)).
  set (st3 := with_reports _ st2).
  assert (I3 : Imports i e st [] st3) by (by apply Imports_none).
  destruct (fst (hasContextProviderParam (fParams fd))) as [expr ok]. destruct ok.
  { intros (imp & st4 & Himp & [= <- <-])%bind_Some.
    apply editToImportContext_Imports in Himp as [Himp _].
    apply (Imports_app i e st [] st3 _ st4 I3).
    apply (Imports_app i e st3 [_] st3 imp st4); [|done].
    by apply Imports_other, isImportEdit_not_varDecl. }
  set (exp := if Exported fd then _ else _).
  assert (Hexp : exists st4, exp st3 = Some (tt, st4) /\ Imports i e st [] st4).
  { subst exp. destruct (Exported fd); eexists; (split; [done|]); by apply Imports_none. }
  destruct Hexp as (st4 & Hexp & I4). rewrite (bind_run _ _ _ _ _ Hexp).
  intros (imp & st5 & Himp & Hrest)%bind_Some.
  apply bind_Some in Hrest as (more & st6 & Hloop & [= <- <-]).
  apply editToImportContext_Imports in Himp as [Himp _].
  apply (Imports_app i e st [] st4 _ st6 I4).
  apply (Imports_app i e st4 [_] st4 _ st6);
    [by apply Imports_other, isImportEdit_not_param|].
  apply (Imports_app i e st4 imp st5 more st6 Himp).
  apply appendEach_Imports in Hloop; [done|].
  intros caller s es' s' _. unfold propagateContextForCall_with.
  rewrite (bind_run _ _ _ _ _ (resolve_run _ _ _)).
  set (s1 := with_reports _ s).
  assert (Is : Imports i e s [] s1) by (by apply Imports_none).
  destruct (fst (hasContextProviderInPath _ _)) as [expr' ok']. destruct ok'.
  - intros [= <- <-]. apply (Imports_app i e s [] s1 [_] s1 Is).
    by apply Imports_other, isImportEdit_not_argument.
  - intros (e' & s2 & Hth & [= <- <-])%bind_Some. apply IH in Hth.
    apply (Imports_app i e s [] s1 _ s2 Is).
    apply (Imports_app i e s1 e' s2 [_] s2 Hth).
    by apply Imports_other, isImportEdit_not_argument.
Qed.

Lemma todoEdits_Imports fuel todo st es st' :
  nodePos (call todo) <> callEnd (call todo) ->
  todoEdits cfg an fuel todo st = Some (es, st') -> Imports i e st es st'.
Proof.
  intros Hne. unfold todoEdits. destruct (assign todo) as [a|].
  - intros (e' & s1 & Hth & [= <- <-])%bind_Some.
    apply propagateContextThrough_Imports in Hth.
    apply (Imports_app i e st e' s1 [_] s1 Hth).
    by apply Imports_other, isImportEdit_not_removal.
  - rewrite (bind_run _ _ _ _ _ (resolve_run _ _ _)).
    set (s := with_reports _ st).
    assert (Is : Imports i e st [] s) by (by apply Imports_none).
    destruct (fst (hasContextProviderInPath _ _)) as [expr ok]. destruct ok.
    + intros [= <- <-]. apply (Imports_app i e st [] s [_] s Is).
      by apply Imports_other, isImportEdit_not_replacement.
    + intros (e' & s1 & Hth & [= <- <-])%bind_Some.
      apply propagateContextThrough_Imports in Hth.
      apply (Imports_app i e st [] s _ s1 Is).
      apply (Imports_app i e s e' s1 [_] s1 Hth).
      by apply Imports_other, isImportEdit_not_replacement.
Qed.

Lemma propagateContextForCall_Imports fuel caller st es st' :
  propagateContextForCall cfg an fuel caller st = Some (es, st') -> Imports i e st es st'.
Proof.
  unfold propagateContextForCall, propagateContextForCall_with.
  rewrite (bind_run _ _ _ _ _ (resolve_run _ _ _)).
  set (s := with_reports _ st).
  assert (Is : Imports i e st [] s) by (by apply Imports_none).
  destruct (fst (hasContextProviderInPath _ _)) as [expr ok]. destruct ok.
  - intros [= <- <-]. apply (Imports_app i e st [] s [_] s Is).
    by apply Imports_other, isImportEdit_not_argument.
  - intros (e' & s1 & Hth & [= <- <-])%bind_Some.
    apply propagateContextThrough_Imports in Hth.
    apply (Imports_app i e st [] s _ s1 Is).
    apply (Imports_app i e s e' s1 [_] s1 Hth).
    by apply Imports_other, isImportEdit_not_argument.
Qed.

(** Reporting the fix of one request keeps the count below what is pending. *)
Lemma Imports_report c msg st es st1 bound :
  (occurrences e (allEdits (reports st)) + pending i st <= bound)%nat ->
  allEdits (reports st1) = allEdits (reports st) ->
  Imports i e (with_seen ∅ st) es st1 ->
  (occurrences e (allEdits (reports (with_reports
       (Report cfg (plumbDiagnostic c msg es) (reports st1)) st1)))
   + pending i (with_reports (Report cfg (plumbDiagnostic c msg es) (reports st1)) st1)
   <= bound)%nat.
Proof.
  intros Hinv Hedits Himp. unfold Imports in Himp.
  change (pending i (with_seen ∅ st)) with (pending i st) in Himp.
  change (pending i (with_reports (Report cfg (plumbDiagnostic c msg es) (reports st1)) st1))
    with (pending i st1).
  cbn [reports with_reports].
  destruct (allEdits_Report_plumb cfg c msg es (reports st1)) as [-> | ->]; rewrite Hedits.
  - lia.
  - rewrite occurrences_app. lia.
Qed.

Lemma forEach_Imports (f : localCall -> M unit) msg l st st' bound :
  (forall t st st', In t l -> f t st = Some (tt, st') ->
     exists es st1, allEdits (reports st1) = allEdits (reports st) /\
       Imports i e (with_seen ∅ st) es st1 /\
       st' = with_reports (Report cfg (plumbDiagnostic (call t) msg es) (reports st1)) st1) ->
  forEach f l st = Some (tt, st') ->
  (occurrences e (allEdits (reports st)) + pending i st <= bound)%nat ->
  (occurrences e (allEdits (reports st')) + pending i st' <= bound)%nat.
Proof.
  revert st. induction l as [|t l IH]; intros st Hf; simpl.
  - by intros [= <-].
  - intros ([] & st1 & H1 & H2)%bind_Some Hst.
    apply Hf in H1 as (es & s1 & Hedits & Himp & ->); [|by left].
    apply (IH _ (fun t' s s' Hin => Hf t' s s' (or_intror Hin)) H2).
    by apply (Imports_report (call t) msg st es s1 bound).
Qed.

End ImportOnce.

(** X25. Among all the edits the pass reports, the import edit of a file
    occurs at most once: [contextImported] is kept for the whole pass, and
    no other edit of the pass is an import edit.  (The import edits of
    distinct files are distinct, and a request is not an empty
    expression.) *)
Theorem X25_a_file_is_imported_once
    (cfg : Config) (an : Analysis) (fuel : nat) (st : State)
    (i : nat) (file : Node) (e : TextEdit) :
  buildDiagnostics cfg an fuel initState = Some (tt, st) ->
  nonEmptyRequests an = true ->
  Files cfg !! i = Some file -> importEditOf file = Some e ->
  (forall j fj, Files cfg !! j = Some fj -> importEditOf fj = Some e -> j = i) ->
  (occurrences e (allEdits (reports st)) <= 1)%nat.
Proof.
  intros Hrun Hne Hfile Hedit Hown.
  pose proof (importEditOf_isImportEdit _ _ Hedit) as He.
  unfold nonEmptyRequests in Hne. rewrite forallb_forall in Hne.
  revert Hrun. unfold buildDiagnostics. intros ([] & st1 & H1 & H2)%bind_Some.
  assert (Hinit : (occurrences e (allEdits (reports initState)) + pending i initState <= 1)%nat).
  { unfold pending. simpl. destruct (decide (i ∈ ∅)); [set_solver|done]. }
  apply (forEach_Imports cfg i e _ "Plumb context" _ _ _ 1%nat) in H1; [|clear H1|done].
  - apply (forEach_Imports cfg i e _ "Continue plumbing context" _ _ _ 1%nat) in H2; [lia| |done].
    intros t s s' _. unfold rewriteTransitives. unfold bind at 1, modify.
    intros (es & s1 & Hes & [= <-])%bind_Some. exists es, s1.
    pose proof (propagateContextForCall_Grows _ _ _ _ _ _ _ Hes) as [_ _ _ _ Ge].
    split; [done|]. split; [|done]. by eapply propagateContextForCall_Imports.
  - intros t s s' Hin. unfold rewriteTODO. unfold bind at 1, modify.
    intros (es & s1 & Hes & [= <-])%bind_Some. exists es, s1.
    pose proof (todoEdits_Grows _ _ _ _ _ _ _ Hes) as [_ _ _ _ Ge].
    split; [done|]. split; [|done]. eapply todoEdits_Imports; [done|done| |exact Hes].
    specialize (Hne t Hin). by apply negb_true_iff, Z.eqb_neq in Hne.
Qed.

(** X25 (instance): the pass over [blockUnit], whose file has no import. *)
Lemma X25_a_file_is_imported_once_witness :
  nonEmptyRequests (buildCallGraph blockUnit) = true /\
  importEditOf blockFile = Some (insertAt 14 importStmtText) /\
  exists st,
    buildDiagnostics blockUnit (buildCallGraph blockUnit) 2 initState = Some (tt, st) /\
    In (insertAt 14 importStmtText) (allEdits (reports st)) /\
    (occurrences (insertAt 14%Z importStmtText) (allEdits (reports st)) <= 1)%nat.
Proof.
  split; [reflexivity|]. split; [reflexivity|].
  eexists. split; [reflexivity|]. split; [right; left; reflexivity|].
  apply (X25_a_file_is_imported_once blockUnit (buildCallGraph blockUnit) 2 _ 0 blockFile);
    [reflexivity|reflexivity|reflexivity|reflexivity|].
  intros [|j] fj Hj _; [done|]. by destruct j.
Defined.
